(** * Expense tracker: record store, category store, queries and the
      spreadsheet bridge

    A shallow embedding of the data layer of [main.js] (the browser
    application) and of the Google Apps Script endpoint, followed by the
    properties of the specification that concern them.

    Conventions of the embedding.
    - A JavaScript string is a [string]: the bytes of its UTF-8 text.
      Equality is equality of the texts; the relational operators compare
      the UTF-16 code units, an order that is read off the bytes.
    - [localeCompare] is the comparison of the host and of its locale; the
      operations that call it take it as an argument.
    - A JavaScript number is an [Amount]: an integer or [NaN].  Sums and
      differences are rounded as doubles are, to 53 significant bits; the
      infinities, which the code reaches from 2^1024 on, are not
      represented.
    - [localStorage] is a record with one optional field per key.  It is
      available and accepts every write, and [JSON.parse] gives back the
      value that [JSON.stringify] was given.  The one value for which the
      browser does not is an amount that is not a number, stored as
      [null]: the model keeps [NaN] for it, and the statements about sums
      are made for amounts that are numbers.
    - What the outside world decides is an argument of the operation: the
      identifier drawn by [generateId], the answer to a [confirm] box, the
      outcome of a [fetch].
    - A plain object used as a dictionary is the list of its own
      properties, in the order of creation, read and written through the
      properties that it inherits from [Object.prototype]. *)

From Stdlib Require Import String Ascii List ZArith NArith Bool Arith Lia.
From Stdlib Require Import Permutation Sorted OrderedTypeEx.
Import ListNotations.

Local Open Scope string_scope.
Local Open Scope Z_scope.
Local Open Scope list_scope.

(** ** JavaScript primitives *)

Inductive Amount : Type :=
| Num (z : Z)
| NaN.

(** The double nearest to the integer [z]: an integer of more than 53 bits
    keeps its 53 leading bits, rounded to the nearest, and to the even one
    of two that are equally near. *)
Definition to_double (z : Z) : Z :=
  let m := Z.abs z in
  let e := Z.log2 m - 52 in
  if e <=? 0 then z
  else
    let q := m / 2 ^ e in
    let r := m mod 2 ^ e in
    let half := 2 ^ (e - 1) in
    let q := if (half <? r) || ((half =? r) && Z.odd q) then q + 1 else q in
    Z.sgn z * (q * 2 ^ e).

(** [a + b] on numbers. *)
Definition js_add (a b : Amount) : Amount :=
  match a, b with
  | Num x, Num y => Num (to_double (x + y))
  | _, _ => NaN
  end.

(** [a - b] on numbers. *)
Definition js_sub (a b : Amount) : Amount :=
  match a, b with
  | Num x, Num y => Num (to_double (x - y))
  | _, _ => NaN
  end.

(** ToBoolean on a number: [0] and [NaN] are falsy. *)
Definition truthy_num (a : Amount) : bool :=
  match a with
  | Num z => negb (z =? 0)
  | NaN => false
  end.

(** ToBoolean on a string: only the empty string is falsy. *)
Definition truthy_str (s : string) : bool :=
  negb (s =? "")%string.

(** [s || ''] on a string. *)
Definition or_empty (s : string) : string :=
  if truthy_str s then s else "".

(** The rank of a byte of UTF-8 text in the order of the UTF-16 code
    units.  The two encodings order the texts alike, except that the code
    points from U+E000 to U+FFFF, whose first byte is 238 or 239, come
    after those of the supplementary planes, whose first byte is 240 to
    244 and whose first code unit is a surrogate.  The bytes 254 and 255,
    which no UTF-8 text has, take the two places left. *)
Definition unit_rank (a : ascii) : ascii :=
  let n := N_of_ascii a in
  if (n =? 238)%N then ascii_of_N 254
  else if (n =? 239)%N then ascii_of_N 255
  else if (n =? 254)%N then ascii_of_N 238
  else if (n =? 255)%N then ascii_of_N 239
  else a.

Fixpoint unit_ranks (s : string) : string :=
  match s with
  | EmptyString => EmptyString
  | String a r => String (unit_rank a) (unit_ranks r)
  end.

(** The comparison of two strings by their code units. *)
Definition compare_units (a b : string) : comparison :=
  String.compare (unit_ranks a) (unit_ranks b).

(** [a >= b] and [a <= b] on strings. *)
Definition str_ge (a b : string) : bool :=
  match compare_units a b with Lt => false | _ => true end.

Definition str_le (a b : string) : bool :=
  match compare_units a b with Gt => false | _ => true end.

(** The type of [a.localeCompare(b)], as a function of [a] and [b]: the
    result is negative, zero or positive.  Which one is decided by the
    host and its locale, not by the program. *)
Definition Collation : Type := string -> string -> Z.

(** White space and line terminators of ECMAScript, recognised on the
    UTF-8 text: one, two and three byte code points. *)
Definition ws1 (a : ascii) : bool :=
  let n := N_of_ascii a in
  ((n =? 9) || (n =? 10) || (n =? 11) || (n =? 12) || (n =? 13) || (n =? 32))%N.

Definition ws2 (a b : ascii) : bool :=
  ((N_of_ascii a =? 194) && (N_of_ascii b =? 160))%N.

Definition ws3 (a b c : ascii) : bool :=
  let x := N_of_ascii a in
  let y := N_of_ascii b in
  let z := N_of_ascii c in
  (((x =? 225) && (y =? 154) && (z =? 128))
   || ((x =? 226) && (y =? 128)
       && (((128 <=? z) && (z <=? 138)) || (z =? 168) || (z =? 169) || (z =? 175)))
   || ((x =? 226) && (y =? 129) && (z =? 159))
   || ((x =? 227) && (y =? 128) && (z =? 128))
   || ((x =? 239) && (y =? 187) && (z =? 191)))%N.

(** Drops the white space at the head of [s].  With [fwd = false] the text
    is read backwards, so the bytes of a code point arrive last first. *)
Fixpoint strip (fwd : bool) (s : string) : string :=
  match s with
  | EmptyString => s
  | String a r1 =>
      if ws1 a then strip fwd r1
      else
        match r1 with
        | EmptyString => s
        | String b r2 =>
            if (if fwd then ws2 a b else ws2 b a) then strip fwd r2
            else
              match r2 with
              | EmptyString => s
              | String c r3 =>
                  if (if fwd then ws3 a b c else ws3 c b a)
                  then strip fwd r3
                  else s
              end
        end
  end.

Definition reverse (s : string) : string :=
  string_of_list_ascii (rev (list_ascii_of_string s)).

(** [s.trim()]. *)
Definition trim (s : string) : string :=
  reverse (strip false (reverse (strip true s))).

(** Value of a digit in the given radix. *)
Definition digit (radix : Z) (a : ascii) : option Z :=
  let n := Z.of_N (N_of_ascii a) in
  let v :=
    if (48 <=? n) && (n <=? 57) then Some (n - 48)
    else if (97 <=? n) && (n <=? 122) then Some (n - 87)
    else if (65 <=? n) && (n <=? 90) then Some (n - 55)
    else None in
  match v with
  | Some d => if d <? radix then Some d else None
  | None => None
  end.

(** Longest prefix of digits, read as a number; [acc] is [None] until a
    digit has been seen. *)
Fixpoint digits (radix : Z) (s : string) (acc : option Z) : option Z :=
  match s with
  | EmptyString => acc
  | String a r =>
      match digit radix a with
      | Some d =>
          digits radix r
            (Some (match acc with Some v => v * radix + d | None => d end))
      | None => acc
      end
  end.

(** [parseInt(str)] with no radix argument; the integer read is rounded to
    a double. *)
Definition parseInt (str : string) : Amount :=
  let s := strip true str in
  let '(sign, s) :=
    match s with
    | String "-" r => (-1, r)
    | String "+" r => (1, r)
    | _ => (1, s)
    end in
  let '(radix, s) :=
    match s with
    | String "0" (String "x" r) => (16, r)
    | String "0" (String "X" r) => (16, r)
    | _ => (10, s)
    end in
  match digits radix s None with
  | Some v => Num (to_double (sign * v))
  | None => NaN
  end.

(** [Array.prototype.sort(comparefn)]: the sort is stable, and [b] moves in
    front of [a] only when [comparefn(a, b) > 0].  The language fixes the
    result when [comparefn] is a consistent comparison of the elements;
    the statements about the order of a sorted list are made for that
    case. *)
Fixpoint sort_insert {A : Type} (comparefn : A -> A -> Z) (x : A) (l : list A)
  : list A :=
  match l with
  | [] => [x]
  | y :: l' =>
      if comparefn x y <=? 0 then x :: y :: l'
      else y :: sort_insert comparefn x l'
  end.

Fixpoint Array_sort {A : Type} (comparefn : A -> A -> Z) (l : list A) : list A :=
  match l with
  | [] => []
  | x :: l' => sort_insert comparefn x (Array_sort comparefn l')
  end.

(** [array.findIndex(p)]: [None] stands for [-1]. *)
Fixpoint findIndex {A : Type} (p : A -> bool) (l : list A) : option nat :=
  match l with
  | [] => None
  | x :: l' =>
      if p x then Some O
      else match findIndex p l' with
           | Some i => Some (S i)
           | None => None
           end
  end.

(** [array[i] = v] for an index inside the array. *)
Fixpoint set_at {A : Type} (i : nat) (v : A) (l : list A) : list A :=
  match l, i with
  | [], _ => []
  | _ :: l', O => v :: l'
  | x :: l', S j => x :: set_at j v l'
  end.

(** [array.includes(s)] on an array of strings. *)
Definition includes (l : list string) (s : string) : bool :=
  existsb (fun x => (x =? s)%string) l.

(** ** Data model *)

(** An expense record as stored under [expenseTracker:records]. *)
Record Expense : Type := mkExpense {
  id : string;
  date : string;
  category : string;
  paymentMethod : string;
  amount : Amount;
  memo : string
}.

(** The object built from the form: all five fields are the texts of the
    form controls. *)
Record ExpenseData : Type := mkExpenseData {
  d_date : string;
  d_category : string;
  d_paymentMethod : string;
  d_amount : string;
  d_memo : string
}.

(** The object stored under [expenseTracker:filters]. *)
Record FilterState : Type := mkFilterState {
  from : string;
  to : string;
  f_category : string;
  f_paymentMethod : string
}.

(** A value of a JSON field or of a spreadsheet cell. *)
Inductive Val : Type :=
| VNull
| VNum (z : Z)
| VStr (s : string).

Definition truthy (v : Val) : bool :=
  match v with
  | VNull => false
  | VNum z => negb (z =? 0)
  | VStr s => truthy_str s
  end.

(** [v || '']. *)
Definition val_or_empty (v : Val) : Val :=
  if truthy v then v else VStr "".

(** [a === b]. *)
Definition strict_eq (a b : Val) : bool :=
  match a, b with
  | VNull, VNull => true
  | VNum x, VNum y => x =? y
  | VStr x, VStr y => (x =? y)%string
  | _, _ => false
  end.

(** A record as it travels in a request or a response body and as the
    endpoint script sees it. *)
Record JsonRecord : Type := mkJsonRecord {
  j_id : Val;
  j_date : Val;
  j_category : Val;
  j_paymentMethod : Val;
  j_amount : Val;
  j_memo : Val
}.

(** [JSON.stringify] of a record; [NaN] is written as [null]. *)
Definition toJSON (r : Expense) : JsonRecord :=
  {| j_id := VStr (id r);
     j_date := VStr (date r);
     j_category := VStr (category r);
     j_paymentMethod := VStr (paymentMethod r);
     j_amount := match amount r with Num z => VNum z | NaN => VNull end;
     j_memo := VStr (memo r) |}.

(** Body of a POST request: the [action] and its argument. *)
Inductive PostBody : Type :=
| ActAdd (record : JsonRecord)
| ActUpdate (record : JsonRecord)
| ActDelete (rid : Val)
| ActSync (records : list JsonRecord)
| ActOther (action : string).

Inductive Request : Type :=
| Get (url : string)
| Post (url : string) (body : PostBody).

(** The JSON body of a response: [success], and [records] for a GET. *)
Record Response : Type := mkResponse {
  success : bool;
  resp_records : list JsonRecord
}.

(** How a [fetch] followed by [response.json()] ends. *)
Inductive Fetched : Type :=
| NetworkError
| NotJson
| Json (data : Response).

Inductive Dialog : Type :=
| Alert (message : string)
| Confirm (message : string).

(** ** State of the page *)

Record World : Type := mkWorld {
  st_records : option (list Expense);
  st_categories : option (list string);
  st_filters : option FilterState;
  GAS_WEB_APP_URL : string;
  SPREADSHEET_ENABLED : bool;
  dialogs : list Dialog;
  console : list string;
  sent : list Request
}.

(** The three persisted collections of the local stores. *)
Definition local_state (w : World)
  : option (list Expense) * option (list string) * option FilterState :=
  (st_records w, st_categories w, st_filters w).

(** Computations on the page: a state monad over [World]. *)
Definition M (A : Type) : Type := World -> A * World.

Definition ret {A : Type} (a : A) : M A := fun w => (a, w).

Definition bind {A B : Type} (m : M A) (k : A -> M B) : M B :=
  fun w => let (a, w') := m w in k a w'.

Declare Scope page_scope.
Delimit Scope page_scope with page.
Notation "x <- m ;; k" := (bind m (fun x => k))
  (at level 61, m at next level, right associativity) : page_scope.
Notation "m ;; k" := (bind m (fun _ => k))
  (at level 61, right associativity) : page_scope.
Local Open Scope page_scope.

Definition gets {A : Type} (f : World -> A) : M A := fun w => (f w, w).

(** [getStorageData(key, defaultValue)], one reader per key. *)
Definition getStorageData {A : Type} (key : World -> option A) (defaultValue : A)
  : M A :=
  fun w => (match key w with Some v => v | None => defaultValue end, w).

(** [setStorageData(key, value)], one writer per key. *)
Definition setStorageData_records (value : list Expense) : M unit :=
  fun w => (tt, mkWorld (Some value) (st_categories w) (st_filters w)
                  (GAS_WEB_APP_URL w) (SPREADSHEET_ENABLED w)
                  (dialogs w) (console w) (sent w)).

Definition setStorageData_categories (value : list string) : M unit :=
  fun w => (tt, mkWorld (st_records w) (Some value) (st_filters w)
                  (GAS_WEB_APP_URL w) (SPREADSHEET_ENABLED w)
                  (dialogs w) (console w) (sent w)).

Definition setStorageData_filters (value : FilterState) : M unit :=
  fun w => (tt, mkWorld (st_records w) (st_categories w) (Some value)
                  (GAS_WEB_APP_URL w) (SPREADSHEET_ENABLED w)
                  (dialogs w) (console w) (sent w)).

Definition alert (message : string) : M unit :=
  fun w => (tt, mkWorld (st_records w) (st_categories w) (st_filters w)
                  (GAS_WEB_APP_URL w) (SPREADSHEET_ENABLED w)
                  (dialogs w ++ [Alert message]) (console w) (sent w)).

(** [confirm(message)]: the box is shown and the user's [answer] returned. *)
Definition confirm (message : string) (answer : bool) : M bool :=
  fun w => (answer, mkWorld (st_records w) (st_categories w) (st_filters w)
                  (GAS_WEB_APP_URL w) (SPREADSHEET_ENABLED w)
                  (dialogs w ++ [Confirm message]) (console w) (sent w)).

Definition console_error (message : string) : M unit :=
  fun w => (tt, mkWorld (st_records w) (st_categories w) (st_filters w)
                  (GAS_WEB_APP_URL w) (SPREADSHEET_ENABLED w)
                  (dialogs w) (console w ++ [message]) (sent w)).

(** [await fetch(...)] and [await response.json()]: the request leaves the
    page and the network decides on [net]. *)
Definition fetch (request : Request) (net : Fetched) : M Fetched :=
  fun w => (net, mkWorld (st_records w) (st_categories w) (st_filters w)
                  (GAS_WEB_APP_URL w) (SPREADSHEET_ENABLED w)
                  (dialogs w) (console w) (sent w ++ [request])).

(** ** Spreadsheet bridge (client side) *)

(** The guard [!SPREADSHEET_ENABLED || !GAS_WEB_APP_URL]. *)
Definition bridge_off : M bool :=
  enabled <- gets SPREADSHEET_ENABLED ;;
  url <- gets GAS_WEB_APP_URL ;;
  ret (negb enabled || negb (truthy_str url)).

(** The common shape of the four POST helpers: guard, one request, the
    [success] flag of the answer, [false] when the [try] block throws. *)
Definition post_to_spreadsheet (body : PostBody) (failure : string)
  (net : Fetched) : M bool :=
  off <- bridge_off ;;
  if off then ret false
  else
    url <- gets GAS_WEB_APP_URL ;;
    answer <- fetch (Post url body) net ;;
    match answer with
    | Json data => ret (success data)
    | NetworkError | NotJson => console_error failure ;; ret false
    end.

Definition fetchRecordsFromSpreadsheet (net : Fetched)
  : M (option (list JsonRecord)) :=
  off <- bridge_off ;;
  if off then ret None
  else
    url <- gets GAS_WEB_APP_URL ;;
    answer <- fetch (Get url) net ;;
    match answer with
    | Json data =>
        if success data then ret (Some (resp_records data)) else ret None
    | NetworkError | NotJson =>
        console_error "Error fetching records from spreadsheet:" ;; ret None
    end.

Definition addRecordToSpreadsheet (record : Expense) (net : Fetched) : M bool :=
  post_to_spreadsheet (ActAdd (toJSON record))
    "Error adding record to spreadsheet:" net.

Definition updateRecordInSpreadsheet (record : Expense) (net : Fetched)
  : M bool :=
  post_to_spreadsheet (ActUpdate (toJSON record))
    "Error updating record in spreadsheet:" net.

Definition deleteRecordFromSpreadsheet (rid : string) (net : Fetched) : M bool :=
  post_to_spreadsheet (ActDelete (VStr rid))
    "Error deleting record from spreadsheet:" net.

Definition syncRecordsToSpreadsheet (records : list Expense) (net : Fetched)
  : M bool :=
  post_to_spreadsheet (ActSync (map toJSON records))
    "Error syncing records to spreadsheet:" net.

(** ** Record store *)

(** [generateId()] draws on the clock and on [Math.random]; the identifier
    drawn is the argument [fresh]. *)
Definition addExpense (expenseData : ExpenseData) (fresh : string)
  (net : Fetched) : M Expense :=
  records <- getStorageData st_records [] ;;
  let newExpense :=
    {| id := fresh;
       date := d_date expenseData;
       category := d_category expenseData;
       paymentMethod := d_paymentMethod expenseData;
       amount := parseInt (d_amount expenseData);
       memo := or_empty (d_memo expenseData) |} in
  let records := records ++ [newExpense] in
  setStorageData_records records ;;
  enabled <- gets SPREADSHEET_ENABLED ;;
  (if enabled then addRecordToSpreadsheet newExpense net else ret false) ;;
  ret newExpense.

(** The result [None] stands for [null]. *)
Definition updateExpense (rid : string) (expenseData : ExpenseData)
  (net : Fetched) : M (option Expense) :=
  records <- getStorageData st_records [] ;;
  match findIndex (fun record => (id record =? rid)%string) records with
  | Some index =>
      match nth_error records index with
      | Some old =>
          let updated :=
            {| id := id old;
               date := d_date expenseData;
               category := d_category expenseData;
               paymentMethod := d_paymentMethod expenseData;
               amount := parseInt (d_amount expenseData);
               memo := or_empty (d_memo expenseData) |} in
          let records := set_at index updated records in
          setStorageData_records records ;;
          enabled <- gets SPREADSHEET_ENABLED ;;
          (if enabled then updateRecordInSpreadsheet updated net
           else ret false) ;;
          ret (Some updated)
      | None => ret None
      end
  | None => ret None
  end.

(** The function has no [return]: its result is [undefined], here [tt]. *)
Definition deleteExpense (rid : string) (net : Fetched) : M unit :=
  records <- getStorageData st_records [] ;;
  let filteredRecords :=
    filter (fun record => negb (id record =? rid)%string) records in
  setStorageData_records filteredRecords ;;
  enabled <- gets SPREADSHEET_ENABLED ;;
  (if enabled then deleteRecordFromSpreadsheet rid net else ret false) ;;
  ret tt.

(** ** Category store *)

Definition addCategory (categoryName : string) : M bool :=
  if negb (truthy_str categoryName) || (trim categoryName =? "")%string then
    alert "カテゴリ名を入力してください。" ;;
    ret false
  else
    categories <- getStorageData st_categories [] ;;
    let trimmedName := trim categoryName in
    if includes categories trimmedName then
      alert "このカテゴリは既に存在します。" ;;
      ret false
    else
      let categories := categories ++ [trimmedName] in
      setStorageData_categories categories ;;
      ret true.

Definition in_use_message (categoryName : string) : string :=
  ("「" ++ categoryName ++ "」は使用中のため削除できません。
使用中のレコードを削除してから再度お試しください。")%string.

(** [answer] is what the user replies if the [confirm] box is shown. *)
Definition deleteCategory (categoryName : string) (answer : bool) : M bool :=
  records <- getStorageData st_records [] ;;
  let isUsed :=
    existsb (fun record => (category record =? categoryName)%string) records in
  proceed <-
    (if isUsed then confirm (in_use_message categoryName) answer
     else ret true) ;;
  if negb proceed then ret false
  else
    categories <- getStorageData st_categories [] ;;
    let filteredCategories :=
      filter (fun cat => negb (cat =? categoryName)%string) categories in
    setStorageData_categories filteredCategories ;;
    ret true.

Definition getCategories : M (list string) :=
  getStorageData st_categories ["食費"; "交通"; "光熱費"; "その他"].

(** ** Filtering *)

Definition default_filters : FilterState :=
  {| from := ""; to := ""; f_category := "ALL"; f_paymentMethod := "ALL" |}.

(** The comparison function handed to [sort]: newest first. *)
Definition newest_first (localeCompare : Collation) (a b : Expense) : Z :=
  if negb (date a =? date b)%string then localeCompare (date b) (date a)
  else localeCompare (id b) (id a).

Definition getFilteredRecords (localeCompare : Collation)
  : M (list Expense) :=
  records <- getStorageData st_records [] ;;
  filters <- getStorageData st_filters default_filters ;;
  let filtered := records in
  let filtered :=
    if truthy_str (from filters)
    then filter (fun record => str_ge (date record) (from filters)) filtered
    else filtered in
  let filtered :=
    if truthy_str (to filters)
    then filter (fun record => str_le (date record) (to filters)) filtered
    else filtered in
  let filtered :=
    if negb (f_category filters =? "ALL")%string
    then filter (fun record => (category record =? f_category filters)%string)
           filtered
    else filtered in
  let filtered :=
    if negb (f_paymentMethod filters =? "ALL")%string
    then filter
           (fun record =>
              (paymentMethod record =? f_paymentMethod filters)%string)
           filtered
    else filtered in
  ret (Array_sort (newest_first localeCompare) filtered).

Definition saveFilters (filterData : FilterState) : M unit :=
  setStorageData_filters filterData.

(** ** Aggregation *)

Definition calculateTotal (records : list Expense) : Amount :=
  fold_left (fun sum record => js_add sum (amount record)) records (Num 0).

(** A value held by a property of a summary object: a number, or a
    string.  The strings are what [+=] makes of a value inherited from
    [Object.prototype], the source text of a built-in function or
    [[object Object]] with the amounts appended; their text is left
    open. *)
Inductive Value : Type :=
| Number (n : Amount)
| Text.

(** The summary object: its own properties, in the order of creation. *)
Definition Summary : Type := list (string * Value).

(** The methods that every plain object inherits from the
    [Object.prototype] of ECMAScript; [__proto__], an accessor, is
    apart. *)
Definition prototype_methods : list string :=
  ["constructor"; "hasOwnProperty"; "isPrototypeOf"; "propertyIsEnumerable";
   "toLocaleString"; "toString"; "valueOf";
   "__defineGetter__"; "__defineSetter__";
   "__lookupGetter__"; "__lookupSetter__"].

(** What [summary[key]] finds: an own property, an inherited method,
    [Object.prototype] itself for [__proto__], or nothing. *)
Inductive Lookup : Type :=
| Own (v : Value)
| Method
| Prototype
| Undefined.

(** The own property of the name [key]. *)
Fixpoint own (summary : Summary) (key : string) : option Value :=
  match summary with
  | [] => None
  | (k, v) :: rest => if (k =? key)%string then Some v else own rest key
  end.

(** [summary[key]]. *)
Definition prop_get (summary : Summary) (key : string) : Lookup :=
  match own summary key with
  | Some v => Own v
  | None =>
      if (key =? "__proto__")%string then Prototype
      else if includes prototype_methods key then Method
      else Undefined
  end.

(** Definition of the own property [key]: an existing property keeps its
    place, a new one goes last. *)
Fixpoint put (summary : Summary) (key : string) (v : Value) : Summary :=
  match summary with
  | [] => [(key, v)]
  | (k, v') :: rest =>
      if (k =? key)%string then (k, v) :: rest
      else (k, v') :: put rest key v
  end.

(** [summary[key] = v] for a number or a string [v].  The setter of
    [__proto__] ignores such a value; any other name becomes or stays an
    own property. *)
Definition prop_set (summary : Summary) (key : string) (v : Value) : Summary :=
  if (key =? "__proto__")%string then summary else put summary key v.

(** [!summary[key]]: a function, an object and the strings held here are
    truthy. *)
Definition prop_falsy (summary : Summary) (key : string) : bool :=
  match prop_get summary key with
  | Own (Number n) => negb (truthy_num n)
  | Own Text | Method | Prototype => false
  | Undefined => true
  end.

(** [current + n] for a number [n]: a sum of numbers, or a concatenation
    when [current] is a string, a function or an object; [undefined + n]
    is [NaN]. *)
Definition js_plus (current : Lookup) (n : Amount) : Value :=
  match current with
  | Own (Number m) => Number (js_add m n)
  | Own Text | Method | Prototype => Text
  | Undefined => Number NaN
  end.

(** [summary[key] += n]. *)
Definition prop_add (summary : Summary) (key : string) (n : Amount) : Summary :=
  prop_set summary key (js_plus (prop_get summary key) n).

(** One turn of the [forEach] loop, for the property name [key]. *)
Definition tally (key : string) (n : Amount) (summary : Summary) : Summary :=
  let summary :=
    if prop_falsy summary key then prop_set summary key (Number (Num 0))
    else summary in
  prop_add summary key n.

Definition calculateCategorySummary (records : list Expense) : Summary :=
  fold_left
    (fun summary record => tally (category record) (amount record) summary)
    records [].

Definition calculatePaymentMethodSummary (records : list Expense) : Summary :=
  fold_left
    (fun summary record => tally (paymentMethod record) (amount record) summary)
    records [].

(** All characters are decimal digits; the value read. *)
Fixpoint decimal (s : string) (acc : Z) : option Z :=
  match s with
  | EmptyString => Some acc
  | String a r =>
      match digit 10 a with
      | Some d => decimal r (acc * 10 + d)
      | None => None
      end
  end.

(** The property name is an array index: a canonical numeral below
    2^32 - 1. *)
Definition array_index (key : string) : option Z :=
  match key with
  | EmptyString => None
  | String "0" EmptyString => Some 0
  | String "0" _ => None
  | _ =>
      match decimal key 0 with
      | Some v => if v <=? 4294967294 then Some v else None
      | None => None
      end
  end.

Definition is_index (entry : string * Value) : bool :=
  match array_index (fst entry) with Some _ => true | None => false end.

Definition index_order (a b : string * Value) : Z :=
  match array_index (fst a), array_index (fst b) with
  | Some x, Some y => x - y
  | _, _ => 0
  end.

(** [Object.entries(summary)]: array indices in ascending order, then the
    other names in the order of creation. *)
Definition Object_entries (summary : Summary) : list (string * Value) :=
  Array_sort index_order (filter is_index summary)
  ++ filter (fun entry => negb (is_index entry)) summary.

(** What [sort] makes of the number returned by a comparison function:
    [NaN] counts as [0]. *)
Definition order_of (v : Amount) : Z :=
  match v with Num z => z | NaN => 0 end.

(** ToNumber on a value of a summary: the strings held there do not read
    as numbers. *)
Definition to_number (v : Value) : Amount :=
  match v with
  | Number n => n
  | Text => NaN
  end.

(** [Object.entries(summary).sort((a, b) => b[1] - a[1])], the rows of a
    summary in the order [renderSummary] shows them. *)
Definition summary_rows (summary : Summary) : list (string * Value) :=
  Array_sort
    (fun a b => order_of (js_sub (to_number (snd b)) (to_number (snd a))))
    (Object_entries summary).

(** The two lists of rows drawn by [renderSummary]. *)
Definition renderSummary (localeCompare : Collation)
  : M (list (string * Value) * list (string * Value)) :=
  records <- getFilteredRecords localeCompare ;;
  let categorySummary := calculateCategorySummary records in
  let paymentSummary := calculatePaymentMethodSummary records in
  ret (summary_rows categorySummary, summary_rows paymentSummary).

(** ** The endpoint script (Google Apps Script)

    The spreadsheet service is idealised: a sheet is the list of its rows,
    a cell holds the value last written to it, and a cell without content
    reads as the empty string.  The service itself never fails. *)

Module Gas.

Definition Row : Type := list Val.
Definition Sheet : Type := list Row.

Definition empty_cell : Val := VStr "".

Definition is_empty (v : Val) : bool :=
  match v with
  | VStr s => (s =? "")%string
  | _ => false
  end.

Definition blank_row (row : Row) : bool := forallb is_empty row.

(** [sheet.getLastRow()]: the position of the last row with content. *)
Fixpoint getLastRow (sheet : Sheet) : nat :=
  match sheet with
  | [] => O
  | row :: rest =>
      match getLastRow rest with
      | O => if blank_row row then O else 1%nat
      | S n => S (S n)
      end
  end.

(** [data[i][k]] in the rectangle returned by [getValues]. *)
Definition cell (row : Row) (k : nat) : Val := nth k row empty_cell.

(** [sheet.getDataRange().getValues()]: the rows up to the last one with
    content; a sheet without content yields one row of one empty cell. *)
Definition getValues (sheet : Sheet) : list Row :=
  match getLastRow sheet with
  | O => [[empty_cell]]
  | n => firstn n sheet
  end.

(** Writing [values] over the rows [old], from their first column on. *)
Fixpoint write_rows (values : list Row) (old : list Row) : list Row :=
  match values with
  | [] => old
  | v :: vs =>
      match old with
      | [] => v :: write_rows vs []
      | o :: os => (v ++ skipn (length v) o) :: write_rows vs os
      end
  end.

(** [sheet.getRange(row, 1, values.length, 6).setValues(values)]. *)
Definition setValues (sheet : Sheet) (row : nat) (values : list Row) : Sheet :=
  let above := (row - 1)%nat in
  firstn above sheet ++ repeat [] (above - length sheet)
  ++ write_rows values (skipn above sheet).

(** [sheet.deleteRows(rowPosition, howMany)]. *)
Definition deleteRows (sheet : Sheet) (rowPosition howMany : nat) : Sheet :=
  firstn (rowPosition - 1) sheet ++ skipn (rowPosition - 1 + howMany) sheet.

(** [sheet.deleteRow(rowPosition)]. *)
Definition deleteRow (sheet : Sheet) (rowPosition : nat) : Sheet :=
  deleteRows sheet rowPosition 1.

Definition header : Row :=
  [VStr "id"; VStr "date"; VStr "category"; VStr "paymentMethod";
   VStr "amount"; VStr "memo"].

(** Only the values of the header row are kept; fonts and colours are not
    part of the sheet here. *)
Definition setupSheet (sheet : Sheet) : Sheet :=
  setValues sheet 1 [header].

(** The six cells written for a record. *)
Definition row_of (record : JsonRecord) : Row :=
  [j_id record; j_date record; j_category record; j_paymentMethod record;
   j_amount record; val_or_empty (j_memo record)].

(** The record read from a row. *)
Definition record_of (row : Row) : JsonRecord :=
  {| j_id := cell row 0;
     j_date := cell row 1;
     j_category := cell row 2;
     j_paymentMethod := cell row 3;
     j_amount := cell row 4;
     j_memo := val_or_empty (cell row 5) |}.

Definition doGet (sheet : Sheet) : Response :=
  let data := getValues sheet in
  let records :=
    map record_of (filter (fun row => truthy (cell row 0)) (skipn 1 data)) in
  {| success := true; resp_records := records |}.

Definition addRecord (sheet : Sheet) (record : JsonRecord) : Sheet :=
  let lastRow := getLastRow sheet in
  let newRow := (lastRow + 1)%nat in
  setValues sheet newRow [row_of record].

(** The position in [data], counted from the second row, of the first row
    whose first cell is [rid]. *)
Definition find_row (sheet : Sheet) (rid : Val) : option nat :=
  findIndex (fun row => strict_eq (cell row 0) rid) (skipn 1 (getValues sheet)).

(** [None] stands for the exception [Record not found]. *)
Definition updateRecord (sheet : Sheet) (record : JsonRecord) : option Sheet :=
  match find_row sheet (j_id record) with
  | Some i => Some (setValues sheet (i + 2) [row_of record])
  | None => None
  end.

Definition deleteRecord (sheet : Sheet) (rid : Val) : option Sheet :=
  match find_row sheet rid with
  | Some i => Some (deleteRow sheet (i + 2))
  | None => None
  end.

(** The sheet after the call and the count reported in [synced]. *)
Definition syncRecords (sheet : Sheet) (records : list JsonRecord)
  : Sheet * nat :=
  let lastRow := getLastRow sheet in
  let sheet :=
    if (1 <? lastRow)%nat then deleteRows sheet 2 (lastRow - 1) else sheet in
  let sheet := if (lastRow =? 0)%nat then setupSheet sheet else sheet in
  let sheet :=
    if (0 <? length records)%nat
    then setValues sheet 2 (map row_of records)
    else sheet in
  (sheet, length records).

Definition answer (ok : bool) : Response :=
  {| success := ok; resp_records := [] |}.

Definition doPost (sheet : Sheet) (body : PostBody) : Sheet * Response :=
  match body with
  | ActAdd record => (addRecord sheet record, answer true)
  | ActUpdate record =>
      match updateRecord sheet record with
      | Some sheet' => (sheet', answer true)
      | None => (sheet, answer false)
      end
  | ActDelete rid =>
      match deleteRecord sheet rid with
      | Some sheet' => (sheet', answer true)
      | None => (sheet, answer false)
      end
  | ActSync records => (fst (syncRecords sheet records), answer true)
  | ActOther _ => (sheet, answer false)
  end.

(** The web application: what a request does to the sheet behind the
    endpoint, and the body of the answer. *)
Definition serve (sheet : Sheet) (request : Request) : Sheet * Response :=
  match request with
  | Get _ => (sheet, doGet sheet)
  | Post _ body => doPost sheet body
  end.

End Gas.

(** ** Client and endpoint together *)

(** [syncRecordsToSpreadsheet(records)] and then
    [fetchRecordsFromSpreadsheet()], both answered by the endpoint whose
    sheet is [sheet] at the start.  The result is that of the second
    call. *)
Definition sync_then_fetch (records : list Expense) (sheet : Gas.Sheet)
  : M (option (list JsonRecord)) :=
  url <- gets GAS_WEB_APP_URL ;;
  let '(sheet, pushed) :=
    Gas.serve sheet (Post url (ActSync (map toJSON records))) in
  syncRecordsToSpreadsheet records (Json pushed) ;;
  let '(_, fetched) := Gas.serve sheet (Get url) in
  fetchRecordsFromSpreadsheet (Json fetched).

(** ** Buttons and forms *)

(** The synchronisation button. *)
Definition syncToSpreadsheet (net : Fetched) : M unit :=
  off <- bridge_off ;;
  if off then
    alert "スプレッドシート連携が有効になっていません。設定を確認してください。"
  else
    records <- getStorageData st_records [] ;;
    ok <- syncRecordsToSpreadsheet records net ;;
    if ok then alert "スプレッドシートに同期しました。"
    else alert "スプレッドシートへの同期に失敗しました。".

(** The [submit] handler of the form for a new expense, without the
    redrawing that follows. *)
Definition submitExpense (expenseData : ExpenseData) (fresh : string)
  (net : Fetched) : M unit :=
  if negb (truthy_str (d_date expenseData))
     || negb (truthy_str (d_category expenseData))
     || negb (truthy_str (d_paymentMethod expenseData))
     || negb (truthy_str (d_amount expenseData))
  then alert "必須項目を入力してください。"
  else addExpense expenseData fresh net ;; ret tt.

(** The [click] handler of the delete button of a record. *)
Definition clickDeleteExpense (rid : string) (answer : bool) (net : Fetched)
  : M unit :=
  go <- confirm "この支出を削除しますか？" answer ;;
  if go then deleteExpense rid net else ret tt.

(** The [click] handler of the delete button of a category: [answer] is
    the reply to its own question, [override] the reply to the question of
    [deleteCategory], should it be asked. *)
Definition clickDeleteCategory (categoryName : string) (answer override : bool)
  : M unit :=
  go <- confirm ("「" ++ categoryName ++ "」を削除しますか？")%string answer ;;
  if go then deleteCategory categoryName override ;; ret tt else ret tt.

(** The [click] handler of the button that resets the filter. *)
Definition clickResetFilter : M unit :=
  saveFilters default_filters.

(** [openEditModal(id)]: the record whose fields are copied into the edit
    form, [None] when the alert is shown instead. *)
Definition openEditModal (rid : string) : M (option Expense) :=
  records <- getStorageData st_records [] ;;
  match find (fun r => (id r =? rid)%string) records with
  | Some record => ret (Some record)
  | None => alert "レコードが見つかりません。" ;; ret None
  end.

(** ** Start of the page and settings

    The two settings of the bridge are kept under their own keys of
    [localStorage], beside the state of the page. *)

Record Browser : Type := mkBrowser {
  page_state : World;
  st_gasUrl : option string;
  st_spreadsheetEnabled : option bool
}.

Definition starter_categories : list string :=
  ["食費"; "交通"; "光熱費"; "その他"].

(** The assignments to the two global variables. *)
Definition set_globals (url : string) (enabled : bool) (w : World) : World :=
  mkWorld (st_records w) (st_categories w) (st_filters w) url enabled
    (dialogs w) (console w) (sent w).

(** The first three steps of [initializeData]: each collection is read
    with its default and written back. *)
Definition initializeStores : M unit :=
  categories <- getStorageData st_categories starter_categories ;;
  setStorageData_categories categories ;;
  records <- getStorageData st_records [] ;;
  setStorageData_records records ;;
  filters <- getStorageData st_filters default_filters ;;
  setStorageData_filters filters.

Definition initializeData (b : Browser) : Browser :=
  let w := snd (initializeStores (page_state b)) in
  let url := match st_gasUrl b with Some u => u | None => "" end in
  let enabled :=
    match st_spreadsheetEnabled b with Some e => e | None => false end in
  mkBrowser (set_globals url enabled w) (st_gasUrl b) (st_spreadsheetEnabled b).

(** [saveSpreadsheetSettings()]: the arguments are the text of the URL
    field and the state of the check box, [None] for a control that is not
    in the document. *)
Definition saveSpreadsheetSettings (gasUrlInput : option string)
  (spreadsheetEnabledCheckbox : option bool) (b : Browser) : Browser :=
  match gasUrlInput, spreadsheetEnabledCheckbox with
  | Some value, Some checked =>
      let url := trim value in
      let w := set_globals url checked (page_state b) in
      mkBrowser (snd (alert "設定を保存しました。" w)) (Some url) (Some checked)
  | _, _ => b
  end.

(** [localStorage.removeItem] for the three collections. *)
Definition remove_collections (w : World) : World :=
  mkWorld None None None (GAS_WEB_APP_URL w) (SPREADSHEET_ENABLED w)
    (dialogs w) (console w) (sent w).

(** The [click] handler of the button that resets all data. *)
Definition clickResetAll (answer : bool) (b : Browser) : Browser :=
  let '(go, w) :=
    confirm "すべてのデータを削除しますか？この操作は取り消せません。" answer
      (page_state b) in
  let b := mkBrowser w (st_gasUrl b) (st_spreadsheetEnabled b) in
  if go
  then initializeData
         (mkBrowser (remove_collections w) (st_gasUrl b)
            (st_spreadsheetEnabled b))
  else b.

(** ** The script behind the endpoint: its spreadsheet and properties *)

Module Script.

(** A value kept by [PropertiesService]: a text that is not JSON, such as
    the identifier of a spreadsheet, or the JSON text of a list of names,
    represented by the list. *)
Inductive Property : Type :=
| Text (s : string)
| Names (l : list string).

(** The script properties and the spreadsheets the script can open, each
    with the content of its active sheet. *)
Record State : Type := mkState {
  properties : list (string * Property);
  drive : list (string * Gas.Sheet)
}.

Fixpoint lookup {A : Type} (key : string) (l : list (string * A)) : option A :=
  match l with
  | [] => None
  | (k, v) :: rest => if (k =? key)%string then Some v else lookup key rest
  end.

Fixpoint store {A : Type} (key : string) (v : A) (l : list (string * A))
  : list (string * A) :=
  match l with
  | [] => [(key, v)]
  | (k, v') :: rest =>
      if (k =? key)%string then (k, v) :: rest else (k, v') :: store key v rest
  end.

Definition getProperty (key : string) (st : State) : option Property :=
  lookup key (properties st).

Definition setProperty (key : string) (v : Property) (st : State) : State :=
  mkState (store key v (properties st)) (drive st).

(** [getSpreadsheet()]: the identifier of the spreadsheet the script works
    on and the state after the call.  [created] is the identifier that
    [SpreadsheetApp.create] gives to a new spreadsheet. *)
Definition getSpreadsheet (created : string) (st : State) : string * State :=
  let existing :=
    match getProperty "SPREADSHEET_ID" st with
    | Some (Text spreadsheetId) =>
        if truthy_str spreadsheetId
        then match lookup spreadsheetId (drive st) with
             | Some _ => Some spreadsheetId
             | None => None
             end
        else None
    | _ => None
    end in
  match existing with
  | Some spreadsheetId => (spreadsheetId, st)
  | None =>
      let sheet := Gas.setupSheet [] in
      let st := mkState (properties st) (store created sheet (drive st)) in
      (created, setProperty "SPREADSHEET_ID" (Text created) st)
  end.

(** The active sheet of a spreadsheet; a sheet without content for an
    identifier that is not there. *)
Definition sheet_of (spreadsheetId : string) (st : State) : Gas.Sheet :=
  match lookup spreadsheetId (drive st) with
  | Some sheet => sheet
  | None => []
  end.

(** The entry points, with the sheet obtained from [getSpreadsheet]. *)
Definition doGet (created : string) (st : State) : Response * State :=
  let '(sid, st) := getSpreadsheet created st in
  (Gas.doGet (sheet_of sid st), st).

Definition doPost (created : string) (body : PostBody) (st : State)
  : Response * State :=
  let '(sid, st) := getSpreadsheet created st in
  let '(sheet, response) := Gas.doPost (sheet_of sid st) body in
  (response, mkState (properties st) (store sid sheet (drive st))).

(** [getStorageData(key, defaultValue)] of the script, for a list of
    names: a property that is missing or is not such a list gives the
    default. *)
Definition getStorageData (key : string) (defaultValue : list string)
  (st : State) : list string :=
  match getProperty key st with
  | Some (Names l) => l
  | _ => defaultValue
  end.

(** The list in the answer of [getCategories()]. *)
Definition getCategories (st : State) : list string :=
  getStorageData "expenseTracker:categories"
    ["食費"; "交通"; "光熱費"; "その他"] st.

(** [saveCategories(e)] for a body that carries the list [categories]. *)
Definition saveCategories (categories : list string) (st : State) : State :=
  setProperty "categories" (Names categories) st.

End Script.

(** ** Views used in the statements *)

(** The record list as every operation reads it:
    [getStorageData('expenseTracker:records', [])]. *)
Definition records_of (w : World) : list Expense :=
  fst (getStorageData st_records [] w).

(** The category list as the category store reads it:
    [getStorageData('expenseTracker:categories', [])]. *)
Definition categories_of (w : World) : list string :=
  fst (getStorageData st_categories [] w).

(** The active filter as [getFilteredRecords] reads it. *)
Definition filters_of (w : World) : FilterState :=
  fst (getStorageData st_filters default_filters w).

(** What the caller and the local stores see of a run: the value returned
    and the three persisted collections. *)
Definition observed {A : Type} (run : A * World)
  : A * (option (list Expense) * option (list string) * option FilterState) :=
  (fst run, local_state (snd run)).

(** The record that [updateExpense] puts in the place of [old]. *)
Definition replaced (old : Expense) (x : ExpenseData) : Expense :=
  {| id := id old;
     date := d_date x;
     category := d_category x;
     paymentMethod := d_paymentMethod x;
     amount := parseInt (d_amount x);
     memo := d_memo x |}.

(** The filter of the specification, as one test on a record: the date is
    not before [from] and not after [to], when these are given, and the
    category and the payment method are those of the filter, unless the
    filter says [ALL]. *)
Definition passes (f : FilterState) (r : Expense) : bool :=
  ((from f =? "")%string || str_ge (date r) (from f))
  && ((to f =? "")%string || str_le (date r) (to f))
  && ((f_category f =? "ALL")%string || (category r =? f_category f)%string)
  && ((f_paymentMethod f =? "ALL")%string
      || (paymentMethod r =? f_paymentMethod f)%string).

(** [a] may stand before [b] in the lexicographic order of the
    specification: its date is later, or the dates are the same and its
    identifier is not smaller, both in the order of the code units. *)
Definition newer_or_same (a b : Expense) : Prop :=
  (date a <> date b /\ str_ge (date a) (date b) = true)
  \/ (date a = date b /\ str_ge (id a) (id b) = true).

(** [a] may stand before [b] in the order of the host: the date of [b]
    does not come after the date of [a] in its collation, or the dates
    are the same and the identifier of [b] does not come after the one of
    [a]. *)
Definition not_after (localeCompare : Collation) (a b : Expense) : Prop :=
  (date a <> date b /\ localeCompare (date b) (date a) <= 0)
  \/ (date a = date b /\ localeCompare (id b) (id a) <= 0).

(** What the language asks of [localeCompare]: a consistent comparison
    that orders all strings. *)
Definition consistent (localeCompare : Collation) : Prop :=
  (forall a, localeCompare a a = 0)
  /\ (forall a b, localeCompare a b < 0 <-> 0 < localeCompare b a)
  /\ (forall a b c,
         localeCompare a b <= 0 -> localeCompare b c <= 0 ->
         localeCompare a c <= 0).

(** The collation gives [0] for no two different texts of the list, as
    it may for two spellings of one accented letter. *)
Definition tells_apart (localeCompare : Collation) (texts : list string)
  : Prop :=
  forall a b, In a texts -> In b texts -> localeCompare a b = 0 -> a = b.

(** The collation orders the texts of the list as their code units do. *)
Definition agrees (localeCompare : Collation) (texts : list string) : Prop :=
  forall a b, In a texts -> In b texts ->
    (localeCompare a b <= 0 <-> str_ge b a = true).

(** A host that compares the code units. *)
Definition by_code_units : Collation :=
  fun a b =>
    match compare_units a b with
    | Lt => -1
    | Eq => 0
    | Gt => 1
    end.

(** A host that, as the collations of the browsers do for the letters of
    ASCII, compares without regard to case first and puts the lower-case
    letter first in a tie. *)
Definition lower_case (a : ascii) : ascii :=
  let n := N_of_ascii a in
  if ((65 <=? n) && (n <=? 90))%N then ascii_of_N (n + 32) else a.

Fixpoint fold_case (s : string) : string :=
  match s with
  | EmptyString => EmptyString
  | String a r => String (lower_case a) (fold_case r)
  end.

Definition letters_first : Collation :=
  fun a b =>
    match String.compare (fold_case a) (fold_case b) with
    | Lt => -1
    | Gt => 1
    | Eq =>
        match String.compare b a with
        | Lt => -1
        | Eq => 0
        | Gt => 1
        end
    end.

(** The amount of a record as an integer. *)
Definition amount_of (r : Expense) : Z :=
  match amount r with Num z => z | NaN => 0 end.

(** The sum of the amounts of the records. *)
Definition total_of (records : list Expense) : Z :=
  fold_right (fun r acc => amount_of r + acc) 0 records.

(** The sum of the amounts of the records of category [c]. *)
Definition total_in (c : string) (records : list Expense) : Z :=
  total_of (filter (fun r => (category r =? c)%string) records).

(** The row [a] shows an amount that is not below the one of row [b]. *)
Definition not_below (a b : string * Value) : Prop :=
  match snd a, snd b with
  | Number (Num x), Number (Num y) => y <= x
  | _, _ => False
  end.

(** The integer held by an own property of the summary; [0] when there is
    none. *)
Definition held (summary : Summary) (key : string) : Z :=
  match own summary key with
  | Some (Number (Num v)) => v
  | _ => 0
  end.

(** The name is a property of [Object.prototype]. *)
Definition inherited (key : string) : bool :=
  (key =? "__proto__")%string || includes prototype_methods key.

(** No record has, under [key], the name of a property of
    [Object.prototype]. *)
Definition own_names (key : Expense -> string) (records : list Expense)
  : Prop :=
  Forall (fun r => inherited (key r) = false) records.

(** The sum of the absolute values of the amounts. *)
Definition magnitude (records : list Expense) : Z :=
  fold_right (fun r acc => Z.abs (amount_of r) + acc) 0 records.

(** The amounts are integers whose absolute values add up to less than
    2^53, so that every sum of some of them is a double. *)
Definition safe_amounts (records : list Expense) : Prop :=
  Forall (fun r => amount r <> NaN) records /\ magnitude records < 2 ^ 53.

(** Every property of the summary holds an integer. *)
Definition numeric (summary : Summary) : Prop :=
  Forall (fun entry : string * Value => exists z, snd entry = Number (Num z))
    summary.

(** The sum of the absolute values of the integers held by a summary. *)
Definition weight (summary : Summary) : Z :=
  fold_right
    (fun (entry : string * Value) acc =>
       Z.abs (order_of (to_number (snd entry))) + acc)
    0 summary.

(** The summary with the amount of [r] added, without rounding, to the
    integer held under the name [key r]. *)
Definition entered (key : Expense -> string) (summary : Summary)
  (r : Expense) : Summary :=
  put summary (key r) (Number (Num (held summary (key r) + amount_of r))).

(** The page with the bridge switched off. *)
Definition offline (w : World) : World :=
  mkWorld (st_records w) (st_categories w) (st_filters w)
    (GAS_WEB_APP_URL w) false (dialogs w) (console w) (sent w).

(** ** Sample data *)

Definition sample (rid day cat : string) (yen : Z) : Expense :=
  {| id := rid; date := day; category := cat; paymentMethod := "現金";
     amount := Num yen; memo := "" |}.

Definition lunch : Expense := sample "m1a" "2024-01-01" "食費" 100.
Definition train : Expense := sample "m1b" "2024-01-02" "交通" 30.
Definition supper : Expense := sample "m1c" "2024-01-03" "食費" 50.
Definition power : Expense := sample "m1d" "2024-01-04" "光熱費" 4200.
Definition gift : Expense := sample "m1e" "2024-01-05" "その他" 800.

Definition january : FilterState :=
  {| from := "2024-01-02"; to := "2024-01-04";
     f_category := "ALL"; f_paymentMethod := "ALL" |}.

(** A page with the given records, the starter categories and the bridge
    configured. *)
Definition page (records : list Expense) (filters : FilterState)
  (enabled : bool) : World :=
  mkWorld (Some records) (Some ["食費"; "交通"; "光熱費"; "その他"])
    (Some filters) "https://script.example/exec" enabled [] [] [].

Definition edited : ExpenseData :=
  {| d_date := "2024-01-06"; d_category := "交通";
     d_paymentMethod := "カード"; d_amount := "45"; d_memo := "bus" |}.

(** Two stored records with one identifier. *)
Definition twin_page : World :=
  page [sample "m1a" "2024-01-01" "食費" 100;
        sample "m1a" "2024-01-02" "交通" 30] default_filters false.

(** A record without identifier. *)
Definition nameless : Expense := sample "" "2024-01-01" "食費" 100.

(** Three records, the bridge switched on. *)
Definition trio : World := page [lunch; train; supper] default_filters true.

(** Five records dated from the first to the fifth of January, and the
    filter from the second to the fourth. *)
Definition week : World :=
  page [lunch; train; supper; power; gift] january false.

(** A sheet with the header row and two rows of data, the first of them
    without identifier. *)
Definition stale_sheet : Gas.Sheet :=
  [Gas.header; Gas.row_of (toJSON nameless); Gas.row_of (toJSON train)].

(** The bridge is switched on and has an endpoint. *)
Definition bridge_on (w : World) : Prop :=
  SPREADSHEET_ENABLED w = true /\ GAS_WEB_APP_URL w <> "".

(** What a POST helper returns for an outcome of its request. *)
Definition acknowledged (net : Fetched) : bool :=
  match net with
  | Json data => success data
  | NetworkError | NotJson => false
  end.

(** The number of lines a helper writes to the console for an outcome. *)
Definition complaints (net : Fetched) : nat :=
  match net with
  | Json _ => 0%nat
  | NetworkError | NotJson => 1%nat
  end.

(** The record that [addExpense] builds from the form and the identifier
    drawn. *)
Definition created (x : ExpenseData) (fresh : string) : Expense :=
  {| id := fresh;
     date := d_date x;
     category := d_category x;
     paymentMethod := d_paymentMethod x;
     amount := parseInt (d_amount x);
     memo := d_memo x |}.

(** [addCategory] refuses the name on this page. *)
Definition refused (name : string) (w : World) : bool :=
  negb (truthy_str name) || (trim name =? "")%string
  || includes (categories_of w) (trim name).

(** Some stored record has the category. *)
Definition in_use (name : string) (w : World) : bool :=
  existsb (fun record => (category record =? name)%string) (records_of w).

(** The page as a reload starts it: the two global variables have their
    initial values, nothing has been shown, logged or sent, and
    [localStorage] is what it was. *)
Definition restart (b : Browser) : Browser :=
  mkBrowser
    (mkWorld (st_records (page_state b)) (st_categories (page_state b))
       (st_filters (page_state b)) "" false [] [] [])
    (st_gasUrl b) (st_spreadsheetEnabled b).

(** The form leaves none of the three texts of a record empty. *)
Definition filled (r : Expense) : Prop :=
  date r <> "" /\ category r <> "" /\ paymentMethod r <> "".

(** The sum of the amounts of the records whose [key] is [c]. *)
Definition total_by (key : Expense -> string) (c : string)
  (records : list Expense) : Z :=
  total_of (filter (fun r => (key r =? c)%string) records).

(** The sum of the amounts shown in the rows of a summary. *)
Definition shown_total (rows : list (string * Value)) : Z :=
  fold_right (fun row acc => order_of (to_number (snd row)) + acc) 0 rows.

(** The names in the order in which they first occur, after those already
    [seen]. *)
Fixpoint first_seen (names seen : list string) : list string :=
  match names with
  | [] => seen
  | n :: rest =>
      first_seen rest (if includes seen n then seen else seen ++ [n])
  end.

(** The row shows the amount [v]. *)
Definition shows (v : Z) (row : string * Value) : bool :=
  match snd row with
  | Number (Num z) => z =? v
  | _ => false
  end.

(** The list without its first element that satisfies [p]. *)
Fixpoint drop_first {A : Type} (p : A -> bool) (l : list A) : list A :=
  match l with
  | [] => []
  | a :: rest => if p a then rest else a :: drop_first p rest
  end.

(** The list with [b] in the place of its first element that satisfies
    [p]. *)
Fixpoint replace_first {A : Type} (p : A -> bool) (b : A) (l : list A)
  : list A :=
  match l with
  | [] => []
  | a :: rest => if p a then b :: rest else a :: replace_first p b rest
  end.

(** The records that a GET would return for the sheet. *)
Definition remote_records (sheet : Gas.Sheet) : list JsonRecord :=
  resp_records (Gas.doGet sheet).

(** The record carries the identifier [rid]. *)
Definition has_id (rid : Val) (record : JsonRecord) : bool :=
  strict_eq (j_id record) rid.

(** The record as [doGet] reads it back from the row written for it: the
    memo is a string in any case. *)
Definition as_stored (record : JsonRecord) : JsonRecord :=
  Gas.record_of (Gas.row_of record).

(** The endpoint has what the page has. *)
Definition mirrors (sheet : Gas.Sheet) (w : World) : Prop :=
  remote_records sheet = map toJSON (records_of w).

(** The requests the page sent between the states [w] and [w']. *)
Definition requests_between (w w' : World) : list Request :=
  skipn (length (sent w)) (sent w').

(** The sheet after the endpoint has served the requests in turn. *)
Definition delivered (sheet : Gas.Sheet) (requests : list Request)
  : Gas.Sheet :=
  fold_left (fun sheet request => fst (Gas.serve sheet request))
    requests sheet.

(** Two records, the bridge switched on, and the sheet that holds the
    same two. *)
Definition duo : World := page [lunch; train] default_filters true.

Definition ledger : Gas.Sheet :=
  [Gas.header; Gas.row_of (toJSON lunch); Gas.row_of (toJSON train)].

(** A script that has never run. *)
Definition first_run : Script.State := Script.mkState [] [].

(** Two forms: one complete, one without amount. *)
Definition snack : ExpenseData :=
  {| d_date := "2024-01-07"; d_category := "食費";
     d_paymentMethod := "現金"; d_amount := "120"; d_memo := "" |}.

Definition no_amount : ExpenseData :=
  {| d_date := "2024-01-07"; d_category := "食費";
     d_paymentMethod := "現金"; d_amount := ""; d_memo := "" |}.

(** A filter whose lower bound is after its upper bound. *)
Definition inverted : FilterState :=
  {| from := "2024-02-01"; to := "2024-01-01";
     f_category := "ALL"; f_paymentMethod := "ALL" |}.

(** Two records of one day whose identifiers differ in case. *)
Definition small : Expense := sample "a" "2024-01-01" "食費" 100.
Definition capital : Expense := sample "B" "2024-01-01" "食費" 50.

(** A record whose category is the name of a property of
    [Object.prototype], and one with an amount of 54 bits. *)
Definition odd_name : Expense := sample "m1g" "2024-01-01" "__proto__" 100.
Definition tip : Expense := sample "m1h" "2024-01-02" "食費" 5.
Definition fortune : Expense :=
  sample "m1i" "2024-01-03" "食費" 9007199254740992.
Definition yen : Expense := sample "m1j" "2024-01-04" "交通" 1.

(** * Properties *)

Ltac page_unfold :=
  cbv beta iota zeta delta
    [observed local_state records_of categories_of filters_of
     addExpense updateExpense deleteExpense addCategory deleteCategory
     addRecordToSpreadsheet updateRecordInSpreadsheet
     deleteRecordFromSpreadsheet syncRecordsToSpreadsheet
     fetchRecordsFromSpreadsheet post_to_spreadsheet bridge_off
     setStorageData_records setStorageData_categories getStorageData
     alert confirm console_error fetch gets bind ret fst snd
     st_records st_categories st_filters GAS_WEB_APP_URL
     SPREADSHEET_ENABLED dialogs console sent] in *.

(** ** Strings *)

Lemma or_empty_id (s : string) : or_empty s = s.
Proof.
  unfold or_empty, truthy_str.
  destruct (String.eqb_spec s ""); simpl; congruence.
Qed.

Lemma truthy_str_false (s : string) : truthy_str s = false <-> s = "".
Proof.
  unfold truthy_str.
  destruct (String.eqb_spec s ""); simpl; split; congruence.
Qed.

Lemma truthy_str_true (s : string) : truthy_str s = true <-> s <> "".
Proof.
  unfold truthy_str.
  destruct (String.eqb_spec s ""); simpl; split; congruence.
Qed.

Lemma includes_In (l : list string) (s : string) :
  includes l s = true <-> In s l.
Proof.
  unfold includes. rewrite existsb_exists. split.
  - intros [x [Hin Heq]]. apply String.eqb_eq in Heq. now subst.
  - intros Hin. exists s. split; [assumption | apply String.eqb_refl].
Qed.

(** ** Lists *)

Lemma filter_twice {A : Type} (p : A -> bool) (l : list A) :
  filter p (filter p l) = filter p l.
Proof.
  induction l as [| a l IH]; simpl; [reflexivity |].
  destruct (p a) eqn:E; simpl; [rewrite E, IH |]; auto.
Qed.

Lemma filter_all {A : Type} (p : A -> bool) (l : list A) :
  (forall a, In a l -> p a = true) -> filter p l = l.
Proof.
  induction l as [| a l IH]; simpl; intros H; [reflexivity |].
  rewrite (H a (or_introl eq_refl)). f_equal. apply IH. auto.
Qed.

Lemma filter_none {A : Type} (p : A -> bool) (l : list A) :
  (forall a, In a l -> p a = false) -> filter p l = [].
Proof.
  induction l as [| a l IH]; simpl; intros H; [reflexivity |].
  rewrite (H a (or_introl eq_refl)). apply IH. auto.
Qed.

Lemma findIndex_split {A : Type} (p : A -> bool) (before : list A) (x : A)
  (after : list A) :
  (forall a, In a before -> p a = false) -> p x = true ->
  findIndex p (before ++ x :: after) = Some (length before).
Proof.
  induction before as [| b before IH]; simpl; intros Hb Hx.
  - now rewrite Hx.
  - rewrite (Hb b (or_introl eq_refl)), IH; auto.
Qed.

Lemma findIndex_none {A : Type} (p : A -> bool) (l : list A) :
  (forall a, In a l -> p a = false) -> findIndex p l = None.
Proof.
  induction l as [| a l IH]; simpl; intros H; [reflexivity |].
  rewrite (H a (or_introl eq_refl)), IH; auto.
Qed.

Lemma set_at_split {A : Type} (before : list A) (x y : A) (after : list A) :
  set_at (length before) y (before ++ x :: after) = before ++ y :: after.
Proof.
  induction before as [| b before IH]; simpl; [reflexivity | now rewrite IH].
Qed.

Lemma nth_error_split {A : Type} (before : list A) (x : A) (after : list A) :
  nth_error (before ++ x :: after) (length before) = Some x.
Proof.
  induction before as [| b before IH]; simpl; auto.
Qed.

(** Removing the records with one identifier from a list in which the
    identifiers are all different removes one record, if any. *)
Lemma filter_unique_id (rid : string) (l : list Expense) :
  NoDup (map id l) ->
  (exists r, In r l /\ id r = rid) ->
  S (length (filter (fun record => negb (id record =? rid)%string) l))
  = length l.
Proof.
  induction l as [| a l IH]; simpl; intros Hnd [r [Hin Hid]];
    [contradiction |].
  inversion Hnd as [| ? ? Hnotin Hnd']; subst.
  destruct (String.eqb_spec (id a) (id r)) as [E | E]; simpl.
  - f_equal. rewrite filter_all; [reflexivity |].
    intros b Hb. apply negb_true_iff, String.eqb_neq. intros Eb.
    apply Hnotin. rewrite E, <- Eb. now apply in_map.
  - f_equal. apply IH; [assumption |].
    destruct Hin as [-> | Hin]; [congruence |]. now exists r.
Qed.

(** ** Record store and the remote outcome *)

Lemma deleteExpense_local (w : World) (rid : string) (net : Fetched) :
  local_state (snd (deleteExpense rid net w))
  = (Some (filter (fun record => negb (id record =? rid)%string)
             (records_of w)),
     st_categories w, st_filters w).
Proof.
  destruct w as [recs cats flt url enabled dlg con snt]. page_unfold.
  destruct enabled, (truthy_str url), net; reflexivity.
Qed.

Lemma records_of_local (w : World) (l : list Expense)
  (c : option (list string)) (f : option FilterState) :
  local_state w = (Some l, c, f) -> records_of w = l.
Proof.
  unfold local_state, records_of, getStorageData. simpl.
  intros H. inversion H as [[Hr Hc Hf]]. now rewrite Hr.
Qed.

(** C1.  Whatever the bridge call ends in (an acknowledgement, a failure
    reported by the endpoint, a transport failure or an unreadable body),
    [addExpense], [updateExpense] and [deleteExpense] return the same value
    and leave the same local stores, the ones they return and leave with
    the bridge switched off; the local change is there after the call: the
    new record is at the end of the list after an addition, and the records
    with the given identifier are gone after a deletion. *)
Theorem local_mutation_independent_of_remote :
  forall (w : World) (x : ExpenseData) (fresh rid : string) (n1 n2 : Fetched),
    observed (addExpense x fresh n1 w) = observed (addExpense x fresh n2 w)
    /\ observed (updateExpense rid x n1 w) = observed (updateExpense rid x n2 w)
    /\ observed (deleteExpense rid n1 w) = observed (deleteExpense rid n2 w)
    /\ observed (addExpense x fresh n1 w)
       = observed (addExpense x fresh n1 (offline w))
    /\ observed (updateExpense rid x n1 w)
       = observed (updateExpense rid x n1 (offline w))
    /\ observed (deleteExpense rid n1 w)
       = observed (deleteExpense rid n1 (offline w))
    /\ records_of (snd (addExpense x fresh n1 w))
       = records_of w ++ [fst (addExpense x fresh n1 w)]
    /\ records_of (snd (deleteExpense rid n1 w))
       = filter (fun record => negb (id record =? rid)%string) (records_of w).
Proof.
  intros w x fresh rid n1 n2.
  destruct w as [recs cats flt url enabled dlg con snt].
  unfold offline. page_unfold.
  repeat apply conj.
  - destruct enabled, (truthy_str url), n1, n2; reflexivity.
  - destruct (findIndex _ _) as [i |]; [| reflexivity].
    destruct (nth_error _ i) as [old |]; [| reflexivity].
    destruct enabled, (truthy_str url), n1, n2; reflexivity.
  - destruct enabled, (truthy_str url), n1, n2; reflexivity.
  - destruct enabled, (truthy_str url), n1; reflexivity.
  - destruct (findIndex _ _) as [i |]; [| reflexivity].
    destruct (nth_error _ i) as [old |]; [| reflexivity].
    destruct enabled, (truthy_str url), n1; reflexivity.
  - destruct enabled, (truthy_str url), n1; reflexivity.
  - destruct enabled, (truthy_str url), n1; reflexivity.
  - destruct enabled, (truthy_str url), n1; reflexivity.
Qed.

(** C2, as the code has it.  [deleteExpense] removes every record whose
    identifier is the given one and keeps the others in their order; when
    the identifiers in the store are all different and one record has the
    given identifier, the list is shorter by exactly one; when no record
    has it, the list is the same.  The call returns [undefined] in every
    case. *)
Theorem deleteExpense_removes_matching :
  forall (w : World) (rid : string) (net : Fetched),
    let after := records_of (snd (deleteExpense rid net w)) in
    after = filter (fun record => negb (id record =? rid)%string) (records_of w)
    /\ (NoDup (map id (records_of w)) ->
        (exists r, In r (records_of w) /\ id r = rid) ->
        S (length after) = length (records_of w))
    /\ ((forall r, In r (records_of w) -> id r <> rid) ->
        after = records_of w)
    /\ fst (deleteExpense rid net w) = tt.
Proof.
  intros w rid net after.
  assert (Hafter : after
                   = filter (fun record => negb (id record =? rid)%string)
                       (records_of w)).
  { subst after.
    destruct w as [recs cats flt url enabled dlg con snt]. page_unfold.
    destruct enabled, (truthy_str url), net; reflexivity. }
  split; [exact Hafter |]. split; [| split].
  - intros Hnd Hex. rewrite Hafter. now apply filter_unique_id.
  - intros Habsent. rewrite Hafter. apply filter_all.
    intros r Hr. apply negb_true_iff, String.eqb_neq. now apply Habsent.
  - now destruct (fst (deleteExpense rid net w)).
Qed.

(** C3.  When the first record with the given identifier is [old], between
    the records [before] and [after], [updateExpense] returns the record
    with the identifier of [old] and the five fields of the input (the
    amount read by [parseInt]), and the list becomes [before], that record,
    [after]; categories and filters are untouched.  When no record has the
    identifier, the result is [null] and the page state is unchanged. *)
Theorem updateExpense_frame :
  forall (w : World) (rid : string) (x : ExpenseData) (net : Fetched),
    (forall (before : list Expense) (old : Expense) (after : list Expense),
        records_of w = before ++ old :: after ->
        id old = rid ->
        (forall r, In r before -> id r <> rid) ->
        fst (updateExpense rid x net w) = Some (replaced old x)
        /\ id (replaced old x) = rid
        /\ records_of (snd (updateExpense rid x net w))
           = before ++ replaced old x :: after
        /\ st_categories (snd (updateExpense rid x net w)) = st_categories w
        /\ st_filters (snd (updateExpense rid x net w)) = st_filters w)
    /\ ((forall r, In r (records_of w) -> id r <> rid) ->
        updateExpense rid x net w = (None, w)).
Proof.
  intros w rid x net. split.
  - intros before old after Hrecs Hid Hbefore.
    unfold replaced. rewrite <- (or_empty_id (d_memo x)).
    destruct w as [recs cats flt url enabled dlg con snt]. page_unfold.
    rewrite Hrecs.
    rewrite (findIndex_split _ before old after).
    + rewrite nth_error_split, set_at_split.
      destruct enabled, (truthy_str url), net; simpl; auto.
    + intros a Ha. apply String.eqb_neq. now apply Hbefore.
    + now apply String.eqb_eq.
  - intros Habsent.
    destruct w as [recs cats flt url enabled dlg con snt]. page_unfold.
    rewrite findIndex_none; [reflexivity |].
    intros a Ha. apply String.eqb_neq. now apply Habsent.
Qed.

(** C9.  A second [deleteExpense] with the same identifier, whatever the
    two bridge calls end in, leaves the local stores as the first one left
    them. *)
Theorem deleteExpense_idempotent :
  forall (w : World) (rid : string) (n1 n2 : Fetched),
    local_state (snd (deleteExpense rid n2 (snd (deleteExpense rid n1 w))))
    = local_state (snd (deleteExpense rid n1 w))
    /\ records_of (snd (deleteExpense rid n1 w))
       = filter (fun record => negb (id record =? rid)%string) (records_of w).
Proof.
  intros w rid n1 n2.
  pose proof (deleteExpense_local w rid n1) as H1.
  pose proof (records_of_local _ _ _ _ H1) as R1.
  split; [| exact R1].
  rewrite deleteExpense_local, R1, filter_twice, H1.
  unfold local_state in H1. inversion H1 as [[Hr Hc Hf]].
  now rewrite Hc, Hf.
Qed.

(** ** Category store *)

Lemma existsb_none {A : Type} (p : A -> bool) (l : list A) :
  (forall a, In a l -> p a = false) -> existsb p l = false.
Proof.
  induction l as [| a l IH]; simpl; intros H; [reflexivity |].
  rewrite (H a (or_introl eq_refl)), IH; auto.
Qed.

Lemma includes_false (l : list string) (s : string) :
  ~ In s l -> includes l s = false.
Proof.
  intros H. destruct (includes l s) eqn:E; [| reflexivity].
  apply includes_In in E. contradiction.
Qed.

(** C7.  [addCategory] returns [false] and leaves the local stores as they
    are when the name is empty or is only white space, and when the
    trimmed name is already in the list; otherwise it returns [true] and
    the stored list is the former one with the trimmed name at its end. *)
Theorem addCategory_spec :
  forall (name : string) (w : World),
    (name = "" \/ trim name = "" ->
     fst (addCategory name w) = false
     /\ local_state (snd (addCategory name w)) = local_state w)
    /\ (trim name <> "" -> In (trim name) (categories_of w) ->
        fst (addCategory name w) = false
        /\ local_state (snd (addCategory name w)) = local_state w)
    /\ (trim name <> "" -> ~ In (trim name) (categories_of w) ->
        fst (addCategory name w) = true
        /\ local_state (snd (addCategory name w))
           = (st_records w, Some (categories_of w ++ [trim name]),
              st_filters w)).
Proof.
  intros name w.
  assert (Hguard : trim name <> "" ->
                   negb (truthy_str name) || (trim name =? "")%string = false).
  { intros Ht. apply orb_false_iff. split.
    - apply negb_false_iff, truthy_str_true. intros ->. now apply Ht.
    - now apply String.eqb_neq. }
  destruct w as [recs cats flt url enabled dlg con snt].
  split; [| split].
  - intros Hempty.
    assert (Hg : negb (truthy_str name) || (trim name =? "")%string = true).
    { apply orb_true_iff. destruct Hempty as [-> | ->]; [left | right];
        reflexivity. }
    page_unfold. rewrite Hg. split; reflexivity.
  - intros Ht Hin. apply includes_In in Hin.
    page_unfold. rewrite (Hguard Ht).
    unfold categories_of, getStorageData in Hin. simpl in Hin.
    rewrite Hin. split; reflexivity.
  - intros Ht Hnotin. apply includes_false in Hnotin.
    page_unfold. rewrite (Hguard Ht).
    unfold categories_of, getStorageData in Hnotin. simpl in Hnotin.
    rewrite Hnotin. split; reflexivity.
Qed.

(** C10.  For a name that no record refers to, [deleteCategory] returns
    [true] whatever the user would answer, without showing a dialog; the
    stored list is the former one without that name, hence the former one
    itself when the name was not in it; records and filters are
    untouched. *)
Theorem deleteCategory_unreferenced :
  forall (name : string) (answer : bool) (w : World),
    (forall r, In r (records_of w) -> category r <> name) ->
    fst (deleteCategory name answer w) = true
    /\ dialogs (snd (deleteCategory name answer w)) = dialogs w
    /\ st_categories (snd (deleteCategory name answer w))
       = Some (filter (fun cat => negb (cat =? name)%string) (categories_of w))
    /\ (~ In name (categories_of w) ->
        st_categories (snd (deleteCategory name answer w))
        = Some (categories_of w))
    /\ st_records (snd (deleteCategory name answer w)) = st_records w
    /\ st_filters (snd (deleteCategory name answer w)) = st_filters w.
Proof.
  intros name answer w Hunused.
  assert (Hused : existsb (fun record => (category record =? name)%string)
                    (records_of w) = false).
  { apply existsb_none. intros r Hr. apply String.eqb_neq. now apply Hunused. }
  destruct w as [recs cats flt url enabled dlg con snt].
  unfold records_of, getStorageData in Hused. simpl in Hused.
  page_unfold. rewrite Hused. cbv beta iota zeta delta [negb].
  repeat split.
  intros Hnotin. f_equal. apply filter_all.
  intros c Hc. apply negb_true_iff, String.eqb_neq. intros ->. now apply Hnotin.
Qed.

(** ** Order of strings *)

Lemma compare_refl (s : string) : String.compare s s = Eq.
Proof. now apply String_as_OT.cmp_eq. Qed.

Lemma compare_lt_trans (a b c : string) :
  String.compare a b = Lt -> String.compare b c = Lt ->
  String.compare a c = Lt.
Proof.
  intros Hab Hbc. apply String_as_OT.cmp_lt.
  apply String_as_OT.lt_trans with b; now apply String_as_OT.cmp_lt.
Qed.

Lemma compare_gt_lt (a b : string) :
  String.compare a b = Gt <-> String.compare b a = Lt.
Proof.
  rewrite (String.compare_antisym b a).
  destruct (String.compare a b); simpl; split; congruence.
Qed.

Lemma unit_rank_twice (a : ascii) : unit_rank (unit_rank a) = a.
Proof. destruct a as [[] [] [] [] [] [] [] []]; reflexivity. Qed.

Lemma unit_ranks_same (a b : string) : unit_ranks a = unit_ranks b -> a = b.
Proof.
  revert b. induction a as [| x a IH]; intros [| y b] H; simpl in H;
    try discriminate; [reflexivity |].
  injection H as Hxy Hab. f_equal; [| now apply IH].
  rewrite <- (unit_rank_twice x), Hxy. apply unit_rank_twice.
Qed.

Lemma compare_units_eq (a b : string) : compare_units a b = Eq <-> a = b.
Proof.
  unfold compare_units. split.
  - intros H. apply unit_ranks_same. now apply String.compare_eq_iff.
  - intros ->. apply compare_refl.
Qed.

Lemma compare_units_gt_lt (a b : string) :
  compare_units a b = Gt <-> compare_units b a = Lt.
Proof. apply compare_gt_lt. Qed.

Lemma str_ge_antisym (a b : string) :
  str_ge a b = true -> str_ge b a = true -> a = b.
Proof.
  unfold str_ge. intros Hab Hba.
  destruct (compare_units a b) eqn:E; try discriminate.
  - now apply compare_units_eq.
  - apply compare_units_gt_lt in E. rewrite E in Hba. discriminate.
Qed.

Lemma str_ge_trans (a b c : string) :
  str_ge a b = true -> str_ge b c = true -> str_ge a c = true.
Proof.
  unfold str_ge. intros Hab Hbc.
  destruct (compare_units a b) eqn:E1; try discriminate.
  - apply compare_units_eq in E1. now subst.
  - destruct (compare_units b c) eqn:E2; try discriminate.
    + apply compare_units_eq in E2. subst. now rewrite E1.
    + apply compare_units_gt_lt in E1. apply compare_units_gt_lt in E2.
      pose proof (compare_lt_trans _ _ _ E2 E1) as E3.
      apply compare_units_gt_lt in E3. now rewrite E3.
Qed.

Lemma str_ge_total (a b : string) : str_ge a b = false -> str_ge b a = true.
Proof.
  unfold str_ge. intros H.
  destruct (compare_units a b) eqn:E; try discriminate.
  apply compare_units_gt_lt in E. now rewrite E.
Qed.

Lemma str_le_ge (a b : string) : str_le a b = str_ge b a.
Proof.
  unfold str_le, str_ge, compare_units.
  rewrite (String.compare_antisym (unit_ranks b) (unit_ranks a)).
  now destruct (String.compare (unit_ranks a) (unit_ranks b)).
Qed.

Lemma by_code_units_le (a b : string) :
  by_code_units a b <= 0 <-> str_ge b a = true.
Proof.
  rewrite <- str_le_ge. unfold by_code_units, str_le.
  destruct (compare_units a b); split; intros H; try lia; try reflexivity;
    discriminate.
Qed.

Lemma by_code_units_consistent : consistent by_code_units.
Proof.
  split; [| split].
  - intros a. unfold by_code_units.
    now rewrite (proj2 (compare_units_eq a a) eq_refl).
  - intros a b. unfold by_code_units.
    destruct (compare_units a b) eqn:E.
    + apply compare_units_eq in E. subst b.
      rewrite (proj2 (compare_units_eq a a) eq_refl). lia.
    + apply compare_units_gt_lt in E. rewrite E. lia.
    + apply compare_units_gt_lt in E. rewrite E. lia.
  - intros a b c. rewrite !by_code_units_le. intros Hab Hbc.
    now apply str_ge_trans with b.
Qed.

Lemma by_code_units_tells_apart (texts : list string) :
  tells_apart by_code_units texts.
Proof.
  intros a b _ _. unfold by_code_units.
  destruct (compare_units a b) eqn:E; try lia.
  intros _. now apply compare_units_eq.
Qed.

Lemma by_code_units_agrees (texts : list string) :
  agrees by_code_units texts.
Proof. intros a b _ _. apply by_code_units_le. Qed.

(** ** Rounding *)

Lemma to_double_safe (z : Z) : Z.abs z < 2 ^ 53 -> to_double z = z.
Proof.
  intros H. unfold to_double.
  assert (L : Z.log2 (Z.abs z) < 53).
  { destruct (Z.eq_dec (Z.abs z) 0) as [E | E]; [rewrite E; reflexivity |].
    apply Z.log2_lt_pow2; lia. }
  destruct (Z.leb_spec (Z.log2 (Z.abs z) - 52) 0); [reflexivity | lia].
Qed.

(** Rounding keeps the sign. *)
Lemma to_double_sign (z : Z) :
  (to_double z <= 0 <-> z <= 0) /\ (0 <= to_double z <-> 0 <= z).
Proof.
  unfold to_double.
  destruct (Z.leb_spec (Z.log2 (Z.abs z) - 52) 0) as [He | He];
    [split; reflexivity |].
  set (m := Z.abs z) in *. set (e := Z.log2 m - 52) in *.
  assert (Hm : 0 < m).
  { destruct (Z.eq_dec m 0) as [E | E]; [| subst m; lia].
    exfalso. subst e. rewrite E in He. simpl in He. lia. }
  assert (Hpow : 0 < 2 ^ e) by (apply Z.pow_pos_nonneg; lia).
  assert (Hq : 0 < m / 2 ^ e).
  { apply Z.div_str_pos. split; [assumption |].
    apply Z.le_trans with (2 ^ Z.log2 m).
    - apply Z.pow_le_mono_r; subst e; lia.
    - now apply Z.log2_spec. }
  set (q := m / 2 ^ e) in *.
  set (up := (2 ^ (e - 1) <? m mod 2 ^ e)
             || ((2 ^ (e - 1) =? m mod 2 ^ e) && Z.odd q)).
  assert (Hq' : 0 < (if up then q + 1 else q)) by (destruct up; lia).
  set (q' := if up then q + 1 else q) in *.
  assert (Hprod : 0 < q' * 2 ^ e) by nia.
  clearbody q'. clear Hq' up Hq q He.
  destruct z as [| z | z]; simpl Z.sgn; simpl in Hm; try lia; nia.
Qed.

Lemma js_sub_order (x y : Z) :
  order_of (js_sub (Num x) (Num y)) <= 0 <-> x <= y.
Proof.
  simpl. rewrite (proj1 (to_double_sign (x - y))). lia.
Qed.

(** ** The sort *)

Section SortFacts.

Context {A : Type}.
Variable comparefn : A -> A -> Z.
Variable P : A -> Prop.

Hypothesis comparefn_total :
  forall x y, P x -> P y -> 0 < comparefn x y -> comparefn y x <= 0.
Hypothesis comparefn_trans :
  forall x y z, P x -> P y -> P z ->
    comparefn x y <= 0 -> comparefn y z <= 0 -> comparefn x z <= 0.

Lemma sort_insert_perm (x : A) (l : list A) :
  Permutation (sort_insert comparefn x l) (x :: l).
Proof.
  induction l as [| y l IH]; simpl; [reflexivity |].
  destruct (comparefn x y <=? 0); [reflexivity |].
  rewrite IH. apply perm_swap.
Qed.

Lemma Array_sort_perm (l : list A) : Permutation (Array_sort comparefn l) l.
Proof.
  induction l as [| x l IH]; simpl; [reflexivity |].
  rewrite sort_insert_perm. now apply perm_skip.
Qed.

Lemma sort_insert_sorted (x : A) (l : list A) :
  P x -> Forall P l ->
  StronglySorted (fun a b => comparefn a b <= 0) l ->
  StronglySorted (fun a b => comparefn a b <= 0) (sort_insert comparefn x l).
Proof.
  intros Px. induction l as [| y l IH]; simpl; intros HP Hs.
  - constructor; constructor.
  - inversion HP as [| ? ? Py HPl]; subst.
    inversion Hs as [| ? ? Hsl Hy]; subst.
    destruct (comparefn x y <=? 0) eqn:E.
    + apply Z.leb_le in E. constructor; [assumption |].
      constructor; [assumption |].
      rewrite Forall_forall in *. intros z Hz.
      apply comparefn_trans with y; auto.
    + apply Z.leb_gt in E. constructor; [now apply IH |].
      apply Permutation_Forall with (x :: l).
      * symmetry. apply sort_insert_perm.
      * constructor; [| assumption]. now apply comparefn_total.
Qed.

Lemma Array_sort_sorted (l : list A) :
  Forall P l ->
  StronglySorted (fun a b => comparefn a b <= 0) (Array_sort comparefn l).
Proof.
  induction l as [| x l IH]; simpl; intros HP; [constructor |].
  inversion HP as [| ? ? Px HPl]; subst.
  apply sort_insert_sorted; [assumption | | now apply IH].
  apply Permutation_Forall with l; [| assumption].
  symmetry. apply Array_sort_perm.
Qed.

End SortFacts.

Lemma StronglySorted_impl {A : Type} (R S : A -> A -> Prop) (l : list A) :
  (forall a b, In a l -> In b l -> R a b -> S a b) ->
  StronglySorted R l -> StronglySorted S l.
Proof.
  induction l as [| x l IH]; intros Himp Hs; [constructor |].
  inversion Hs as [| ? ? Hsl Hx]; subst. constructor.
  - apply IH; [| assumption]. intros a b Ha Hb. apply Himp; now right.
  - rewrite Forall_forall in *. intros b Hb.
    apply Himp; [now left | now right | now apply Hx].
Qed.

(** ** Filtering and ordering of the listing *)

Lemma filter_filter {A : Type} (p q : A -> bool) (l : list A) :
  filter q (filter p l) = filter (fun a => p a && q a) l.
Proof.
  induction l as [| a l IH]; simpl; [reflexivity |].
  destruct (p a); simpl; [destruct (q a) |]; now rewrite IH.
Qed.

Lemma filter_when {A : Type} (b : bool) (p : A -> bool) (l : list A) :
  (if b then filter p l else l) = filter (fun a => negb b || p a) l.
Proof.
  destruct b; simpl; [reflexivity |].
  symmetry. now apply filter_all.
Qed.

Lemma getFilteredRecords_run (localeCompare : Collation) (w : World) :
  getFilteredRecords localeCompare w
  = (Array_sort (newest_first localeCompare)
       (filter (passes (filters_of w)) (records_of w)), w).
Proof.
  unfold getFilteredRecords, filters_of, records_of, bind, ret. simpl.
  f_equal. f_equal.
  rewrite !filter_when, !filter_filter.
  apply filter_ext. intros r. unfold passes, truthy_str.
  now rewrite !negb_involutive, !andb_assoc.
Qed.

Lemma newest_first_le (localeCompare : Collation) (a b : Expense) :
  newest_first localeCompare a b <= 0 <-> not_after localeCompare a b.
Proof.
  unfold newest_first, not_after.
  destruct (String.eqb_spec (date a) (date b)) as [E | E]; simpl; split.
  - intros H. now right.
  - intros [[Hne _] | [_ H]]; [contradiction | assumption].
  - intros H. now left.
  - intros [[_ H] | [Heq _]]; [assumption | contradiction].
Qed.

Lemma consistent_zero (localeCompare : Collation) (a b : string) :
  consistent localeCompare ->
  localeCompare a b <= 0 -> localeCompare b a <= 0 -> localeCompare a b = 0.
Proof.
  intros (_ & Hflip & _) Hab Hba.
  destruct (Z.eq_dec (localeCompare a b) 0) as [E | E]; [assumption |].
  assert (Hlt : localeCompare a b < 0) by lia.
  apply Hflip in Hlt. lia.
Qed.

Lemma not_after_total (localeCompare : Collation) (a b : Expense) :
  consistent localeCompare ->
  ~ not_after localeCompare a b -> not_after localeCompare b a.
Proof.
  intros (_ & Hflip & _) H. unfold not_after in *.
  destruct (String.eqb_spec (date a) (date b)) as [E | E].
  - right. split; [now symmetry |].
    destruct (Z.le_gt_cases (localeCompare (id b) (id a)) 0) as [L | G];
      [exfalso; apply H; now right |].
    assert (X : localeCompare (id a) (id b) < 0) by (apply Hflip; lia). lia.
  - left. split; [congruence |].
    destruct (Z.le_gt_cases (localeCompare (date b) (date a)) 0) as [L | G];
      [exfalso; apply H; now left |].
    assert (X : localeCompare (date a) (date b) < 0) by (apply Hflip; lia).
    lia.
Qed.

Lemma not_after_trans (localeCompare : Collation) (dates : list string)
  (a b c : Expense) :
  consistent localeCompare ->
  tells_apart localeCompare dates ->
  In (date a) dates -> In (date b) dates ->
  not_after localeCompare a b -> not_after localeCompare b c ->
  not_after localeCompare a c.
Proof.
  intros Hcons Hapart Ia Ib. pose proof Hcons as (_ & _ & Htrans).
  unfold not_after.
  intros [[Nab Gab] | [Eab Gab]] [[Nbc Gbc] | [Ebc Gbc]].
  - destruct (String.eqb_spec (date a) (date c)) as [E | E].
    + exfalso. apply Nab. rewrite <- E in Gbc.
      apply Hapart; try assumption.
      apply consistent_zero; assumption.
    + left. split; [assumption |]. now apply Htrans with (date b).
  - left. rewrite <- Ebc. now split.
  - left. rewrite Eab. now split.
  - right. split; [congruence |]. now apply Htrans with (id b).
Qed.

Lemma newest_first_sorted (localeCompare : Collation) (l : list Expense) :
  consistent localeCompare ->
  tells_apart localeCompare (map date l) ->
  StronglySorted (not_after localeCompare)
    (Array_sort (newest_first localeCompare) l).
Proof.
  intros Hcons Hapart.
  apply StronglySorted_impl
    with (R := fun a b => newest_first localeCompare a b <= 0).
  - intros a b _ _. apply newest_first_le.
  - apply Array_sort_sorted with (P := fun r => In (date r) (map date l)).
    + intros x y _ _ H. apply newest_first_le, not_after_total;
        [assumption |].
      rewrite <- newest_first_le. lia.
    + intros x y z Hx Hy _. rewrite !newest_first_le.
      now apply not_after_trans with (dates := map date l).
    + apply Forall_forall. intros r Hr. now apply in_map.
Qed.

Lemma tells_apart_sub (localeCompare : Collation) (texts texts' : list string) :
  (forall t, In t texts' -> In t texts) ->
  tells_apart localeCompare texts -> tells_apart localeCompare texts'.
Proof. intros Hsub H a b Ha Hb. apply H; now apply Hsub. Qed.

Lemma dates_of_filter (p : Expense -> bool) (l : list Expense) (t : string) :
  In t (map date (filter p l)) -> In t (map date l).
Proof.
  rewrite !in_map_iff. intros (r & E & Hr). exists r. split; [assumption |].
  apply filter_In in Hr. tauto.
Qed.

(** C4.  For a host whose [localeCompare] is a consistent comparison that
    tells the stored dates apart, the listing is the stored records that
    pass the filter, each as often as it is stored, and nothing else; it
    runs from later to earlier dates and, within a date, from later to
    earlier identifiers, in the order of [localeCompare]; the page state
    is not changed.  This is the lexicographic order of the
    specification when the collation agrees with the order of the code
    units on the stored dates and identifiers.  With five records dated
    2024-01-01 to 2024-01-05, on whose dates it agrees, and the filter
    from 2024-01-02 to 2024-01-04, the listing is the records of 01-04,
    01-03, 01-02. *)
Theorem getFilteredRecords_spec :
  forall (localeCompare : Collation) (w : World),
    consistent localeCompare ->
    tells_apart localeCompare (map date (records_of w)) ->
    let listing := fst (getFilteredRecords localeCompare w) in
    Permutation listing (filter (passes (filters_of w)) (records_of w))
    /\ (forall r, In r listing <->
                  In r (records_of w) /\ passes (filters_of w) r = true)
    /\ StronglySorted (not_after localeCompare) listing
    /\ snd (getFilteredRecords localeCompare w) = w
    /\ (agrees localeCompare
          (map date (records_of w) ++ map id (records_of w)) ->
        StronglySorted newer_or_same listing)
    /\ (forall r1 r2 r3 r4 r5 : Expense,
           date r1 = "2024-01-01" -> date r2 = "2024-01-02" ->
           date r3 = "2024-01-03" -> date r4 = "2024-01-04" ->
           date r5 = "2024-01-05" ->
           records_of w = [r1; r2; r3; r4; r5] ->
           filters_of w
           = {| from := "2024-01-02"; to := "2024-01-04";
                f_category := "ALL"; f_paymentMethod := "ALL" |} ->
           agrees localeCompare (map date (records_of w)) ->
           listing = [r4; r3; r2]).
Proof.
  intros localeCompare w Hcons Hapart listing. subst listing.
  rewrite getFilteredRecords_run. simpl.
  assert (Hin : forall r,
             In r (Array_sort (newest_first localeCompare)
                     (filter (passes (filters_of w)) (records_of w)))
             <-> In r (records_of w) /\ passes (filters_of w) r = true).
  { intros r. rewrite <- filter_In. split; apply Permutation_in.
    - apply Array_sort_perm.
    - symmetry. apply Array_sort_perm. }
  assert (Hsorted : StronglySorted (not_after localeCompare)
                      (Array_sort (newest_first localeCompare)
                         (filter (passes (filters_of w)) (records_of w)))).
  { apply newest_first_sorted; [assumption |].
    apply tells_apart_sub with (texts := map date (records_of w));
      [| assumption].
    intros t. apply dates_of_filter. }
  split; [apply Array_sort_perm |].
  split; [exact Hin |].
  split; [exact Hsorted |].
  split; [reflexivity |].
  split.
  { intros Hagree.
    apply StronglySorted_impl with (R := not_after localeCompare);
      [| exact Hsorted].
    intros a b Ha Hb. apply Hin in Ha. apply Hin in Hb.
    destruct Ha as [Ha _], Hb as [Hb _].
    unfold not_after, newer_or_same.
    intros [[N G] | [E G]]; [left | right]; (split; [assumption |]).
    - apply Hagree in G; [assumption | |];
        apply in_or_app; left; now apply in_map.
    - apply Hagree in G; [assumption | |];
        apply in_or_app; right; now apply in_map. }
  intros r1 r2 r3 r4 r5 H1 H2 H3 H4 H5 Hrecs Hflt Hagree.
  rewrite Hrecs in Hagree. simpl in Hagree.
  rewrite H1, H2, H3, H4, H5 in Hagree.
  assert (Hlater : forall a b,
             In a ["2024-01-01"; "2024-01-02"; "2024-01-03"; "2024-01-04";
                   "2024-01-05"] ->
             In b ["2024-01-01"; "2024-01-02"; "2024-01-03"; "2024-01-04";
                   "2024-01-05"] ->
             str_ge b a = false -> (localeCompare a b <=? 0) = false).
  { intros a b Ha Hb Hlt. apply Z.leb_gt.
    destruct (Z.le_gt_cases (localeCompare a b) 0) as [L | G]; [| lia].
    apply (Hagree a b Ha Hb) in L. congruence. }
  rewrite Hrecs, Hflt. unfold passes. simpl.
  rewrite H1, H2, H3, H4, H5. simpl.
  assert (C34 : (newest_first localeCompare r3 r4 <=? 0) = false).
  { unfold newest_first. rewrite H3, H4. simpl.
    apply Hlater; [simpl; tauto | simpl; tauto | reflexivity]. }
  assert (C24 : (newest_first localeCompare r2 r4 <=? 0) = false).
  { unfold newest_first. rewrite H2, H4. simpl.
    apply Hlater; [simpl; tauto | simpl; tauto | reflexivity]. }
  assert (C23 : (newest_first localeCompare r2 r3 <=? 0) = false).
  { unfold newest_first. rewrite H2, H3. simpl.
    apply Hlater; [simpl; tauto | simpl; tauto | reflexivity]. }
  rewrite C34. simpl. rewrite C24. simpl. rewrite C23. reflexivity.
Qed.

(** ** Aggregation *)

Lemma magnitude_nonneg (records : list Expense) : 0 <= magnitude records.
Proof.
  induction records as [| r records IH]; simpl; [reflexivity | lia].
Qed.

Lemma calculateTotal_from (records : list Expense) (a : Z) :
  Forall (fun r => amount r <> NaN) records ->
  Z.abs a + magnitude records < 2 ^ 53 ->
  fold_left (fun sum record => js_add sum (amount record)) records (Num a)
  = Num (a + total_of records).
Proof.
  revert a. induction records as [| r records IH]; simpl; intros a H Hb.
  - f_equal. lia.
  - inversion H as [| ? ? Hr Hrest]; subst.
    pose proof (magnitude_nonneg records) as Hm.
    unfold amount_of in *. destruct (amount r) as [z |]; [| contradiction].
    simpl. rewrite to_double_safe by lia.
    rewrite IH by (assumption || lia). f_equal. lia.
Qed.

Lemma own_put (summary : Summary) (key key' : string) (v : Value) :
  own (put summary key v) key'
  = if (key =? key')%string then Some v else own summary key'.
Proof.
  induction summary as [| [k v'] rest IH]; simpl.
  - reflexivity.
  - destruct (String.eqb_spec k key) as [-> | Hk]; simpl.
    + destruct (String.eqb_spec key key'); reflexivity.
    + rewrite IH. destruct (String.eqb_spec k key') as [-> | Hk'];
        [| reflexivity].
      destruct (String.eqb_spec key key'); [congruence | reflexivity].
Qed.

Lemma put_put (summary : Summary) (key : string) (v v' : Value) :
  put (put summary key v) key v' = put summary key v'.
Proof.
  induction summary as [| [k u] rest IH]; simpl.
  - now rewrite String.eqb_refl.
  - destruct (String.eqb_spec k key) as [-> | Hk]; simpl.
    + now rewrite String.eqb_refl.
    + apply String.eqb_neq in Hk. now rewrite Hk, IH.
Qed.

Lemma own_keys (summary : Summary) (key : string) :
  In key (map fst summary) <-> own summary key <> None.
Proof.
  induction summary as [| [k v] rest IH]; simpl.
  - split; [contradiction | congruence].
  - destruct (String.eqb_spec k key) as [-> | Hk].
    + split; [discriminate | now left].
    + rewrite <- IH. split; [intros [? | ?]; [contradiction | assumption] |].
      now right.
Qed.

Lemma own_In (summary : Summary) (key : string) (v : Value) :
  NoDup (map fst summary) -> In (key, v) summary ->
  own summary key = Some v.
Proof.
  induction summary as [| [k v'] rest IH]; simpl; intros Hnd Hin;
    [contradiction |].
  inversion Hnd as [| ? ? Hnotin Hnd']; subst.
  destruct Hin as [E | Hin].
  - inversion E; subst. now rewrite String.eqb_refl.
  - destruct (String.eqb_spec k key) as [-> | Hk]; [| now apply IH].
    exfalso. apply Hnotin. change key with (fst (key, v)). now apply in_map.
Qed.

Lemma own_numeric (summary : Summary) (key : string) (v : Value) :
  numeric summary -> own summary key = Some v ->
  exists z, v = Number (Num z).
Proof.
  induction summary as [| [k v'] rest IH]; simpl; intros Hnum Hown;
    [discriminate |].
  inversion Hnum as [| ? ? Hv Hrest]; subst.
  destruct (k =? key)%string; [| now apply IH].
  inversion Hown; subst. exact Hv.
Qed.

Lemma put_keys (summary : Summary) (key : string) (v : Value) :
  map fst (put summary key v)
  = if existsb (fun k => (k =? key)%string) (map fst summary)
    then map fst summary
    else map fst summary ++ [key].
Proof.
  induction summary as [| [k v'] rest IH]; simpl; [reflexivity |].
  destruct (String.eqb_spec k key) as [-> | Hk]; simpl; [reflexivity |].
  rewrite IH. now destruct (existsb _ (map fst rest)).
Qed.

Lemma put_NoDup (summary : Summary) (key : string) (v : Value) :
  NoDup (map fst summary) -> NoDup (map fst (put summary key v)).
Proof.
  intros Hnd. rewrite put_keys.
  destruct (existsb _ (map fst summary)) eqn:E; [assumption |].
  apply NoDup_app; [assumption | constructor; [intros [] | constructor] |].
  intros k Hk [Hkey | []]. subst k.
  assert (X : existsb (fun k' => (k' =? key)%string) (map fst summary) = true)
    by (apply existsb_exists; exists key; split;
        [assumption | apply String.eqb_refl]).
  congruence.
Qed.

Lemma put_numeric (summary : Summary) (key : string) (z : Z) :
  numeric summary -> numeric (put summary key (Number (Num z))).
Proof.
  unfold numeric.
  induction summary as [| [k v] rest IH]; simpl; intros Hnum.
  - constructor; [now exists z | constructor].
  - inversion Hnum as [| ? ? Hv Hrest]; subst.
    destruct (k =? key)%string; constructor; auto. now exists z.
Qed.

Lemma weight_nonneg (summary : Summary) : 0 <= weight summary.
Proof.
  induction summary as [| e rest IH]; simpl; [reflexivity | lia].
Qed.

Lemma held_weight (summary : Summary) (key : string) :
  Z.abs (held summary key) <= weight summary.
Proof.
  unfold held. induction summary as [| [k v] rest IH]; simpl; [reflexivity |].
  pose proof (weight_nonneg rest) as Hw.
  destruct (k =? key)%string.
  - destruct v as [[z |] |]; simpl; lia.
  - lia.
Qed.

Lemma weight_put (summary : Summary) (key : string) (v : Value) :
  weight (put summary key v)
  = weight summary - Z.abs (held summary key)
    + Z.abs (order_of (to_number v)).
Proof.
  unfold held. induction summary as [| [k v'] rest IH]; simpl.
  - lia.
  - destruct (String.eqb_spec k key) as [-> | Hk]; simpl.
    + destruct v' as [[z |] |]; simpl; lia.
    + rewrite IH. lia.
Qed.

Lemma shown_total_put (summary : Summary) (key : string) (v : Value) :
  shown_total (put summary key v)
  = shown_total summary - held summary key + order_of (to_number v).
Proof.
  unfold held. induction summary as [| [k v'] rest IH]; simpl.
  - lia.
  - destruct (String.eqb_spec k key) as [-> | Hk]; simpl.
    + destruct v' as [[z |] |]; simpl; lia.
    + rewrite IH. lia.
Qed.

(** On a summary of integers, for a name that is not inherited and an
    amount that keeps the sums below 2^53, a turn of the loop adds the
    amount to the integer held under the name. *)
Lemma tally_exact (summary : Summary) (key : string) (z : Z) :
  inherited key = false -> numeric summary ->
  weight summary + Z.abs z < 2 ^ 53 ->
  tally key (Num z) summary
  = put summary key (Number (Num (held summary key + z))).
Proof.
  intros Hplain Hnum Hb.
  apply orb_false_elim in Hplain. destruct Hplain as [Hproto Hmeth].
  pose proof (held_weight summary key) as Hheld.
  pose proof (weight_nonneg summary) as Hw.
  unfold tally, prop_falsy, prop_add, prop_set, prop_get, held in *.
  rewrite Hproto.
  destruct (own summary key) as [v |] eqn:G.
  - destruct (own_numeric _ _ _ Hnum G) as [x ->]. simpl.
    destruct (Z.eqb_spec x 0) as [-> | Hx]; simpl.
    + rewrite own_put, String.eqb_refl. simpl.
      rewrite put_put, to_double_safe by lia. reflexivity.
    + rewrite G. simpl. rewrite to_double_safe by lia. reflexivity.
  - rewrite Hmeth. rewrite own_put, String.eqb_refl. simpl.
    rewrite put_put, to_double_safe by lia. reflexivity.
Qed.

Section Grouping.

Variable key : Expense -> string.

Lemma entered_weight (summary : Summary) (r : Expense) :
  weight (entered key summary r) <= weight summary + Z.abs (amount_of r).
Proof.
  unfold entered. rewrite weight_put. simpl.
  pose proof (held_weight summary (key r)). lia.
Qed.

(** For integer amounts whose absolute values stay below 2^53 in sum and
    for names that are not inherited, the loop of the summary adds up
    without rounding. *)
Lemma grouped_exact (records : list Expense) (summary : Summary) :
  Forall (fun r => amount r <> NaN) records ->
  own_names key records ->
  numeric summary ->
  weight summary + magnitude records < 2 ^ 53 ->
  fold_left (fun summary record => tally (key record) (amount record) summary)
    records summary
  = fold_left (entered key) records summary.
Proof.
  revert summary.
  induction records as [| r records IH]; intros summary Hint Hplain Hnum Hb;
    [reflexivity |].
  inversion Hint as [| ? ? Hr Hrest]; subst.
  inversion Hplain as [| ? ? Hk Hks]; subst.
  simpl in Hb. pose proof (magnitude_nonneg records) as Hm.
  pose proof (entered_weight summary r) as Hw.
  simpl.
  assert (E : tally (key r) (amount r) summary = entered key summary r).
  { unfold entered, amount_of in *.
    destruct (amount r) as [z |]; [| contradiction].
    apply tally_exact; [assumption | assumption | lia]. }
  rewrite E. apply IH; try assumption.
  - unfold entered. now apply put_numeric.
  - lia.
Qed.

Lemma entered_numeric (records : list Expense) (summary : Summary) :
  numeric summary -> numeric (fold_left (entered key) records summary).
Proof.
  revert summary. induction records as [| r records IH]; intros summary Hnum;
    [assumption |].
  simpl. apply IH. unfold entered. now apply put_numeric.
Qed.

Lemma total_by_none (c : string) (records : list Expense) :
  existsb (fun r => (key r =? c)%string) records = false ->
  total_by key c records = 0.
Proof.
  intros H. unfold total_by. rewrite filter_none; [reflexivity |].
  intros r Hr. destruct (key r =? c)%string eqn:E; [| reflexivity].
  assert (X : existsb (fun r => (key r =? c)%string) records = true)
    by (apply existsb_exists; now exists r).
  congruence.
Qed.

Lemma held_entered (summary : Summary) (r : Expense) (c : string) :
  held (entered key summary r) c
  = if (key r =? c)%string then held summary c + amount_of r
    else held summary c.
Proof.
  unfold entered, held at 1. rewrite own_put.
  destruct (String.eqb_spec (key r) c) as [-> | E]; reflexivity.
Qed.

Lemma grouped_from (records : list Expense) (summary : Summary) (c : string) :
  own (fold_left (entered key) records summary) c
  = if existsb (fun r => (key r =? c)%string) records
    then Some (Number (Num (held summary c + total_by key c records)))
    else own summary c.
Proof.
  revert summary. induction records as [| r records IH]; intros summary.
  - reflexivity.
  - simpl. rewrite IH, held_entered.
    unfold total_by. simpl.
    destruct (String.eqb_spec (key r) c) as [E | E]; simpl.
    + fold (total_by key c records).
      destruct (existsb _ records) eqn:X.
      * do 3 f_equal. lia.
      * rewrite (total_by_none _ _ X). unfold entered.
        rewrite own_put, E, String.eqb_refl. do 3 f_equal. lia.
    + fold (total_by key c records). unfold entered. rewrite own_put.
      apply String.eqb_neq in E. now rewrite E.
Qed.

Lemma entered_keys (summary : Summary) (r : Expense) :
  map fst (entered key summary r)
  = if includes (map fst summary) (key r) then map fst summary
    else map fst summary ++ [key r].
Proof. unfold entered, includes. apply put_keys. Qed.

Lemma grouped_keys (records : list Expense) (summary : Summary) :
  map fst (fold_left (entered key) records summary)
  = first_seen (map key records) (map fst summary).
Proof.
  revert summary. induction records as [| r records IH]; intros summary.
  - reflexivity.
  - simpl. now rewrite IH, entered_keys.
Qed.

Lemma grouped_NoDup (records : list Expense) (summary : Summary) :
  NoDup (map fst summary) ->
  NoDup (map fst (fold_left (entered key) records summary)).
Proof.
  revert summary. induction records as [| r records IH]; intros summary Hnd;
    [assumption |].
  simpl. apply IH. unfold entered. now apply put_NoDup.
Qed.

Lemma grouped_total (records : list Expense) (summary : Summary) :
  shown_total (fold_left (entered key) records summary)
  = shown_total summary + total_of records.
Proof.
  revert summary. induction records as [| r records IH]; intros summary.
  - simpl. lia.
  - simpl. rewrite IH. unfold entered. rewrite shown_total_put. simpl. lia.
Qed.

(** The summary of records with safe amounts and names of their own. *)
Lemma grouped_summary (records : list Expense) :
  safe_amounts records -> own_names key records ->
  fold_left (fun summary record => tally (key record) (amount record) summary)
    records []
  = fold_left (entered key) records [].
Proof.
  intros [Hint Hb] Hplain. apply grouped_exact; try assumption.
  constructor.
Qed.

Lemma grouped_occurs (records : list Expense) (c : string) :
  existsb (fun r => (key r =? c)%string) records = true
  <-> In c (map key records).
Proof.
  rewrite existsb_exists, in_map_iff.
  split; intros [r [H1 H2]]; exists r.
  - apply String.eqb_eq in H2. now split.
  - split; [assumption | now apply String.eqb_eq].
Qed.

End Grouping.

Lemma partition_perm {A : Type} (p : A -> bool) (l : list A) :
  Permutation (filter p l ++ filter (fun a => negb (p a)) l) l.
Proof.
  induction l as [| a l IH]; simpl; [reflexivity |].
  destruct (p a); simpl.
  - now apply perm_skip.
  - rewrite <- Permutation_middle. now apply perm_skip.
Qed.

Lemma Object_entries_perm (summary : Summary) :
  Permutation (Object_entries summary) summary.
Proof.
  unfold Object_entries. rewrite Array_sort_perm. apply partition_perm.
Qed.

Lemma summary_rows_perm (summary : Summary) :
  Permutation (summary_rows summary) summary.
Proof.
  unfold summary_rows. rewrite Array_sort_perm. apply Object_entries_perm.
Qed.

Lemma summary_rows_sorted (summary : Summary) :
  numeric summary -> StronglySorted not_below (summary_rows summary).
Proof.
  intros Hnum. unfold numeric in Hnum.
  assert (Hrows : Forall (fun entry : string * Value =>
                            exists z, snd entry = Number (Num z))
                    (Object_entries summary)).
  { apply Permutation_Forall with summary; [| assumption].
    symmetry. apply Object_entries_perm. }
  apply StronglySorted_impl
    with (R := fun a b =>
                 order_of (js_sub (to_number (snd b)) (to_number (snd a)))
                 <= 0).
  - intros a b Ha Hb. unfold not_below.
    assert (Hin : forall e, In e (summary_rows summary) ->
                            exists z, snd e = Number (Num z)).
    { intros e He. rewrite Forall_forall in Hnum. apply Hnum.
      apply Permutation_in with (summary_rows summary);
        [apply summary_rows_perm | assumption]. }
    destruct (Hin a Ha) as [x ->]. destruct (Hin b Hb) as [y ->].
    simpl to_number. now rewrite js_sub_order.
  - unfold summary_rows.
    apply Array_sort_sorted
      with (P := fun entry : string * Value =>
                   exists z, snd entry = Number (Num z)).
    + intros a b [x ->] [y ->]. simpl to_number.
      rewrite js_sub_order. intros H.
      destruct (Z.le_gt_cases x y) as [L | G]; [assumption |].
      exfalso. assert (X : order_of (js_sub (Num y) (Num x)) <= 0)
        by (apply js_sub_order; lia). lia.
    + intros a b c [x ->] [y ->] [z ->]. simpl to_number.
      rewrite !js_sub_order. lia.
    + assumption.
Qed.

(** C6.  For records whose amounts are integers with absolute values
    below 2^53 in sum, [calculateTotal] is the sum of the amounts, [0]
    for no record.  If moreover no category is the name of a property of
    [Object.prototype], the summary by category has one property for each
    category that occurs and for no other name, holding the sum of the
    amounts of the records of that category; the rows shown are those
    properties, ordered from the largest sum to the smallest.  The three
    records of the specification give the total 180 and the rows 食費 150,
    交通 30 in this order. *)
Theorem aggregation_spec :
  forall (records : list Expense),
    safe_amounts records ->
    let summary := calculateCategorySummary records in
    calculateTotal records = Num (total_of records)
    /\ calculateTotal [] = Num 0
    /\ (own_names category records ->
        (forall c, In c (map fst summary) <-> In c (map category records))
        /\ NoDup (map fst summary)
        /\ (forall c, In c (map category records) ->
                      prop_get summary c
                      = Own (Number (Num (total_in c records))))
        /\ Permutation (summary_rows summary) summary
        /\ StronglySorted not_below (summary_rows summary))
    /\ (forall r1 r2 r3 : Expense,
           category r1 = "食費" -> amount r1 = Num 100 ->
           category r2 = "食費" -> amount r2 = Num 50 ->
           category r3 = "交通" -> amount r3 = Num 30 ->
           calculateTotal [r1; r2; r3] = Num 180
           /\ calculateCategorySummary [r1; r2; r3]
              = [("食費", Number (Num 150)); ("交通", Number (Num 30))]
           /\ summary_rows (calculateCategorySummary [r1; r2; r3])
              = [("食費", Number (Num 150)); ("交通", Number (Num 30))]).
Proof.
  intros records Hsafe summary.
  split.
  { destruct Hsafe as [Hint Hb]. unfold calculateTotal.
    rewrite calculateTotal_from; [reflexivity | assumption | simpl; lia]. }
  split; [reflexivity |].
  split.
  { intros Hplain.
    assert (Hsum : summary = fold_left (entered category) records [])
      by (apply grouped_summary; assumption).
    assert (Hget : forall c,
               own summary c
               = if existsb (fun r => (category r =? c)%string) records
                 then Some (Number (Num (total_in c records))) else None).
    { intros c. rewrite Hsum, grouped_from. reflexivity. }
    assert (Hnd : NoDup (map fst summary)).
    { rewrite Hsum. apply grouped_NoDup. constructor. }
    split.
    { intros c. rewrite own_keys, Hget, <- grouped_occurs.
      destruct (existsb _ records); split; congruence. }
    split; [exact Hnd |].
    split.
    { intros c Hc. apply grouped_occurs in Hc.
      unfold prop_get. now rewrite Hget, Hc. }
    split; [apply summary_rows_perm |].
    apply summary_rows_sorted. rewrite Hsum.
    apply entered_numeric. constructor. }
  intros r1 r2 r3 C1 A1 C2 A2 C3 A3.
  destruct r1, r2, r3. simpl in C1, A1, C2, A2, C3, A3. subst.
  repeat split; reflexivity.
Qed.

(** ** The sheet behind the endpoint *)

Lemma blank_row_falsy (row : Gas.Row) :
  Gas.blank_row row = true -> truthy (Gas.cell row 0) = false.
Proof.
  unfold Gas.blank_row, Gas.cell. destruct row as [| v row]; simpl.
  - reflexivity.
  - intros H. apply andb_true_iff in H. destruct H as [H _].
    destruct v as [| z | s]; simpl in H; try discriminate.
    apply String.eqb_eq in H. now subst.
Qed.

Lemma rows_beyond_last (sheet : Gas.Sheet) :
  Forall (fun row => Gas.blank_row row = true)
    (skipn (Gas.getLastRow sheet) sheet).
Proof.
  induction sheet as [| row rest IH]; simpl; [constructor |].
  destruct (Gas.getLastRow rest) as [| n] eqn:E; simpl in *.
  - destruct (Gas.blank_row row) eqn:B; simpl.
    + now constructor.
    + assumption.
  - assumption.
Qed.

Lemma filter_blank (p : Gas.Row -> bool) (rows : list Gas.Row) :
  (forall row, Gas.blank_row row = true -> p row = false) ->
  Forall (fun row => Gas.blank_row row = true) rows ->
  filter p rows = [].
Proof.
  intros Hp Hb. apply filter_none. rewrite Forall_forall in Hb.
  intros row Hrow. apply Hp. now apply Hb.
Qed.

(** The rows read by the loops, from the second one on, are all the rows
    of the sheet from the second one on that are not blank. *)
Lemma data_rows (p : Gas.Row -> bool) (sheet : Gas.Sheet) :
  (forall row, Gas.blank_row row = true -> p row = false) ->
  filter p (skipn 1 (Gas.getValues sheet)) = filter p (skipn 1 sheet).
Proof.
  intros Hp. pose proof (rows_beyond_last sheet) as Hb.
  unfold Gas.getValues.
  destruct (Gas.getLastRow sheet) as [| n] eqn:E.
  - simpl in Hb. simpl. symmetry. apply filter_blank; [assumption |].
    destruct sheet as [| row rest]; [constructor |].
    now inversion Hb.
  - destruct sheet as [| row rest]; [discriminate |].
    simpl in Hb. simpl.
    rewrite <- (firstn_skipn n rest) at 2.
    rewrite filter_app, (filter_blank p (skipn n rest)) by assumption.
    now rewrite app_nil_r.
Qed.

(** After [syncRecords] the sheet is a first row, the rows of the records
    written over blank rows, and blank rows. *)
Lemma syncRecords_sheet (sheet : Gas.Sheet) (records : list JsonRecord) :
  exists (top : Gas.Row) (tail : list Gas.Row),
    Forall (fun row => Gas.blank_row row = true) tail
    /\ fst (Gas.syncRecords sheet records)
       = top :: Gas.write_rows (map Gas.row_of records) tail.
Proof.
  pose proof (rows_beyond_last sheet) as Hb.
  unfold Gas.syncRecords. cbv zeta. simpl fst.
  destruct (Gas.getLastRow sheet) as [| [| n]] eqn:E.
  - simpl Nat.ltb. simpl Nat.eqb. cbv iota.
    simpl in Hb.
    unfold Gas.setupSheet, Gas.setValues. simpl.
    destruct sheet as [| row rest]; simpl.
    + exists Gas.header, []. split; [constructor |].
      destruct records; reflexivity.
    + inversion Hb as [| ? ? Hrow Hrest]; subst.
      exists (Gas.header ++ skipn 6 row), rest. split; [assumption |].
      destruct records; reflexivity.
  - simpl Nat.ltb. simpl Nat.eqb. cbv iota.
    destruct sheet as [| row rest]; [discriminate |].
    simpl in Hb. exists row, rest. split; [assumption |].
    destruct records; reflexivity.
  - destruct sheet as [| row rest]; [discriminate |].
    simpl in Hb.
    replace (1 <? S (S n))%nat with true by reflexivity.
    replace (S (S n) =? 0)%nat with false by reflexivity.
    unfold Gas.deleteRows. simpl.
    exists row, (skipn (S n) rest). split; [assumption |].
    destruct records; reflexivity.
Qed.

Lemma written_records (records : list JsonRecord) (tail : list Gas.Row) :
  Forall (fun row => Gas.blank_row row = true) tail ->
  map Gas.record_of
    (filter (fun row => truthy (Gas.cell row 0))
       (Gas.write_rows (map Gas.row_of records) tail))
  = map (fun r => Gas.record_of (Gas.row_of r))
      (filter (fun r => truthy (j_id r)) records).
Proof.
  revert tail. induction records as [| r records IH]; intros tail Hb.
  - simpl. rewrite filter_blank; [reflexivity | | assumption].
    apply blank_row_falsy.
  - destruct tail as [| old tail]; simpl.
    + unfold Gas.cell at 1. simpl.
      destruct (truthy (j_id r)); simpl; rewrite IH by constructor;
        reflexivity.
    + inversion Hb as [| ? ? Hold Htail]; subst.
      unfold Gas.cell at 1. simpl.
      destruct (truthy (j_id r)); simpl; rewrite IH by assumption;
        reflexivity.
Qed.

Lemma doGet_records (sheet : Gas.Sheet) :
  resp_records (Gas.doGet sheet)
  = map Gas.record_of
      (filter (fun row => truthy (Gas.cell row 0))
         (skipn 1 (Gas.getValues sheet))).
Proof. reflexivity. Qed.

(** What [doGet] returns after [syncRecords]: the records with a truthy
    identifier, in the order given, as their rows read back. *)
Lemma doGet_after_sync (sheet : Gas.Sheet) (records : list JsonRecord) :
  resp_records (Gas.doGet (fst (Gas.syncRecords sheet records)))
  = map (fun r => Gas.record_of (Gas.row_of r))
      (filter (fun r => truthy (j_id r)) records).
Proof.
  destruct (syncRecords_sheet sheet records) as [top [tail [Hb E]]].
  rewrite doGet_records, data_rows by apply blank_row_falsy.
  rewrite E. simpl skipn. now apply written_records.
Qed.

Lemma toJSON_read_back (r : Expense) :
  Gas.record_of (Gas.row_of (toJSON r)) = toJSON r.
Proof.
  unfold Gas.record_of, Gas.row_of, Gas.cell, toJSON, val_or_empty. simpl.
  f_equal.
  destruct (truthy_str (memo r)) eqn:E; simpl; [now rewrite E |].
  apply truthy_str_false in E. now rewrite E.
Qed.

Lemma fetched_records (data : Response) (w : World) (l : list JsonRecord) :
  fst (fetchRecordsFromSpreadsheet (Json data) w) = Some l ->
  success data = true /\ l = resp_records data.
Proof.
  destruct w as [recs cats flt url enabled dlg con snt]. page_unfold.
  destruct (negb enabled || negb (truthy_str url)); [discriminate |].
  destruct (success data); [| discriminate].
  intros H. inversion H. now split.
Qed.

Lemma sync_then_fetch_run (records : list Expense) (sheet : Gas.Sheet)
  (w : World) :
  SPREADSHEET_ENABLED w = true -> GAS_WEB_APP_URL w <> "" ->
  fst (sync_then_fetch records sheet w)
  = Some
      (resp_records
         (Gas.doGet (fst (Gas.syncRecords sheet (map toJSON records))))).
Proof.
  intros Hon Hurl. apply truthy_str_true in Hurl.
  destruct w as [recs cats flt url enabled dlg con snt].
  simpl in Hon, Hurl. subst enabled.
  cbv beta iota zeta delta
    [sync_then_fetch Gas.serve Gas.doPost Gas.answer]. page_unfold.
  rewrite Hurl. cbv beta iota zeta delta [negb orb fst snd success].
  rewrite Hurl. reflexivity.
Qed.

(** C5, as the code has it.  With the bridge switched on and records whose
    identifiers are not empty, a synchronisation followed by a fetch from
    the same endpoint returns the records pushed, in the order pushed;
    hence the same set of records. *)
Theorem sync_then_fetch_roundtrip :
  forall (records : list Expense) (sheet : Gas.Sheet) (w : World),
    SPREADSHEET_ENABLED w = true ->
    GAS_WEB_APP_URL w <> "" ->
    (forall r, In r records -> id r <> "") ->
    fst (sync_then_fetch records sheet w) = Some (map toJSON records)
    /\ (forall fetched,
           fst (sync_then_fetch records sheet w) = Some fetched ->
           forall j, In j fetched <-> In j (map toJSON records)).
Proof.
  intros records sheet w Hon Hurl Hids.
  assert (Hrun : fst (sync_then_fetch records sheet w)
                 = Some (map toJSON records)).
  { rewrite sync_then_fetch_run by assumption. f_equal.
    rewrite doGet_after_sync, filter_all.
    - rewrite map_map. apply map_ext. intros r. apply toJSON_read_back.
    - intros j Hj. apply in_map_iff in Hj. destruct Hj as [r [<- Hr]].
      simpl. apply truthy_str_true. now apply Hids. }
  split; [exact Hrun |].
  intros fetched Hf. rewrite Hrun in Hf. inversion Hf. reflexivity.
Qed.

(** C8.  The answer of [doGet] reports success and its records are the rows
    after the first whose first cell is truthy, in their order; so every
    record of the answer, and every record that
    [fetchRecordsFromSpreadsheet] hands over, has an identifier that is
    truthy, not the empty string in particular, and a record synchronised
    with an empty identifier is in no later answer. *)
Theorem doGet_skips_empty_id :
  forall (sheet : Gas.Sheet),
    success (Gas.doGet sheet) = true
    /\ resp_records (Gas.doGet sheet)
       = map Gas.record_of
           (filter (fun row => truthy (Gas.cell row 0))
              (skipn 1 (Gas.getValues sheet)))
    /\ (forall r, In r (resp_records (Gas.doGet sheet)) ->
                  truthy (j_id r) = true /\ j_id r <> VStr "")
    /\ (forall (w : World) (fetched : list JsonRecord),
           fst (fetchRecordsFromSpreadsheet (Json (Gas.doGet sheet)) w)
           = Some fetched ->
           forall r, In r fetched ->
                     truthy (j_id r) = true /\ j_id r <> VStr "")
    /\ (forall (records : list JsonRecord) (r : JsonRecord),
           In r (resp_records
                   (Gas.doGet (fst (Gas.syncRecords sheet records)))) ->
           j_id r <> VStr "").
Proof.
  assert (Hall : forall sheet r,
             In r (resp_records (Gas.doGet sheet)) ->
             truthy (j_id r) = true /\ j_id r <> VStr "").
  { intros sheet r Hr. rewrite doGet_records in Hr.
    apply in_map_iff in Hr. destruct Hr as [row [<- Hrow]].
    apply filter_In in Hrow. destruct Hrow as [_ Htruthy].
    simpl. split; [assumption |].
    intros E. rewrite E in Htruthy. discriminate. }
  intros sheet. split; [reflexivity |]. split; [reflexivity |].
  split; [apply Hall |]. split.
  - intros w fetched Hf r Hr. apply fetched_records in Hf.
    destruct Hf as [_ ->]. now apply (Hall sheet).
  - intros records r Hr. now apply (Hall _ r Hr).
Qed.

(** ** Worked instances *)

Ltac one_of_these :=
  let r := fresh "r" in
  let H := fresh "H" in
  intros r H; simpl in H;
  repeat (destruct H as [H | H]; [subst r; vm_compute; discriminate |]);
  contradiction.

(** Deleting ["m1b"] from three records with different identifiers leaves
    two; deleting an identifier that is not there leaves the three. *)
Lemma deleteExpense_removes_matching_witness :
  S (length (records_of (snd (deleteExpense "m1b" NetworkError trio))))
  = length (records_of trio)
  /\ records_of (snd (deleteExpense "zz" NetworkError trio)) = records_of trio.
Proof.
  destruct (deleteExpense_removes_matching trio "m1b" NetworkError)
    as (_ & Hone & _ & _).
  destruct (deleteExpense_removes_matching trio "zz" NetworkError)
    as (_ & _ & Hnone & _).
  split.
  - apply Hone.
    + vm_compute.
      repeat (constructor; [simpl; intuition discriminate |]). constructor.
    + exists train. split; [simpl; auto | reflexivity].
  - apply Hnone. one_of_these.
Defined.

(** On a page with two records of identifier ["m1a"], one call removes both
    of them, so the list is not shorter by one; and for an identifier that
    no record has, the call returns what it returns for one that is there,
    and shows and logs nothing. *)
Lemma deleteExpense_counterexample :
  (length (records_of twin_page) = 2%nat
   /\ length (records_of (snd (deleteExpense "m1a" NetworkError twin_page)))
      = 0%nat)
  /\ ((forall r, In r (records_of twin_page) -> id r <> "zz")
      /\ fst (deleteExpense "zz" NetworkError twin_page)
         = fst (deleteExpense "m1a" NetworkError twin_page)
      /\ dialogs (snd (deleteExpense "zz" NetworkError twin_page))
         = dialogs twin_page
      /\ console (snd (deleteExpense "zz" NetworkError twin_page))
         = console twin_page).
Proof.
  split; [split; reflexivity |].
  split; [one_of_these |].
  repeat split.
Qed.

(** Updating ["m1b"] among three records replaces the second one; updating
    an identifier that is not there changes nothing. *)
Lemma updateExpense_frame_witness :
  fst (updateExpense "m1b" edited NetworkError trio)
  = Some (replaced train edited)
  /\ records_of (snd (updateExpense "m1b" edited NetworkError trio))
     = [lunch; replaced train edited; supper]
  /\ updateExpense "zz" edited NetworkError trio = (None, trio).
Proof.
  destruct (updateExpense_frame trio "m1b" edited NetworkError)
    as [Hfound _].
  destruct (updateExpense_frame trio "zz" edited NetworkError)
    as [_ Hmissing].
  destruct (Hfound [lunch] train [supper]) as (H1 & _ & H3 & _).
  - reflexivity.
  - reflexivity.
  - one_of_these.
  - split; [exact H1 | split; [exact H3 |]].
    apply Hmissing. one_of_these.
Defined.

(** The example of the specification for the listing, on a host that
    compares the code units. *)
Lemma getFilteredRecords_spec_witness :
  fst (getFilteredRecords by_code_units week) = [power; supper; train].
Proof.
  destruct (getFilteredRecords_spec by_code_units week
              by_code_units_consistent (by_code_units_tells_apart _))
    as (_ & _ & _ & _ & _ & H).
  apply (H lunch train supper power gift); try reflexivity.
  apply by_code_units_agrees.
Defined.

(** On a host that puts ["a"] before ["B"], as the collations of the
    browsers do, two records of one day with these identifiers are listed
    with ["B"] first, although ["a"] is the larger of the two in the
    lexicographic order of the code units: the listing is not in the
    order of the specification. *)
Lemma getFilteredRecords_counterexample :
  letters_first "B" "a" = 1
  /\ fst (getFilteredRecords letters_first
            (page [small; capital] default_filters false))
     = [capital; small]
  /\ (date small = date capital
      /\ str_ge (id small) (id capital) = true
      /\ str_ge (id capital) (id small) = false)
  /\ ~ StronglySorted newer_or_same
        (fst (getFilteredRecords letters_first
                (page [small; capital] default_filters false))).
Proof.
  split; [reflexivity |]. split; [reflexivity |].
  split; [repeat split |].
  intros H. change (StronglySorted newer_or_same [capital; small]) in H.
  inversion H as [| ? ? _ Hfirst]; subst.
  inversion Hfirst as [| ? ? Hbad _]; subst.
  destruct Hbad as [[Hne _] | [_ Hge]].
  - apply Hne. reflexivity.
  - vm_compute in Hge. discriminate.
Qed.

(** Two records pushed over a sheet that held another one come back, and
    only they. *)
Lemma sync_then_fetch_roundtrip_witness :
  fst (sync_then_fetch [lunch; train] stale_sheet trio)
  = Some [toJSON lunch; toJSON train].
Proof.
  refine (proj1 (sync_then_fetch_roundtrip [lunch; train] stale_sheet trio
                   _ _ _)).
  - reflexivity.
  - vm_compute. discriminate.
  - one_of_these.
Defined.

(** A record without identifier is pushed and the fetch that follows
    returns no record at all. *)
Lemma sync_then_fetch_counterexample :
  SPREADSHEET_ENABLED trio = true
  /\ GAS_WEB_APP_URL trio <> ""
  /\ fst (sync_then_fetch [nameless] [Gas.header] trio) = Some []
  /\ ~ (forall j, In j (map toJSON [nameless]) -> In j []).
Proof.
  split; [reflexivity |]. split; [vm_compute; discriminate |].
  split; [reflexivity |].
  intros H. apply (H (toJSON nameless)). now left.
Qed.

(** The example of the specification for the aggregates. *)
Lemma aggregation_spec_witness :
  calculateTotal [lunch; supper; train] = Num 180
  /\ summary_rows (calculateCategorySummary [lunch; supper; train])
     = [("食費", Number (Num 150)); ("交通", Number (Num 30))]
  /\ prop_get (calculateCategorySummary [lunch; supper; train]) "食費"
     = Own (Number (Num 150)).
Proof.
  assert (Hsafe : safe_amounts [lunch; supper; train]).
  { split; [repeat constructor; vm_compute; discriminate |].
    vm_compute. reflexivity. }
  destruct (aggregation_spec [lunch; supper; train] Hsafe)
    as (_ & _ & Hsummary & H).
  destruct (H lunch supper train) as (T & _ & R); try reflexivity.
  split; [assumption |]. split; [assumption |].
  destruct Hsummary as (_ & _ & Hsum & _).
  - repeat constructor.
  - apply (Hsum "食費"). now left.
Defined.

(** A record of the category [__proto__] leaves no property in the
    summary, where the specification has one for every category that
    occurs, while its amount is in the total.  And from 2^53 on the sums
    are rounded: the total of 2^53, 1 and 1 is 2^53, not the sum of the
    amounts, while the rows of the two categories show 2^53 and 2. *)
Lemma aggregation_counterexample :
  (In "__proto__" (map category [odd_name; tip])
   /\ calculateCategorySummary [odd_name; tip] = [("食費", Number (Num 5))]
   /\ prop_get (calculateCategorySummary [odd_name; tip]) "__proto__"
      = Prototype
   /\ calculateTotal [odd_name; tip] = Num 105)
  /\ (total_of [fortune; yen; yen] = 9007199254740994
      /\ calculateTotal [fortune; yen; yen] = Num 9007199254740992
      /\ summary_rows (calculateCategorySummary [fortune; yen; yen])
         = [("食費", Number (Num 9007199254740992));
            ("交通", Number (Num 2))]).
Proof.
  split.
  - split; [now left |]. repeat split.
  - repeat split.
Qed.

(** A name of white space only and a name already stored are refused; a
    new name is stored without the white space around it. *)
Lemma addCategory_spec_witness :
  fst (addCategory "　 " trio) = false
  /\ fst (addCategory " 食費 " trio) = false
  /\ fst (addCategory " 書籍 " trio) = true
  /\ st_categories (snd (addCategory " 書籍 " trio))
     = Some ["食費"; "交通"; "光熱費"; "その他"; "書籍"].
Proof.
  destruct (addCategory_spec "　 " trio) as (Hblank & _ & _).
  destruct (addCategory_spec " 食費 " trio) as (_ & Hdup & _).
  destruct (addCategory_spec " 書籍 " trio) as (_ & _ & Hnew).
  split; [| split].
  - apply Hblank. right. reflexivity.
  - apply Hdup; [vm_compute; discriminate | vm_compute; auto].
  - destruct Hnew as [Hok Hstate].
    + vm_compute. discriminate.
    + vm_compute. intuition discriminate.
    + split; [exact Hok |].
      unfold local_state in Hstate. inversion Hstate as [[Hr Hc Hf]].
      reflexivity.
Defined.

(** The record read from a sheet whose first data row has no identifier is
    the one of the second data row. *)
Lemma doGet_skips_empty_id_witness :
  resp_records (Gas.doGet stale_sheet) = [toJSON train]
  /\ j_id (toJSON train) <> VStr "".
Proof.
  split; [reflexivity |].
  destruct (doGet_skips_empty_id stale_sheet) as (_ & _ & H & _).
  apply (H (toJSON train)). vm_compute. now left.
Defined.

(** Removing a category that is neither used nor stored succeeds and the
    stored list stays as it is. *)
Lemma deleteCategory_unreferenced_witness :
  fst (deleteCategory "旅行" false trio) = true
  /\ st_categories (snd (deleteCategory "旅行" false trio))
     = st_categories trio.
Proof.
  destruct (deleteCategory_unreferenced "旅行" false trio)
    as (Hok & _ & _ & Hsame & _).
  - one_of_these.
  - split; [exact Hok |]. apply Hsame. vm_compute. intuition discriminate.
Defined.

(** * Further properties of the code *)

(** ** The bridge *)

Lemma post_off (w : World) (body : PostBody) (failure : string)
  (net : Fetched) :
  SPREADSHEET_ENABLED w = false \/ GAS_WEB_APP_URL w = "" ->
  post_to_spreadsheet body failure net w = (false, w).
Proof.
  destruct w as [recs cats flt url enabled dlg con snt]. simpl.
  intros [-> | ->]; page_unfold; [reflexivity |].
  now destruct enabled.
Qed.

Lemma post_on (w : World) (body : PostBody) (failure : string)
  (net : Fetched) :
  bridge_on w ->
  fst (post_to_spreadsheet body failure net w) = acknowledged net
  /\ sent (snd (post_to_spreadsheet body failure net w))
     = sent w ++ [Post (GAS_WEB_APP_URL w) body]
  /\ length (console (snd (post_to_spreadsheet body failure net w)))
     = (length (console w) + complaints net)%nat
  /\ dialogs (snd (post_to_spreadsheet body failure net w)) = dialogs w
  /\ local_state (snd (post_to_spreadsheet body failure net w))
     = local_state w.
Proof.
  destruct w as [recs cats flt url enabled dlg con snt].
  intros [Hon Hurl]. simpl in Hon, Hurl. subst enabled.
  apply truthy_str_true in Hurl. page_unfold. rewrite Hurl.
  destruct net; simpl; rewrite ?length_app; simpl;
    repeat apply conj; try reflexivity; lia.
Qed.

(** X1.  With the bridge switched off, or without an endpoint, the five
    helpers of the bridge give up at once: the result is [false], [null]
    for the fetch, and the page is exactly as before: no request, no
    line on the console, no dialog. *)
Theorem bridge_off_is_silent :
  forall (w : World) (net : Fetched) (record : Expense) (rid : string)
         (records : list Expense),
    SPREADSHEET_ENABLED w = false \/ GAS_WEB_APP_URL w = "" ->
    fetchRecordsFromSpreadsheet net w = (None, w)
    /\ addRecordToSpreadsheet record net w = (false, w)
    /\ updateRecordInSpreadsheet record net w = (false, w)
    /\ deleteRecordFromSpreadsheet rid net w = (false, w)
    /\ syncRecordsToSpreadsheet records net w = (false, w).
Proof.
  intros w net record rid records Hoff.
  split; [| repeat split; now apply post_off].
  destruct w as [recs cats flt url enabled dlg con snt]. simpl in Hoff.
  destruct Hoff as [-> | ->]; page_unfold; [reflexivity |].
  now destruct enabled.
Qed.

(** X2.  With the bridge switched on, each POST helper sends exactly one
    request, to the endpoint and with its own action and argument; it
    returns [true] only when the answer says [success], and a request that
    fails or an answer that is not JSON gives [false] and one line on the
    console.  Nothing of the local stores changes. *)
Theorem bridge_on_posts_once :
  forall (w : World) (net : Fetched) (record : Expense) (rid : string)
         (records : list Expense),
    bridge_on w ->
    let url := GAS_WEB_APP_URL w in
    let sends (run : bool * World) (body : PostBody) :=
      fst run = acknowledged net
      /\ sent (snd run) = sent w ++ [Post url body]
      /\ length (console (snd run))
         = (length (console w) + complaints net)%nat
      /\ dialogs (snd run) = dialogs w
      /\ local_state (snd run) = local_state w in
    sends (addRecordToSpreadsheet record net w) (ActAdd (toJSON record))
    /\ sends (updateRecordInSpreadsheet record net w)
         (ActUpdate (toJSON record))
    /\ sends (deleteRecordFromSpreadsheet rid net w) (ActDelete (VStr rid))
    /\ sends (syncRecordsToSpreadsheet records net w)
         (ActSync (map toJSON records)).
Proof.
  intros w net record rid records Hon url sends. subst sends url.
  repeat split; now apply post_on.
Qed.

(** X3.  A local mutation sends no request when the bridge is switched off
    or has no endpoint.  When it is on, an addition sends one request with
    the new record, a deletion one request with the identifier, whether or
    not a record had it, and an update one request with the updated record
    when a record was found and none when the result is [null]. *)
Theorem mutations_are_mirrored_once :
  forall (w : World) (x : ExpenseData) (fresh rid : string) (net : Fetched),
    (SPREADSHEET_ENABLED w = false \/ GAS_WEB_APP_URL w = "" ->
     sent (snd (addExpense x fresh net w)) = sent w
     /\ sent (snd (updateExpense rid x net w)) = sent w
     /\ sent (snd (deleteExpense rid net w)) = sent w)
    /\ (bridge_on w ->
        sent (snd (addExpense x fresh net w))
        = sent w ++ [Post (GAS_WEB_APP_URL w)
                       (ActAdd (toJSON (fst (addExpense x fresh net w))))]
        /\ sent (snd (deleteExpense rid net w))
           = sent w ++ [Post (GAS_WEB_APP_URL w) (ActDelete (VStr rid))]
        /\ match fst (updateExpense rid x net w) with
           | Some updated =>
               sent (snd (updateExpense rid x net w))
               = sent w ++ [Post (GAS_WEB_APP_URL w)
                              (ActUpdate (toJSON updated))]
           | None => sent (snd (updateExpense rid x net w)) = sent w
           end).
Proof.
  intros w x fresh rid net.
  destruct w as [recs cats flt url enabled dlg con snt]. split.
  - simpl. intros Hoff.
    assert (Hguard : enabled = false \/ truthy_str url = false).
    { destruct Hoff as [-> | ->]; [now left | now right]. }
    clear Hoff. destruct enabled.
    + destruct Hguard as [Hf | Hu]; [discriminate |].
      page_unfold. repeat apply conj; rewrite ?Hu; try reflexivity.
      destruct (findIndex _ _) as [i |]; [| reflexivity].
      destruct (nth_error _ i); [| reflexivity].
      now rewrite Hu.
    + page_unfold. repeat apply conj; try reflexivity.
      destruct (findIndex _ _) as [i |]; [| reflexivity].
      now destruct (nth_error _ i).
  - intros [Hon Hurl]. simpl in Hon, Hurl. subst enabled.
    apply truthy_str_true in Hurl. page_unfold.
    repeat apply conj.
    + rewrite Hurl. destruct net; reflexivity.
    + rewrite Hurl. destruct net; reflexivity.
    + destruct (findIndex _ _) as [i |]; [| reflexivity].
      destruct (nth_error _ i) as [old |]; [| reflexivity].
      rewrite Hurl. destruct net; reflexivity.
Qed.

(** ** The record store: identifiers, composition, lookup *)

Lemma addExpense_local (w : World) (x : ExpenseData) (fresh : string)
  (net : Fetched) :
  fst (addExpense x fresh net w) = created x fresh
  /\ local_state (snd (addExpense x fresh net w))
     = (Some (records_of w ++ [created x fresh]),
        st_categories w, st_filters w).
Proof.
  unfold created. rewrite <- (or_empty_id (d_memo x)).
  destruct w as [recs cats flt url enabled dlg con snt]. page_unfold.
  destruct enabled, (truthy_str url), net; split; reflexivity.
Qed.

Lemma findIndex_found {A : Type} (p : A -> bool) (l : list A) (i : nat) :
  findIndex p l = Some i ->
  exists before x after,
    l = before ++ x :: after /\ length before = i /\ p x = true
    /\ (forall a, In a before -> p a = false).
Proof.
  revert i. induction l as [| a l IH]; simpl; intros i H; [discriminate |].
  destruct (p a) eqn:E.
  - inversion H; subst. exists [], a, l. repeat split; auto.
    intros b [].
  - destruct (findIndex p l) as [j |] eqn:F; [| discriminate].
    inversion H; subst.
    destruct (IH j eq_refl) as (before & x & after & -> & <- & Hx & Hb).
    exists (a :: before), x, after. repeat split; auto.
    intros b [<- | Hin]; auto.
Qed.

Lemma findIndex_missing {A : Type} (p : A -> bool) (l : list A) :
  findIndex p l = None -> forall a, In a l -> p a = false.
Proof.
  induction l as [| a l IH]; simpl; intros H b Hb; [contradiction |].
  destruct (p a) eqn:E; [discriminate |].
  destruct (findIndex p l); [discriminate |].
  destruct Hb as [<- | Hb]; auto.
Qed.

(** An update at the first record with the identifier. *)
Lemma updateExpense_at (w : World) (rid : string) (x : ExpenseData)
  (net : Fetched) (before : list Expense) (old : Expense)
  (after : list Expense) :
  records_of w = before ++ old :: after ->
  id old = rid ->
  (forall r, In r before -> id r <> rid) ->
  fst (updateExpense rid x net w) = Some (replaced old x)
  /\ local_state (snd (updateExpense rid x net w))
     = (Some (before ++ replaced old x :: after),
        st_categories w, st_filters w).
Proof.
  intros Hrecs Hid Hbefore.
  unfold replaced. rewrite <- (or_empty_id (d_memo x)).
  destruct w as [recs cats flt url enabled dlg con snt]. page_unfold.
  rewrite Hrecs.
  rewrite (findIndex_split _ before old after).
  - rewrite nth_error_split, set_at_split.
    destruct enabled, (truthy_str url), net; simpl; auto.
  - intros a Ha. apply String.eqb_neq. now apply Hbefore.
  - now apply String.eqb_eq.
Qed.

Lemma updateExpense_missing (w : World) (rid : string) (x : ExpenseData)
  (net : Fetched) :
  (forall r, In r (records_of w) -> id r <> rid) ->
  updateExpense rid x net w = (None, w).
Proof.
  intros Habsent.
  destruct w as [recs cats flt url enabled dlg con snt]. page_unfold.
  rewrite findIndex_none; [reflexivity |].
  intros a Ha. apply String.eqb_neq. now apply Habsent.
Qed.

(** Either a first record with the identifier exists, or none does. *)
Lemma first_with_id (rid : string) (l : list Expense) :
  (exists before old after,
      l = before ++ old :: after /\ id old = rid
      /\ (forall r, In r before -> id r <> rid))
  \/ (forall r, In r l -> id r <> rid).
Proof.
  destruct (findIndex (fun r => (id r =? rid)%string) l) as [i |] eqn:F.
  - left. apply findIndex_found in F.
    destruct F as (before & old & after & -> & _ & Hx & Hb).
    exists before, old, after. repeat split.
    + now apply String.eqb_eq.
    + intros r Hr. apply String.eqb_neq. now apply Hb.
  - right. intros r Hr. apply String.eqb_neq.
    now apply (findIndex_missing _ _ F).
Qed.

Lemma distinct_ids_kept (keep : Expense -> bool) :
  forall records : list Expense,
    NoDup (map id records) -> NoDup (map id (filter keep records)).
Proof.
  intros records. induction records as [| r rest IH]; simpl; intros Hids.
  - constructor.
  - apply NoDup_cons_iff in Hids. destruct Hids as [Hnew Hrest].
    destruct (keep r); simpl; [| now apply IH].
    apply NoDup_cons; [| now apply IH].
    intros Hin. apply Hnew.
    apply in_map_iff in Hin. destruct Hin as (r' & Hsame & Hin).
    apply filter_In in Hin. rewrite <- Hsame.
    apply in_map. apply Hin.
Qed.

(** X4.  An update never changes the identifiers of the stored records,
    nor their order; a deletion keeps them distinct; an addition keeps them
    distinct exactly when the identifier drawn is not yet in the store:
    [addExpense] stores a second record under an identifier already
    there. *)
Theorem identifiers_of_the_store :
  forall (w : World) (x : ExpenseData) (fresh rid : string) (net : Fetched),
    map id (records_of (snd (updateExpense rid x net w)))
    = map id (records_of w)
    /\ (NoDup (map id (records_of w)) ->
        NoDup (map id (records_of (snd (deleteExpense rid net w)))))
    /\ (NoDup (map id (records_of w)) ->
        (NoDup (map id (records_of (snd (addExpense x fresh net w))))
         <-> ~ In fresh (map id (records_of w)))).
Proof.
  intros w x fresh rid net. split; [| split].
  - destruct (first_with_id rid (records_of w))
      as [(before & old & after & Hrecs & Hid & Hb) | Habsent].
    + destruct (updateExpense_at w rid x net before old after Hrecs Hid Hb)
        as [_ Hst].
      rewrite (records_of_local _ _ _ _ Hst), Hrecs.
      now rewrite !map_app.
    + now rewrite updateExpense_missing.
  - intros Hnd.
    rewrite (records_of_local _ _ _ _ (deleteExpense_local w rid net)).
    now apply distinct_ids_kept.
  - intros Hnd.
    destruct (addExpense_local w x fresh net) as [_ Hst].
    rewrite (records_of_local _ _ _ _ Hst), map_app. simpl.
    split.
    + intros H Hin. apply NoDup_remove_2 in H. apply H.
      now rewrite app_nil_r.
    + intros Hfresh. apply NoDup_app; [assumption | | ].
      * constructor; [intros [] | constructor].
      * intros a Ha [<- | []]. now apply Hfresh.
Qed.

(** X5.  Deleting the identifier of a record just added, when no older
    record had it, gives back the list of records there was before the
    addition, whatever the two bridge calls end in. *)
Theorem add_then_delete :
  forall (w : World) (x : ExpenseData) (fresh : string) (n1 n2 : Fetched),
    ~ In fresh (map id (records_of w)) ->
    records_of (snd (deleteExpense fresh n2 (snd (addExpense x fresh n1 w))))
    = records_of w.
Proof.
  intros w x fresh n1 n2 Hfresh.
  rewrite (records_of_local _ _ _ _ (deleteExpense_local _ fresh n2)).
  destruct (addExpense_local w x fresh n1) as [_ Hst].
  rewrite (records_of_local _ _ _ _ Hst), filter_app. simpl.
  rewrite String.eqb_refl. simpl. rewrite app_nil_r.
  apply filter_all. intros r Hr. apply negb_true_iff, String.eqb_neq.
  intros E. apply Hfresh. rewrite <- E. now apply in_map.
Qed.

(** X6.  Sending the same edit a second time changes nothing: the second
    [updateExpense] returns what the first returned and leaves the local
    stores as the first left them. *)
Theorem updateExpense_idempotent :
  forall (w : World) (rid : string) (x : ExpenseData) (n1 n2 : Fetched),
    let first := updateExpense rid x n1 w in
    let second := updateExpense rid x n2 (snd first) in
    fst second = fst first
    /\ local_state (snd second) = local_state (snd first).
Proof.
  intros w rid x n1 n2 first second. subst second first.
  destruct (first_with_id rid (records_of w))
    as [(before & old & after & Hrecs & Hid & Hb) | Habsent].
  - destruct (updateExpense_at w rid x n1 before old after Hrecs Hid Hb)
      as [Hret Hst].
    pose proof (records_of_local _ _ _ _ Hst) as Hrecs1.
    destruct (updateExpense_at _ rid x n2 before (replaced old x) after
                Hrecs1 Hid Hb) as [Hret2 Hst2].
    rewrite Hret, Hret2, Hst2, Hst.
    unfold local_state in Hst. inversion Hst as [[Hr Hc Hf]].
    split; [reflexivity | now rewrite Hr].
  - rewrite (updateExpense_missing w rid x n1 Habsent). simpl.
    now rewrite (updateExpense_missing w rid x n2 Habsent).
Qed.

Lemma find_split {A : Type} (p : A -> bool) (before : list A) (x : A)
  (after : list A) :
  (forall a, In a before -> p a = false) -> p x = true ->
  find p (before ++ x :: after) = Some x.
Proof.
  induction before as [| b before IH]; simpl; intros Hb Hx.
  - now rewrite Hx.
  - rewrite (Hb b (or_introl eq_refl)). apply IH; auto.
Qed.

Lemma find_none {A : Type} (p : A -> bool) (l : list A) :
  (forall a, In a l -> p a = false) -> find p l = None.
Proof.
  induction l as [| a l IH]; simpl; intros H; [reflexivity |].
  rewrite (H a (or_introl eq_refl)). apply IH. auto.
Qed.

Lemma openEditModal_found (w : World) (rid : string) :
  fst (openEditModal rid w)
  = find (fun r => (id r =? rid)%string) (records_of w).
Proof.
  destruct w as [recs cats flt url enabled dlg con snt].
  unfold openEditModal. page_unfold.
  now destruct (find _ _).
Qed.

(** X7.  The edit form finds what the store operations left: the record
    just added, when its identifier was not in use; the record just
    updated; nothing, and an alert instead, for an identifier just
    deleted.  It opens for exactly the identifiers that [updateExpense]
    can find. *)
Theorem openEditModal_after_mutation :
  forall (w : World) (x : ExpenseData) (fresh rid : string) (net : Fetched),
    (~ In fresh (map id (records_of w)) ->
     fst (openEditModal fresh (snd (addExpense x fresh net w)))
     = Some (created x fresh))
    /\ (forall updated,
           fst (updateExpense rid x net w) = Some updated ->
           fst (openEditModal rid (snd (updateExpense rid x net w)))
           = Some updated)
    /\ fst (openEditModal rid (snd (deleteExpense rid net w))) = None
    /\ (fst (openEditModal rid w) = None
        <-> fst (updateExpense rid x net w) = None).
Proof.
  intros w x fresh rid net. split; [| split; [| split]].
  - intros Hfresh. rewrite openEditModal_found.
    destruct (addExpense_local w x fresh net) as [_ Hst].
    rewrite (records_of_local _ _ _ _ Hst).
    apply find_split; [| apply String.eqb_refl].
    intros r Hr. apply String.eqb_neq. intros E. apply Hfresh.
    rewrite <- E. now apply in_map.
  - intros updated Hret. rewrite openEditModal_found.
    destruct (first_with_id rid (records_of w))
      as [(before & old & after & Hrecs & Hid & Hb) | Habsent].
    + destruct (updateExpense_at w rid x net before old after Hrecs Hid Hb)
        as [Hret' Hst].
      rewrite (records_of_local _ _ _ _ Hst).
      rewrite Hret' in Hret. inversion Hret; subst updated.
      apply find_split; [| now apply String.eqb_eq].
      intros r Hr. apply String.eqb_neq. now apply Hb.
    + rewrite (updateExpense_missing w rid x net Habsent) in Hret.
      discriminate.
  - rewrite openEditModal_found.
    rewrite (records_of_local _ _ _ _ (deleteExpense_local w rid net)).
    apply find_none. intros r Hr. apply filter_In in Hr.
    destruct Hr as [_ Hr]. now apply negb_true_iff in Hr.
  - rewrite openEditModal_found.
    destruct (first_with_id rid (records_of w))
      as [(before & old & after & Hrecs & Hid & Hb) | Habsent].
    + destruct (updateExpense_at w rid x net before old after Hrecs Hid Hb)
        as [Hret _].
      rewrite Hret, Hrecs, find_split.
      * split; intros H; discriminate H.
      * intros r Hr. apply String.eqb_neq. now apply Hb.
      * now apply String.eqb_eq.
    + rewrite (updateExpense_missing w rid x net Habsent). simpl.
      rewrite find_none; [tauto |].
      intros r Hr. apply String.eqb_neq. now apply Habsent.
Qed.

(** ** The category store: confirmation, invariant, composition *)

Lemma addCategory_cases (name : string) (w : World) :
  if refused name w
  then fst (addCategory name w) = false
       /\ local_state (snd (addCategory name w)) = local_state w
  else fst (addCategory name w) = true
       /\ local_state (snd (addCategory name w))
          = (st_records w, Some (categories_of w ++ [trim name]),
             st_filters w).
Proof.
  destruct w as [recs cats flt url enabled dlg con snt].
  unfold refused. page_unfold.
  destruct (negb (truthy_str name) || (trim name =? "")%string); simpl.
  - split; reflexivity.
  - destruct (includes _ _); split; reflexivity.
Qed.

Lemma deleteCategory_cases (name : string) (answer : bool) (w : World) :
  dialogs (snd (deleteCategory name answer w))
  = dialogs w
    ++ (if in_use name w then [Confirm (in_use_message name)] else [])
  /\ if in_use name w && negb answer
     then fst (deleteCategory name answer w) = false
          /\ local_state (snd (deleteCategory name answer w)) = local_state w
     else fst (deleteCategory name answer w) = true
          /\ local_state (snd (deleteCategory name answer w))
             = (st_records w,
                Some (filter (fun cat => negb (cat =? name)%string)
                        (categories_of w)),
                st_filters w).
Proof.
  destruct w as [recs cats flt url enabled dlg con snt].
  unfold in_use. page_unfold.
  destruct (existsb _ _); simpl.
  - destruct answer; simpl; repeat split.
  - rewrite app_nil_r. repeat split.
Qed.

Lemma categories_of_local (w : World) (r : option (list Expense))
  (l : list string) (f : option FilterState) :
  local_state w = (r, Some l, f) -> categories_of w = l.
Proof.
  unfold local_state, categories_of, getStorageData. simpl.
  intros H. inversion H as [[Hr Hc Hf]]. now rewrite Hc.
Qed.

Lemma same_local_state (w w' : World) :
  local_state w' = local_state w ->
  records_of w' = records_of w /\ categories_of w' = categories_of w.
Proof.
  unfold local_state, records_of, categories_of, getStorageData. simpl.
  intros H. inversion H as [[Hr Hc Hf]]. now rewrite Hr, Hc.
Qed.

(** X8.  For a category that some record has, [deleteCategory] asks for
    confirmation, once.  On a refusal it returns [false] and the local
    stores are as before.  On a consent it returns [true] and removes the
    name from the stored list, while the records keep the category they
    had. *)
Theorem deleteCategory_in_use :
  forall (name : string) (answer : bool) (w : World),
    (exists r, In r (records_of w) /\ category r = name) ->
    dialogs (snd (deleteCategory name answer w))
    = dialogs w ++ [Confirm (in_use_message name)]
    /\ fst (deleteCategory name answer w) = answer
    /\ (answer = false ->
        local_state (snd (deleteCategory name answer w)) = local_state w)
    /\ (answer = true ->
        ~ In name (categories_of (snd (deleteCategory name answer w)))
        /\ records_of (snd (deleteCategory name answer w)) = records_of w
        /\ (exists r, In r (records_of (snd (deleteCategory name answer w)))
                      /\ category r = name)).
Proof.
  intros name answer w [r [Hr Hcat]].
  assert (Hused : in_use name w = true).
  { unfold in_use. apply existsb_exists. exists r.
    split; [assumption | now apply String.eqb_eq]. }
  destruct (deleteCategory_cases name answer w) as [Hdlg Hcases].
  rewrite Hused in Hdlg, Hcases. simpl in Hcases.
  split; [exact Hdlg |].
  destruct answer; simpl in Hcases; destruct Hcases as [Hret Hst].
  - split; [exact Hret |]. split; [discriminate |]. intros _.
    assert (Hrecs : records_of (snd (deleteCategory name true w))
                    = records_of w).
    { unfold local_state in Hst. inversion Hst as [[H1 H2 H3]].
      unfold records_of, getStorageData. simpl. now rewrite H1. }
    rewrite (categories_of_local _ _ _ _ Hst), Hrecs.
    split; [| split; [reflexivity | now exists r]].
    intros Hin. apply filter_In in Hin. destruct Hin as [_ Hin].
    now rewrite String.eqb_refl in Hin.
  - split; [exact Hret |]. split; [intros _; exact Hst | discriminate].
Qed.

Lemma includes_last (l : list string) (s : string) :
  includes (l ++ [s]) s = true.
Proof.
  apply includes_In, in_or_app. right. now left.
Qed.

Lemma filter_out_last (l : list string) (s : string) :
  ~ In s l ->
  filter (fun cat => negb (cat =? s)%string) (l ++ [s]) = l.
Proof.
  intros Hnotin. rewrite filter_app. simpl.
  rewrite String.eqb_refl. simpl. rewrite app_nil_r.
  apply filter_all. intros c Hc. apply negb_true_iff, String.eqb_neq.
  intros ->. now apply Hnotin.
Qed.

(** X9.  Both operations of the category store keep the stored list free
    of duplicates and of empty names, and [addCategory] never drops a name
    that was stored. *)
Theorem category_list_stays_clean :
  forall (name : string) (answer : bool) (w : World),
    NoDup (categories_of w) ->
    (forall c, In c (categories_of w) -> c <> "") ->
    (NoDup (categories_of (snd (addCategory name w)))
     /\ (forall c, In c (categories_of (snd (addCategory name w))) -> c <> "")
     /\ (forall c, In c (categories_of w) ->
                   In c (categories_of (snd (addCategory name w)))))
    /\ (NoDup (categories_of (snd (deleteCategory name answer w)))
        /\ (forall c,
               In c (categories_of (snd (deleteCategory name answer w))) ->
               c <> "")).
Proof.
  intros name answer w Hnd Hne. split.
  - pose proof (addCategory_cases name w) as H.
    destruct (refused name w) eqn:R; destruct H as [_ Hst].
    + destruct (same_local_state _ _ Hst) as [_ ->]. auto.
    + rewrite (categories_of_local _ _ _ _ Hst).
      unfold refused in R. apply orb_false_iff in R. destruct R as [R Hinc].
      apply orb_false_iff in R. destruct R as [_ Ht].
      apply String.eqb_neq in Ht.
      repeat split.
      * apply NoDup_app; [assumption | | ].
        -- constructor; [intros [] | constructor].
        -- intros c Hc [<- | []].
           apply includes_In in Hc. congruence.
      * intros c Hc. apply in_app_or in Hc.
        destruct Hc as [Hc | [<- | []]]; auto.
      * intros c Hc. apply in_or_app. now left.
  - destruct (deleteCategory_cases name answer w) as [_ H].
    destruct (in_use name w && negb answer); destruct H as [_ Hst].
    + destruct (same_local_state _ _ Hst) as [_ ->]. auto.
    + rewrite (categories_of_local _ _ _ _ Hst). split.
      * now apply NoDup_filter.
      * intros c Hc. apply filter_In in Hc. apply Hne. tauto.
Qed.

Lemma refused_same (name : string) (w w' : World) :
  categories_of w' = categories_of w -> refused name w' = refused name w.
Proof.
  unfold refused. now intros ->.
Qed.

(** X10.  [addCategory] called again with the same text always returns
    [false] and leaves the local stores as the first call left them:
    either the text was refused already, or its trimmed form is now
    stored. *)
Theorem addCategory_twice :
  forall (name : string) (w : World),
    let first := addCategory name w in
    let second := addCategory name (snd first) in
    fst second = false
    /\ local_state (snd second) = local_state (snd first).
Proof.
  intros name w first second. subst second first.
  pose proof (addCategory_cases name w) as H1.
  pose proof (addCategory_cases name (snd (addCategory name w))) as H2.
  destruct (refused name w) eqn:R; destruct H1 as [_ Hst].
  - destruct (same_local_state _ _ Hst) as [_ Hcats].
    rewrite (refused_same _ _ _ Hcats), R in H2. exact H2.
  - assert (R2 : refused name (snd (addCategory name w)) = true).
    { unfold refused. rewrite (categories_of_local _ _ _ _ Hst).
      rewrite includes_last. apply orb_true_r. }
    rewrite R2 in H2. exact H2.
Qed.

(** X11.  A name that [addCategory] accepted is gone again after
    [deleteCategory] of its trimmed form, and the stored list is the one
    there was before, provided that the deletion goes through: no record
    has the category, or the user consents. *)
Theorem add_then_delete_category :
  forall (name : string) (answer : bool) (w : World),
    fst (addCategory name w) = true ->
    in_use (trim name) w = false \/ answer = true ->
    let w1 := snd (addCategory name w) in
    fst (deleteCategory (trim name) answer w1) = true
    /\ categories_of (snd (deleteCategory (trim name) answer w1))
       = categories_of w.
Proof.
  intros name answer w Hadded Hgo w1. subst w1.
  pose proof (addCategory_cases name w) as H1.
  destruct (refused name w) eqn:R; destruct H1 as [Hret Hst];
    [congruence |].
  assert (Hrecs : records_of (snd (addCategory name w)) = records_of w).
  { unfold local_state in Hst. inversion Hst as [[H1 H2 H3]].
    unfold records_of, getStorageData. simpl. now rewrite H1. }
  destruct (deleteCategory_cases (trim name) answer
              (snd (addCategory name w))) as [_ H2].
  assert (Hthrough : in_use (trim name) (snd (addCategory name w))
                     && negb answer = false).
  { unfold in_use. rewrite Hrecs. fold (in_use (trim name) w).
    destruct Hgo as [-> | ->]; [reflexivity | apply andb_false_r]. }
  rewrite Hthrough in H2. destruct H2 as [Hret2 Hst2].
  split; [exact Hret2 |].
  rewrite (categories_of_local _ _ _ _ Hst2),
    (categories_of_local _ _ _ _ Hst).
  apply filter_out_last.
  unfold refused in R. apply orb_false_iff in R. destruct R as [_ Hinc].
  intros Hin. apply includes_In in Hin. congruence.
Qed.

(** ** Forms and buttons *)

Lemma truthy_all (a b c d : string) :
  negb (truthy_str a) || negb (truthy_str b) || negb (truthy_str c)
  || negb (truthy_str d) = false
  <-> a <> "" /\ b <> "" /\ c <> "" /\ d <> "".
Proof.
  rewrite !orb_false_iff, !negb_false_iff, !truthy_str_true. tauto.
Qed.

(** X12.  The form for a new expense stores nothing, sends nothing and
    shows one alert when the date, the category, the payment method or
    the amount is left empty; otherwise it does what [addExpense] does.
    So if the stored records all have a date, a category and a payment
    method, they still have after a submission. *)
Theorem submitExpense_validates :
  forall (x : ExpenseData) (fresh : string) (net : Fetched) (w : World),
    (d_date x = "" \/ d_category x = "" \/ d_paymentMethod x = ""
     \/ d_amount x = "" ->
     local_state (snd (submitExpense x fresh net w)) = local_state w
     /\ sent (snd (submitExpense x fresh net w)) = sent w
     /\ length (dialogs (snd (submitExpense x fresh net w)))
        = S (length (dialogs w)))
    /\ (d_date x <> "" -> d_category x <> "" -> d_paymentMethod x <> "" ->
        d_amount x <> "" ->
        snd (submitExpense x fresh net w) = snd (addExpense x fresh net w))
    /\ ((forall r, In r (records_of w) -> filled r) ->
        forall r, In r (records_of (snd (submitExpense x fresh net w))) ->
                  filled r).
Proof.
  intros x fresh net w.
  pose proof (truthy_all (d_date x) (d_category x) (d_paymentMethod x)
                (d_amount x)) as Hall.
  unfold submitExpense.
  destruct (negb (truthy_str (d_date x)) || negb (truthy_str (d_category x))
            || negb (truthy_str (d_paymentMethod x))
            || negb (truthy_str (d_amount x))) eqn:G.
  - assert (Hnot : ~ (d_date x <> "" /\ d_category x <> ""
                      /\ d_paymentMethod x <> "" /\ d_amount x <> "")).
    { intros H. apply Hall in H. discriminate. }
    destruct w as [recs cats flt url enabled dlg con snt]. page_unfold.
    split; [| split].
    + intros _. rewrite length_app. simpl. repeat split. lia.
    + intros. exfalso. apply Hnot. tauto.
    + auto.
  - destruct (proj1 Hall eq_refl) as (Hd & Hc & Hp & Ha).
    assert (Hsame : snd ((addExpense x fresh net ;; ret tt) w)
                    = snd (addExpense x fresh net w)).
    { unfold bind at 1, ret at 1.
      now destruct (addExpense x fresh net w). }
    rewrite Hsame. split; [| split].
    + intros [E | [E | [E | E]]]; congruence.
    + reflexivity.
    + intros Hfilled r Hr.
      destruct (addExpense_local w x fresh net) as [_ Hst].
      rewrite (records_of_local _ _ _ _ Hst) in Hr.
      apply in_app_or in Hr. destruct Hr as [Hr | [<- | []]]; auto.
      repeat split; assumption.
Qed.

(** X13.  A deletion that the user declines changes no local store and
    sends no request, for a record as for a category; one that the user
    accepts does what [deleteExpense] does, and for a category, what
    [deleteCategory] does with the second answer. *)
Theorem declined_deletions_change_nothing :
  forall (rid name : string) (override : bool) (net : Fetched) (w : World),
    (local_state (snd (clickDeleteExpense rid false net w)) = local_state w
     /\ sent (snd (clickDeleteExpense rid false net w)) = sent w)
    /\ (local_state (snd (clickDeleteCategory name false override w))
        = local_state w
        /\ sent (snd (clickDeleteCategory name false override w)) = sent w)
    /\ local_state (snd (clickDeleteExpense rid true net w))
       = local_state (snd (deleteExpense rid net w))
    /\ local_state (snd (clickDeleteCategory name true override w))
       = local_state (snd (deleteCategory name override w)).
Proof.
  intros rid name override net w.
  destruct w as [recs cats flt url enabled dlg con snt].
  unfold clickDeleteExpense, clickDeleteCategory. page_unfold.
  repeat apply conj; try reflexivity.
  - destruct enabled, (truthy_str url), net; reflexivity.
  - destruct (existsb _ _); [destruct override |]; reflexivity.
Qed.

(** X14.  The synchronisation button never changes a local store and
    always ends with exactly one alert.  It sends one request, carrying
    every stored record, when the bridge is switched on and has an
    endpoint, and none otherwise. *)
Theorem syncToSpreadsheet_reports :
  forall (net : Fetched) (w : World),
    local_state (snd (syncToSpreadsheet net w)) = local_state w
    /\ length (dialogs (snd (syncToSpreadsheet net w)))
       = S (length (dialogs w))
    /\ (bridge_on w ->
        sent (snd (syncToSpreadsheet net w))
        = sent w ++ [Post (GAS_WEB_APP_URL w)
                       (ActSync (map toJSON (records_of w)))])
    /\ (SPREADSHEET_ENABLED w = false \/ GAS_WEB_APP_URL w = "" ->
        sent (snd (syncToSpreadsheet net w)) = sent w).
Proof.
  intros net w. destruct w as [recs cats flt url enabled dlg con snt].
  unfold bridge_on, syncToSpreadsheet. simpl.
  destruct enabled; [destruct (truthy_str url) eqn:U |].
  - page_unfold. rewrite U. simpl. rewrite ?U. simpl.
    destruct net as [| | data]; [| | destruct (success data) eqn:S];
      simpl; try rewrite S; simpl; rewrite ?length_app; simpl;
      repeat apply conj; try reflexivity; try lia;
      try (intros [H | H]; [discriminate |];
           subst url; discriminate).
  - apply truthy_str_false in U. subst url. page_unfold. simpl.
    rewrite length_app. simpl. repeat apply conj; try reflexivity; try lia.
    intros [_ H]. congruence.
  - page_unfold. simpl. rewrite length_app. simpl.
    repeat apply conj; try reflexivity; try lia.
Qed.

(** ** Start of the page, settings, reset *)

(** X15.  After [initializeData] the three collections are stored, each
    with the value it had or, if it was missing, its default: the starter
    categories, no record, the filter that lets everything through; the
    two global variables hold the stored settings, [''] and [false] if
    there are none.  From then on [getCategories] and the category store
    read the same list.  A second call changes nothing. *)
Theorem initializeData_establishes_the_stores :
  forall (b : Browser),
    let w := page_state b in
    let w' := page_state (initializeData b) in
    st_records w' = Some (records_of w)
    /\ st_categories w'
       = Some (match st_categories w with
               | Some l => l
               | None => starter_categories
               end)
    /\ st_filters w' = Some (filters_of w)
    /\ GAS_WEB_APP_URL w'
       = match st_gasUrl b with Some u => u | None => "" end
    /\ SPREADSHEET_ENABLED w'
       = match st_spreadsheetEnabled b with Some e => e | None => false end
    /\ fst (getCategories w') = categories_of w'
    /\ dialogs w' = dialogs w /\ sent w' = sent w
    /\ initializeData (initializeData b) = initializeData b.
Proof.
  intros [[recs cats flt url enabled dlg con snt] gas en].
  unfold initializeData, initializeStores, set_globals, getCategories,
    setStorageData_filters.
  page_unfold. simpl. repeat apply conj; reflexivity.
Qed.

(** X16.  Settings saved are the settings in force, at once and after a
    reload: the endpoint is the text of the field without the white space
    around it, the switch is the state of the check box.  Saving touches
    no collection and sends nothing; without one of the two controls it
    does nothing at all. *)
Theorem settings_survive_reload :
  forall (value : string) (checked : bool) (b : Browser),
    let saved := saveSpreadsheetSettings (Some value) (Some checked) b in
    let reloaded := page_state (initializeData (restart saved)) in
    (GAS_WEB_APP_URL (page_state saved) = trim value
     /\ SPREADSHEET_ENABLED (page_state saved) = checked)
    /\ (GAS_WEB_APP_URL reloaded = trim value
        /\ SPREADSHEET_ENABLED reloaded = checked)
    /\ local_state (page_state saved) = local_state (page_state b)
    /\ sent (page_state saved) = sent (page_state b)
    /\ (forall c, saveSpreadsheetSettings None c b = b)
    /\ (forall v, saveSpreadsheetSettings v None b = b).
Proof.
  intros value checked [[recs cats flt url enabled dlg con snt] gas en].
  unfold saveSpreadsheetSettings, initializeData, restart, set_globals,
    initializeStores, setStorageData_filters.
  page_unfold. simpl. repeat apply conj; try reflexivity.
  now intros [v |].
Qed.

(** X17.  The reset of all data, once confirmed, leaves no record, the
    starter categories and the filter that lets everything through, so
    the listing is empty; it keeps the saved settings and sends nothing
    to the endpoint.  Declined, it leaves every collection as it was. *)
Theorem clickResetAll_reseeds :
  forall (localeCompare : Collation) (b : Browser),
    let after := clickResetAll true b in
    let kept := clickResetAll false b in
    (local_state (page_state after)
     = (Some [], Some starter_categories, Some default_filters)
     /\ fst (getFilteredRecords localeCompare (page_state after)) = []
     /\ st_gasUrl after = st_gasUrl b
     /\ st_spreadsheetEnabled after = st_spreadsheetEnabled b
     /\ sent (page_state after) = sent (page_state b))
    /\ (local_state (page_state kept) = local_state (page_state b)
        /\ st_gasUrl kept = st_gasUrl b
        /\ st_spreadsheetEnabled kept = st_spreadsheetEnabled b
        /\ sent (page_state kept) = sent (page_state b)).
Proof.
  intros localeCompare [[recs cats flt url enabled dlg con snt] gas en].
  unfold clickResetAll, initializeData, remove_collections, set_globals,
    initializeStores, setStorageData_filters.
  page_unfold. simpl. repeat apply conj; reflexivity.
Qed.

(** ** The listing: default filter, empty range, order of storage *)

Lemma passes_default (r : Expense) : passes default_filters r = true.
Proof. reflexivity. Qed.

Lemma filter_perm {A : Type} (p : A -> bool) (l l' : list A) :
  Permutation l l' -> Permutation (filter p l) (filter p l').
Proof.
  induction 1 as [| a l l' _ IH | a b l | l l' l'' _ IH1 _ IH2]; simpl.
  - constructor.
  - destruct (p a); [now constructor | assumption].
  - destruct (p a), (p b); try reflexivity. apply perm_swap.
  - now transitivity (filter p l').
Qed.

(** Two lists sorted by a relation that is antisymmetric on their elements
    are equal when they have the same elements. *)
Lemma sorted_perm_unique {A : Type} (R : A -> A -> Prop) (l l' : list A) :
  (forall a b, In a l -> In b l -> R a b -> R b a -> a = b) ->
  StronglySorted R l -> StronglySorted R l' -> Permutation l l' -> l = l'.
Proof.
  revert l'. induction l as [| a l IH]; intros l' Hanti Hs Hs' Hp.
  - apply Permutation_nil in Hp. now subst.
  - destruct l' as [| a' l'].
    + symmetry in Hp. apply Permutation_nil in Hp. discriminate.
    + inversion Hs as [| ? ? Hsl Ha]; subst.
      inversion Hs' as [| ? ? Hsl' Ha']; subst.
      rewrite Forall_forall in Ha, Ha'.
      assert (E : a = a').
      { assert (Hin : In a' (a :: l))
          by (apply Permutation_in with (a' :: l');
              [now symmetry | now left]).
        assert (Hin' : In a (a' :: l'))
          by (apply Permutation_in with (a :: l); [assumption | now left]).
        destruct Hin as [E | Hin]; [assumption |].
        destruct Hin' as [E | Hin']; [now symmetry |].
        apply Hanti; [now left | now right | now apply Ha | now apply Ha']. }
      subst a'. f_equal. apply IH; try assumption.
      * intros x y Hx Hy. apply Hanti; now right.
      * now apply Permutation_cons_inv with a.
Qed.

Lemma same_id_same_record (l : list Expense) (a b : Expense) :
  NoDup (map id l) -> In a l -> In b l -> id a = id b -> a = b.
Proof.
  induction l as [| r l IH]; simpl; intros Hnd Ha Hb E; [contradiction |].
  inversion Hnd as [| ? ? Hnotin Hnd']; subst.
  destruct Ha as [<- | Ha], Hb as [<- | Hb]; auto.
  - exfalso. apply Hnotin. rewrite E. now apply in_map.
  - exfalso. apply Hnotin. rewrite <- E. now apply in_map.
Qed.

Lemma not_after_antisym (localeCompare : Collation) (texts : list string)
  (a b : Expense) :
  consistent localeCompare ->
  tells_apart localeCompare texts ->
  In (date a) texts -> In (date b) texts ->
  In (id a) texts -> In (id b) texts ->
  not_after localeCompare a b -> not_after localeCompare b a -> id a = id b.
Proof.
  intros Hcons Hapart Da Db Ia Ib. unfold not_after.
  intros [[N G] | [E G]] [[N' G'] | [E' G']].
  - exfalso. apply N'. apply Hapart; try assumption.
    now apply consistent_zero.
  - exfalso. apply N. now symmetry.
  - exfalso. apply N'. now symmetry.
  - symmetry. apply Hapart; try assumption. now apply consistent_zero.
Qed.

(** X18.  With the filter that lets everything through, and also when no
    filter has been stored yet or after the reset button of the filter,
    the listing holds every stored record once: nothing is left out. *)
Theorem listing_without_filter :
  forall (localeCompare : Collation) (w : World),
    (filters_of w = default_filters ->
     Permutation (fst (getFilteredRecords localeCompare w)) (records_of w))
    /\ (st_filters w = None ->
        Permutation (fst (getFilteredRecords localeCompare w))
          (records_of w))
    /\ Permutation
         (fst (getFilteredRecords localeCompare (snd (clickResetFilter w))))
         (records_of w).
Proof.
  intros localeCompare w.
  assert (H : forall w', filters_of w' = default_filters ->
                         Permutation
                           (fst (getFilteredRecords localeCompare w'))
                           (records_of w')).
  { intros w' Hf. rewrite getFilteredRecords_run. simpl.
    rewrite Array_sort_perm, Hf, filter_all; [reflexivity |].
    intros r _. apply passes_default. }
  split; [apply H |]. split.
  - intros Hnone. apply H. unfold filters_of, getStorageData. simpl.
    now rewrite Hnone.
  - destruct w as [recs cats flt url enabled dlg con snt].
    apply (H (snd (clickResetFilter
                     (mkWorld recs cats flt url enabled dlg con snt)))).
    reflexivity.
Qed.

(** X19.  When both bounds are given and the lower one is after the upper
    one, the listing is empty, whatever is stored. *)
Theorem listing_of_an_empty_range :
  forall (localeCompare : Collation) (w : World),
    from (filters_of w) <> "" ->
    to (filters_of w) <> "" ->
    from (filters_of w) <> to (filters_of w) ->
    str_ge (from (filters_of w)) (to (filters_of w)) = true ->
    fst (getFilteredRecords localeCompare w) = [].
Proof.
  intros localeCompare w Hfrom Hto Hne Hge.
  rewrite getFilteredRecords_run. simpl.
  rewrite filter_none; [reflexivity |].
  intros r _. unfold passes.
  apply String.eqb_neq in Hfrom. apply String.eqb_neq in Hto.
  rewrite Hfrom, Hto. simpl.
  destruct (str_ge (date r) (from (filters_of w))) eqn:G1; [| reflexivity].
  destruct (str_le (date r) (to (filters_of w))) eqn:G2; [| reflexivity].
  exfalso. apply Hne. rewrite str_le_ge in G2.
  apply str_ge_antisym; [assumption |].
  now apply str_ge_trans with (date r).
Qed.

(** X20.  On a host whose [localeCompare] is a consistent comparison that
    gives [0] for no two different dates or identifiers in the store,
    when the stored records have different identifiers, the listing does
    not depend on the order in which they are stored: two pages with the
    same records and the same filter show the same listing. *)
Theorem listing_is_canonical :
  forall (localeCompare : Collation) (w w' : World),
    consistent localeCompare ->
    tells_apart localeCompare
      (map date (records_of w) ++ map id (records_of w)) ->
    NoDup (map id (records_of w)) ->
    Permutation (records_of w) (records_of w') ->
    filters_of w = filters_of w' ->
    fst (getFilteredRecords localeCompare w)
    = fst (getFilteredRecords localeCompare w').
Proof.
  intros localeCompare w w' Hcons Hapart Hnd Hperm Hflt.
  rewrite !getFilteredRecords_run. simpl. rewrite <- Hflt.
  assert (Hstored : forall r,
             In r (Array_sort (newest_first localeCompare)
                     (filter (passes (filters_of w)) (records_of w))) ->
             In r (records_of w)).
  { intros r Hr.
    apply Permutation_in with (l' := filter (passes (filters_of w))
                                       (records_of w)) in Hr;
      [| apply Array_sort_perm].
    apply filter_In in Hr. tauto. }
  assert (Hdates : tells_apart localeCompare (map date (records_of w))).
  { apply tells_apart_sub with (2 := Hapart).
    intros t Ht. apply in_or_app. now left. }
  apply sorted_perm_unique with (R := not_after localeCompare).
  - intros a b Ha Hb Hab Hba.
    apply Hstored in Ha. apply Hstored in Hb.
    apply (same_id_same_record (records_of w)); try assumption.
    apply (not_after_antisym localeCompare _ a b Hcons Hapart);
      try assumption; apply in_or_app;
      [left | left | right | right]; now apply in_map.
  - apply newest_first_sorted; [assumption |].
    apply tells_apart_sub with (2 := Hdates). intros t. apply dates_of_filter.
  - apply newest_first_sorted; [assumption |].
    apply tells_apart_sub with (2 := Hdates). intros t Ht.
    apply dates_of_filter in Ht.
    apply Permutation_in with (map date (records_of w')); [| assumption].
    apply Permutation_map. now symmetry.
  - rewrite !Array_sort_perm. now apply filter_perm.
Qed.

(** ** The summaries: payment methods, sums of the rows, ties *)

Lemma shown_total_perm (rows rows' : list (string * Value)) :
  Permutation rows rows' -> shown_total rows = shown_total rows'.
Proof.
  induction 1; simpl; lia.
Qed.

Lemma sort_insert_stable {A : Type} (c : A -> A -> Z) (p : A -> bool)
  (x : A) (l : list A) :
  (forall y, In y l -> p x = true -> p y = true -> c x y <= 0) ->
  filter p (sort_insert c x l) = filter p (x :: l).
Proof.
  induction l as [| y l IH]; intros H; [reflexivity |].
  simpl sort_insert. destruct (c x y <=? 0) eqn:E; [reflexivity |].
  apply Z.leb_gt in E.
  assert (IH' : filter p (sort_insert c x l) = filter p (x :: l)).
  { apply IH. intros z Hz. apply H. now right. }
  simpl. simpl in IH'. rewrite IH'.
  destruct (p x) eqn:Px, (p y) eqn:Py; try reflexivity.
  specialize (H y (or_introl eq_refl) eq_refl Py). lia.
Qed.

(** The sort keeps the order of the elements that the comparison function
    does not tell apart. *)
Lemma Array_sort_stable {A : Type} (c : A -> A -> Z) (p : A -> bool)
  (l : list A) :
  (forall x y, In x l -> In y l -> p x = true -> p y = true -> c x y <= 0) ->
  filter p (Array_sort c l) = filter p l.
Proof.
  induction l as [| x l IH]; intros H; [reflexivity |].
  simpl Array_sort. rewrite sort_insert_stable.
  - simpl. rewrite IH; [reflexivity |].
    intros a b Ha Hb. apply H; now right.
  - intros y Hy. apply H; [now left |]. right.
    apply Permutation_in with (Array_sort c l);
      [apply Array_sort_perm | assumption].
Qed.

(** X21.  For records whose amounts are integers with absolute values
    below 2^53 in sum and whose payment methods are not named like a
    property of [Object.prototype], the summary by payment method has one
    property for each payment method that occurs and for no other name,
    holding the sum of the amounts of the records paid that way, and its
    rows are shown from the largest sum to the smallest. *)
Theorem payment_summary_spec :
  forall (records : list Expense),
    safe_amounts records ->
    own_names paymentMethod records ->
    let summary := calculatePaymentMethodSummary records in
    (forall c, In c (map fst summary) <-> In c (map paymentMethod records))
    /\ NoDup (map fst summary)
    /\ (forall c, In c (map paymentMethod records) ->
                  prop_get summary c
                  = Own (Number (Num (total_by paymentMethod c records))))
    /\ Permutation (summary_rows summary) summary
    /\ StronglySorted not_below (summary_rows summary).
Proof.
  intros records Hsafe Hplain summary.
  assert (Hsum : summary = fold_left (entered paymentMethod) records [])
    by (apply grouped_summary; assumption).
  assert (Hget : forall c,
             own summary c
             = if existsb (fun r => (paymentMethod r =? c)%string) records
               then Some (Number (Num (total_by paymentMethod c records)))
               else None).
  { intros c. rewrite Hsum, grouped_from. reflexivity. }
  split.
  { intros c. rewrite own_keys, Hget, <- grouped_occurs.
    destruct (existsb _ records); split; congruence. }
  split; [rewrite Hsum; apply grouped_NoDup; constructor |].
  split.
  { intros c Hc. apply grouped_occurs in Hc.
    unfold prop_get. now rewrite Hget, Hc. }
  split; [apply summary_rows_perm |].
  apply summary_rows_sorted. rewrite Hsum.
  apply entered_numeric. constructor.
Qed.

(** X22.  For records whose amounts are integers with absolute values
    below 2^53 in sum, the amounts shown in the rows by category add up
    to the total when no category is named like a property of
    [Object.prototype], and so do the amounts shown in the rows by
    payment method when no payment method is: no amount is lost or
    counted twice in a summary. *)
Theorem summaries_add_up_to_the_total :
  forall (records : list Expense),
    safe_amounts records ->
    (own_names category records ->
     calculateTotal records
     = Num (shown_total (summary_rows (calculateCategorySummary records))))
    /\ (own_names paymentMethod records ->
        calculateTotal records
        = Num (shown_total
                 (summary_rows (calculatePaymentMethodSummary records)))).
Proof.
  intros records Hsafe.
  assert (Htotal : calculateTotal records = Num (total_of records)).
  { destruct Hsafe as [Hint Hb]. unfold calculateTotal.
    rewrite calculateTotal_from; [reflexivity | assumption | simpl; lia]. }
  rewrite Htotal.
  split; intros Hplain;
    rewrite (shown_total_perm _ _ (summary_rows_perm _));
    unfold calculateCategorySummary, calculatePaymentMethodSummary;
    rewrite grouped_summary by assumption;
    rewrite grouped_total; reflexivity.
Qed.

Lemma entries_without_index (summary : Summary) :
  (forall c, In c (map fst summary) -> array_index c = None) ->
  Object_entries summary = summary.
Proof.
  intros H. unfold Object_entries.
  assert (Hno : forall e, In e summary -> is_index e = false).
  { intros e He. unfold is_index. rewrite (H (fst e)); [reflexivity |].
    now apply in_map. }
  rewrite filter_none by assumption. simpl.
  apply filter_all. intros e He. now rewrite Hno.
Qed.

(** X23.  For records whose amounts are integers with absolute values
    below 2^53 in sum and whose categories are not named like a property
    of [Object.prototype], the properties of the summary by category are
    created in the order in which the categories first occur in the
    records.  Rows that show the same amount keep the order
    [Object.entries] gives them, and when no category is named like an
    array index, that is the order of creation: ties keep the order of
    first occurrence. *)
Theorem summary_ties_keep_order :
  forall (records : list Expense),
    safe_amounts records ->
    own_names category records ->
    let summary := calculateCategorySummary records in
    map fst summary = first_seen (map category records) []
    /\ (forall v,
           filter (shows v) (summary_rows summary)
           = filter (shows v) (Object_entries summary))
    /\ ((forall c, In c (map category records) -> array_index c = None) ->
        forall v,
          filter (shows v) (summary_rows summary)
          = filter (shows v) summary).
Proof.
  intros records Hsafe Hplain summary.
  assert (Hsum : summary = fold_left (entered category) records [])
    by (apply grouped_summary; assumption).
  assert (Hkeys : map fst summary = first_seen (map category records) []).
  { rewrite Hsum. now rewrite grouped_keys. }
  assert (Hstable : forall v,
             filter (shows v) (summary_rows summary)
             = filter (shows v) (Object_entries summary)).
  { intros v. unfold summary_rows. apply Array_sort_stable.
    intros a b _ _. unfold shows.
    destruct (snd a) as [[x |] |], (snd b) as [[y |] |]; try discriminate.
    intros Ha Hb. apply Z.eqb_eq in Ha. apply Z.eqb_eq in Hb.
    simpl to_number. rewrite js_sub_order. lia. }
  split; [exact Hkeys |]. split; [exact Hstable |].
  intros Hnames v. rewrite Hstable, entries_without_index; [reflexivity |].
  intros c Hc. apply Hnames.
  assert (Hsub : forall names seen c,
             In c (first_seen names seen) -> In c seen \/ In c names).
  { induction names as [| n names IH]; simpl; intros seen c0 H0; [now left |].
    apply IH in H0. destruct H0 as [H0 | H0]; [| now right; right].
    destruct (includes seen n); [now left |].
    apply in_app_or in H0. destruct H0 as [H0 | [<- | []]];
      [now left | now right; left]. }
  rewrite Hkeys in Hc. apply Hsub in Hc. now destruct Hc.
Qed.

(** ** The endpoint as a store of records *)

Lemma strict_eq_spec (a b : Val) : strict_eq a b = true <-> a = b.
Proof.
  destruct a as [| x | x], b as [| y | y]; simpl;
    try (split; [discriminate | congruence]).
  - tauto.
  - rewrite Z.eqb_eq. split; congruence.
  - rewrite String.eqb_eq. split; congruence.
Qed.

Lemma remote_records_rows (sheet : Gas.Sheet) :
  remote_records sheet
  = map Gas.record_of
      (filter (fun row => truthy (Gas.cell row 0)) (skipn 1 sheet)).
Proof.
  unfold remote_records. rewrite doGet_records.
  now rewrite data_rows by apply blank_row_falsy.
Qed.

Lemma getLastRow_le (sheet : Gas.Sheet) :
  (Gas.getLastRow sheet <= length sheet)%nat.
Proof.
  induction sheet as [| row rest IH]; simpl; [lia |].
  destruct (Gas.getLastRow rest); [destruct (Gas.blank_row row) |]; lia.
Qed.

(** The rows read by the loops and the blank rows after them make up the
    sheet from its second row on. *)
Lemma data_then_blank (sheet : Gas.Sheet) :
  exists beyond,
    skipn 1 sheet = skipn 1 (Gas.getValues sheet) ++ beyond
    /\ Forall (fun row => Gas.blank_row row = true) beyond.
Proof.
  pose proof (rows_beyond_last sheet) as Hb. unfold Gas.getValues.
  destruct (Gas.getLastRow sheet) as [| n] eqn:E.
  - exists (skipn 1 sheet). split; [reflexivity |].
    simpl in Hb. destruct sheet as [| row rest]; [constructor |].
    now inversion Hb.
  - destruct sheet as [| row rest]; [discriminate |].
    exists (skipn n rest). simpl in *. split; [| assumption].
    now rewrite firstn_skipn.
Qed.

Lemma written_row_of (record : JsonRecord) (old : Gas.Row) :
  Gas.record_of (Gas.row_of record ++ old) = as_stored record
  /\ Gas.cell (Gas.row_of record ++ old) 0 = j_id record.
Proof. split; reflexivity. Qed.

Lemma addRecord_cases (sheet : Gas.Sheet) (record : JsonRecord) :
  ((1 <= Gas.getLastRow sheet)%nat ->
   remote_records (Gas.addRecord sheet record)
   = remote_records sheet
     ++ (if truthy (j_id record) then [as_stored record] else []))
  /\ (Gas.getLastRow sheet = 0%nat ->
      remote_records (Gas.addRecord sheet record) = []).
Proof.
  pose proof (rows_beyond_last sheet) as Hb.
  pose proof (getLastRow_le sheet) as Hle.
  unfold Gas.addRecord, Gas.setValues.
  destruct (Gas.getLastRow sheet) as [| n] eqn:E.
  - split; [lia |]. intros _. simpl in Hb. simpl.
    rewrite remote_records_rows.
    destruct sheet as [| o os]; simpl; [reflexivity |].
    inversion Hb as [| ? ? _ Hos]; subst.
    rewrite (filter_blank _ os); [reflexivity | | assumption].
    apply blank_row_falsy.
  - split; [| discriminate]. intros _.
    destruct sheet as [| top rest]; [discriminate |].
    simpl in Hle, Hb.
    replace (S n + 1 - 1)%nat with (S n) by lia.
    replace (S n - length (top :: rest))%nat with 0%nat by (simpl; lia).
    rewrite !remote_records_rows. simpl.
    assert (Hrest : rest = firstn n rest ++ skipn n rest)
      by (symmetry; apply firstn_skipn).
    set (pre := firstn n rest) in *.
    destruct (skipn n rest) as [| o os]; rewrite Hrest at 1;
      rewrite !filter_app, !map_app, <- app_assoc; f_equal; simpl.
    + unfold Gas.cell at 1. simpl.
      destruct (truthy (j_id record)); reflexivity.
    + apply Forall_cons_iff in Hb. destruct Hb as [Ho Hos].
      unfold Gas.cell at 1. simpl.
      rewrite (blank_row_falsy o Ho).
      rewrite (filter_blank _ os); [| apply blank_row_falsy | assumption].
      destruct (truthy (j_id record)); reflexivity.
Qed.

Lemma addRecord_has_content (sheet : Gas.Sheet) (record : JsonRecord) :
  Gas.getLastRow sheet = 0%nat -> truthy (j_id record) = true ->
  (1 <= Gas.getLastRow (Gas.addRecord sheet record))%nat.
Proof.
  intros Hzero Hid. unfold Gas.addRecord, Gas.setValues.
  rewrite Hzero. simpl.
  assert (Hfirst : forall rest : Gas.Row,
             Gas.blank_row (Gas.row_of record ++ rest) = false).
  { intros rest. simpl. destruct (j_id record) as [| z | t];
      simpl in *; try reflexivity.
    unfold truthy_str in Hid. apply negb_true_iff in Hid. now rewrite Hid. }
  destruct sheet as [| o os]; simpl.
  - unfold Gas.blank_row in Hfirst. specialize (Hfirst []).
    rewrite app_nil_r in Hfirst. simpl in Hfirst. rewrite Hfirst. lia.
  - destruct (Gas.getLastRow os); [| lia].
    specialize (Hfirst (skipn 6 o)). simpl in Hfirst. rewrite Hfirst. lia.
Qed.

(** X24.  [addRecord] on a sheet that has content adds the record at the
    end of what a GET returns, as it will be read back, provided its
    identifier is truthy; a record without identifier is written but
    never returned.  On a sheet without any content the record goes into
    the first row, the row that [doGet] takes for the header: it is not
    returned, and a record added after it is the only one returned. *)
Theorem addRecord_appends :
  forall (sheet : Gas.Sheet) (record next : JsonRecord),
    ((1 <= Gas.getLastRow sheet)%nat ->
     remote_records (Gas.addRecord sheet record)
     = remote_records sheet
       ++ (if truthy (j_id record) then [as_stored record] else []))
    /\ (Gas.getLastRow sheet = 0%nat ->
        truthy (j_id record) = true ->
        truthy (j_id next) = true ->
        remote_records (Gas.addRecord sheet record) = []
        /\ remote_records (Gas.addRecord (Gas.addRecord sheet record) next)
           = [as_stored next]).
Proof.
  intros sheet record next.
  destruct (addRecord_cases sheet record) as [Hsome Hnone].
  split; [exact Hsome |].
  intros Hzero Hid Hnext.
  pose proof (Hnone Hzero) as Hlost. split; [exact Hlost |].
  destruct (addRecord_cases (Gas.addRecord sheet record) next)
    as [Hthen _].
  rewrite Hthen by now apply addRecord_has_content.
  now rewrite Hlost, Hnext.
Qed.

Lemma drop_first_split {A : Type} (p : A -> bool) (before : list A) (x : A)
  (after : list A) :
  (forall a, In a before -> p a = false) -> p x = true ->
  drop_first p (before ++ x :: after) = before ++ after.
Proof.
  induction before as [| b before IH]; simpl; intros Hb Hx.
  - now rewrite Hx.
  - rewrite (Hb b (or_introl eq_refl)). f_equal. apply IH; auto.
Qed.

Lemma drop_first_none {A : Type} (p : A -> bool) (l : list A) :
  (forall a, In a l -> p a = false) -> drop_first p l = l.
Proof.
  induction l as [| a l IH]; simpl; intros H; [reflexivity |].
  rewrite (H a (or_introl eq_refl)). f_equal. apply IH. auto.
Qed.

Lemma replace_first_split {A : Type} (p : A -> bool) (b : A)
  (before : list A) (x : A) (after : list A) :
  (forall a, In a before -> p a = false) -> p x = true ->
  replace_first p b (before ++ x :: after) = before ++ b :: after.
Proof.
  induction before as [| c before IH]; simpl; intros Hb Hx.
  - now rewrite Hx.
  - rewrite (Hb c (or_introl eq_refl)). f_equal. apply IH; auto.
Qed.

Lemma replace_first_none {A : Type} (p : A -> bool) (b : A) (l : list A) :
  (forall a, In a l -> p a = false) -> replace_first p b l = l.
Proof.
  induction l as [| a l IH]; simpl; intros H; [reflexivity |].
  rewrite (H a (or_introl eq_refl)). f_equal. apply IH. auto.
Qed.

Lemma firstn_exact {A : Type} (before l : list A) :
  firstn (length before) (before ++ l) = before.
Proof.
  induction before as [| b before IH]; simpl; [reflexivity |].
  now rewrite IH.
Qed.

Lemma skipn_exact {A : Type} (before l : list A) :
  skipn (length before) (before ++ l) = l.
Proof.
  induction before as [| b before IH]; simpl; auto.
Qed.

Lemma skipn_past {A : Type} (before : list A) (x : A) (after : list A) :
  skipn (S (length before)) (before ++ x :: after) = after.
Proof.
  induction before as [| b before IH]; simpl; auto.
Qed.

Lemma find_row_some (sheet : Gas.Sheet) (rid : Val) (i : nat) :
  Gas.find_row sheet rid = Some i ->
  exists top before x after,
    sheet = top :: before ++ x :: after
    /\ length before = i
    /\ strict_eq (Gas.cell x 0) rid = true
    /\ (forall a, In a before -> strict_eq (Gas.cell a 0) rid = false).
Proof.
  unfold Gas.find_row. intros H. apply findIndex_found in H.
  destruct H as (before & x & after & Hdata & Hlen & Hx & Hb).
  destruct (data_then_blank sheet) as (beyond & Hrows & _).
  rewrite Hdata in Hrows.
  destruct sheet as [| top rest].
  - simpl in Hrows. destruct before; discriminate.
  - simpl in Hrows. exists top, before, x, (after ++ beyond).
    rewrite Hrows, <- app_assoc. repeat split; auto.
Qed.

Lemma find_row_none (sheet : Gas.Sheet) (rid : Val) :
  Gas.find_row sheet rid = None ->
  forall row, In row (skipn 1 (Gas.getValues sheet)) ->
              strict_eq (Gas.cell row 0) rid = false.
Proof.
  unfold Gas.find_row. intros H. now apply findIndex_missing.
Qed.

Lemma remote_ids_truthy (sheet : Gas.Sheet) (y : JsonRecord) :
  In y (remote_records sheet) -> truthy (j_id y) = true.
Proof.
  rewrite remote_records_rows. intros H. apply in_map_iff in H.
  destruct H as [row [<- Hrow]]. apply filter_In in Hrow. tauto.
Qed.

Lemma falsy_id_not_remote (sheet : Gas.Sheet) (rid : Val) (y : JsonRecord) :
  truthy rid = false -> In y (remote_records sheet) -> has_id rid y = false.
Proof.
  intros Hf Hy. unfold has_id.
  destruct (strict_eq (j_id y) rid) eqn:E; [| reflexivity].
  apply strict_eq_spec in E. apply remote_ids_truthy in Hy. congruence.
Qed.

(** Without a row that carries the identifier among the rows read, no
    record returned carries it, if the identifier is truthy. *)
Lemma not_found_not_remote (sheet : Gas.Sheet) (rid : Val) (y : JsonRecord) :
  truthy rid = true -> Gas.find_row sheet rid = None ->
  In y (remote_records sheet) -> has_id rid y = false.
Proof.
  intros Ht Hnone Hy.
  unfold remote_records in Hy. rewrite doGet_records in Hy.
  apply in_map_iff in Hy. destruct Hy as [row [<- Hrow]].
  apply filter_In in Hrow. destruct Hrow as [Hrow _].
  now apply (find_row_none sheet rid Hnone).
Qed.

(** The records returned for a sheet whose rows after the first are
    [before], [x], [after]. *)
Lemma remote_records_split (top : Gas.Row) (before : list Gas.Row)
  (x : Gas.Row) (after : list Gas.Row) :
  remote_records (top :: before ++ x :: after)
  = remote_records (top :: before)
    ++ (if truthy (Gas.cell x 0) then [Gas.record_of x] else [])
    ++ remote_records (top :: after).
Proof.
  rewrite !remote_records_rows. simpl.
  rewrite filter_app, map_app. simpl.
  now destruct (truthy (Gas.cell x 0)).
Qed.

Lemma remote_records_app (top : Gas.Row) (before after : list Gas.Row) :
  remote_records (top :: before ++ after)
  = remote_records (top :: before) ++ remote_records (top :: after).
Proof.
  rewrite !remote_records_rows. simpl. now rewrite filter_app, map_app.
Qed.

Lemma before_not_remote (top : Gas.Row) (before : list Gas.Row) (rid : Val)
  (y : JsonRecord) :
  (forall a, In a before -> strict_eq (Gas.cell a 0) rid = false) ->
  In y (remote_records (top :: before)) -> has_id rid y = false.
Proof.
  intros Hb Hy. rewrite remote_records_rows in Hy. simpl in Hy.
  apply in_map_iff in Hy. destruct Hy as [row [<- Hrow]].
  apply filter_In in Hrow. now apply Hb.
Qed.

Lemma delete_request_cases (sheet : Gas.Sheet) (rid : Val) :
  remote_records (fst (Gas.doPost sheet (ActDelete rid)))
  = drop_first (has_id rid) (remote_records sheet)
  /\ (truthy rid = true ->
      success (snd (Gas.doPost sheet (ActDelete rid)))
      = existsb (has_id rid) (remote_records sheet)).
Proof.
  unfold Gas.doPost, Gas.deleteRecord.
  destruct (Gas.find_row sheet rid) as [i |] eqn:F.
  - apply find_row_some in F.
    destruct F as (top & before & x & after & -> & <- & Hx & Hb).
    assert (Hdel : Gas.deleteRow (top :: before ++ x :: after)
                     (length before + 2)
                   = top :: before ++ after).
    { unfold Gas.deleteRow, Gas.deleteRows.
      replace (length before + 2 - 1)%nat with (length (top :: before))
        by (simpl; lia).
      replace (length (top :: before) + 1)%nat
        with (S (length (top :: before))) by lia.
      change (top :: before ++ x :: after)
        with ((top :: before) ++ x :: after).
      now rewrite firstn_exact, skipn_past. }
    simpl fst. simpl snd. rewrite Hdel.
    rewrite remote_records_app, remote_records_split.
    assert (Hid : Gas.cell x 0 = rid) by now apply strict_eq_spec.
    destruct (truthy rid) eqn:T.
    + rewrite Hid, T. split.
      * simpl. rewrite drop_first_split; [reflexivity | | ].
        -- intros y. apply before_not_remote. exact Hb.
        -- exact Hx.
      * intros _. simpl. symmetry. apply existsb_exists.
        exists (Gas.record_of x). split; [| exact Hx].
        apply in_or_app. right. now left.
    + rewrite Hid, T. simpl. split; [| discriminate].
      rewrite drop_first_none; [reflexivity |].
      intros y Hy. unfold has_id.
      destruct (strict_eq (j_id y) rid) eqn:E; [| reflexivity].
      apply strict_eq_spec in E.
      assert (Ht : truthy (j_id y) = true).
      { apply in_app_or in Hy.
        destruct Hy as [Hy | Hy]; now apply remote_ids_truthy in Hy. }
      congruence.
  - simpl fst. simpl snd. split.
    + destruct (truthy rid) eqn:T.
      * rewrite drop_first_none; [reflexivity |].
        intros y. now apply not_found_not_remote.
      * rewrite drop_first_none; [reflexivity |].
        intros y. now apply falsy_id_not_remote.
    + intros T. simpl. symmetry. apply existsb_none.
      intros y. now apply not_found_not_remote.
Qed.

Lemma update_request_cases (sheet : Gas.Sheet) (record : JsonRecord) :
  remote_records (fst (Gas.doPost sheet (ActUpdate record)))
  = replace_first (has_id (j_id record)) (as_stored record)
      (remote_records sheet)
  /\ (truthy (j_id record) = true ->
      success (snd (Gas.doPost sheet (ActUpdate record)))
      = existsb (has_id (j_id record)) (remote_records sheet)).
Proof.
  unfold Gas.doPost, Gas.updateRecord.
  destruct (Gas.find_row sheet (j_id record)) as [i |] eqn:F.
  - apply find_row_some in F.
    destruct F as (top & before & x & after & -> & <- & Hx & Hb).
    assert (Hset : Gas.setValues (top :: before ++ x :: after)
                     (length before + 2) [Gas.row_of record]
                   = top :: before
                       ++ (Gas.row_of record
                             ++ skipn (length (Gas.row_of record)) x)
                       :: after).
    { unfold Gas.setValues.
      replace (length before + 2 - 1)%nat with (length (top :: before))
        by (simpl; lia).
      change (top :: before ++ x :: after)
        with ((top :: before) ++ x :: after).
      rewrite firstn_exact, skipn_exact.
      replace (length (top :: before)
               - length ((top :: before) ++ x :: after))%nat
        with 0%nat by (rewrite length_app; lia).
      reflexivity. }
    simpl fst. simpl snd. rewrite Hset.
    rewrite !remote_records_split.
    assert (Hid : Gas.cell x 0 = j_id record) by now apply strict_eq_spec.
    destruct (written_row_of record
                (skipn (length (Gas.row_of record)) x)) as [Hrec Hcell].
    rewrite Hcell, Hrec, Hid.
    destruct (truthy (j_id record)) eqn:T.
    + split.
      * simpl. rewrite replace_first_split; [reflexivity | | ].
        -- intros y. apply before_not_remote. exact Hb.
        -- exact Hx.
      * intros _. simpl. symmetry. apply existsb_exists.
        exists (Gas.record_of x). split; [| exact Hx].
        apply in_or_app. right. now left.
    + simpl. split; [| discriminate].
      rewrite replace_first_none; [reflexivity |].
      intros y Hy. unfold has_id.
      destruct (strict_eq (j_id y) (j_id record)) eqn:E; [| reflexivity].
      apply strict_eq_spec in E.
      assert (Ht : truthy (j_id y) = true).
      { apply in_app_or in Hy.
        destruct Hy as [Hy | Hy]; now apply remote_ids_truthy in Hy. }
      congruence.
  - simpl fst. simpl snd. split.
    + destruct (truthy (j_id record)) eqn:T.
      * rewrite replace_first_none; [reflexivity |].
        intros y. now apply not_found_not_remote.
      * rewrite replace_first_none; [reflexivity |].
        intros y. now apply falsy_id_not_remote.
    + intros T. simpl. symmetry. apply existsb_none.
      intros y. now apply not_found_not_remote.
Qed.

Lemma drop_first_length {A : Type} (p : A -> bool) (l : list A) :
  length l
  = (length (drop_first p l) + (if existsb p l then 1 else 0))%nat.
Proof.
  induction l as [| a l IH]; simpl; [reflexivity |].
  destruct (p a); simpl; [lia |]. rewrite IH. lia.
Qed.

Lemma replace_first_ids (rid : Val) (b : JsonRecord) (l : list JsonRecord) :
  j_id b = rid ->
  map j_id (replace_first (has_id rid) b l) = map j_id l.
Proof.
  intros Hb. induction l as [| a l IH]; simpl; [reflexivity |].
  destruct (has_id rid a) eqn:E; simpl; [| now rewrite IH].
  apply strict_eq_spec in E. now rewrite Hb, E.
Qed.

(** X25.  A [delete] request removes, from what a GET returns, the first
    record that carries the identifier and nothing else, so that one
    record less is returned; when no record carries it, nothing changes.
    For a truthy identifier the answer says [success] exactly when some
    record carried it. *)
Theorem doPost_delete_removes_first :
  forall (sheet : Gas.Sheet) (rid : Val),
    let before := remote_records sheet in
    let after := remote_records (fst (Gas.doPost sheet (ActDelete rid))) in
    after = drop_first (has_id rid) before
    /\ length before
       = (length after + (if existsb (has_id rid) before then 1 else 0))%nat
    /\ ((forall y, In y before -> j_id y <> rid) -> after = before)
    /\ (truthy rid = true ->
        success (snd (Gas.doPost sheet (ActDelete rid)))
        = existsb (has_id rid) before).
Proof.
  intros sheet rid before after. subst before after.
  destruct (delete_request_cases sheet rid) as [Hview Hflag].
  rewrite Hview. split; [reflexivity |].
  split; [apply drop_first_length |].
  split; [| exact Hflag].
  intros Habsent. apply drop_first_none. intros y Hy. unfold has_id.
  destruct (strict_eq (j_id y) rid) eqn:E; [| reflexivity].
  apply strict_eq_spec in E. now apply Habsent in Hy.
Qed.

(** X26.  An [update] request puts the record sent, as it will be read
    back, in the place of the first record that carries its identifier
    and changes nothing else: the identifiers returned, and their order,
    are the same as before.  When no record carries the identifier,
    nothing changes.  For a truthy identifier the answer says [success]
    exactly when some record carried it. *)
Theorem doPost_update_replaces_first :
  forall (sheet : Gas.Sheet) (record : JsonRecord),
    let before := remote_records sheet in
    let after :=
      remote_records (fst (Gas.doPost sheet (ActUpdate record))) in
    after = replace_first (has_id (j_id record)) (as_stored record) before
    /\ map j_id after = map j_id before
    /\ ((forall y, In y before -> j_id y <> j_id record) -> after = before)
    /\ (truthy (j_id record) = true ->
        success (snd (Gas.doPost sheet (ActUpdate record)))
        = existsb (has_id (j_id record)) before).
Proof.
  intros sheet record before after. subst before after.
  destruct (update_request_cases sheet record) as [Hview Hflag].
  rewrite Hview. split; [reflexivity |].
  split; [now apply replace_first_ids |].
  split; [| exact Hflag].
  intros Habsent. apply replace_first_none. intros y Hy. unfold has_id.
  destruct (strict_eq (j_id y) (j_id record)) eqn:E; [| reflexivity].
  apply strict_eq_spec in E. now apply Habsent in Hy.
Qed.

Lemma filter_length_all {A : Type} (p : A -> bool) (l : list A) :
  length (filter p l) = length l <-> (forall a, In a l -> p a = true).
Proof.
  induction l as [| a l IH]; simpl.
  - split; [intros _ b [] | reflexivity].
  - pose proof (filter_length_le p l) as Hle.
    destruct (p a) eqn:E; simpl.
    + split.
      * intros H b [<- | Hb]; [assumption |]. apply IH; [lia | assumption].
      * intros H. f_equal. apply IH. auto.
    + split; [lia |]. intros H. specialize (H a (or_introl eq_refl)).
      congruence.
Qed.

(** X27.  A [sync] request replaces everything: whatever the sheet held,
    a GET afterwards returns the records sent that have a truthy
    identifier, in the order sent and as they are read back.  The count
    reported in [synced] is the number of records sent, and it is the
    number of records returned only when every identifier is truthy. *)
Theorem sync_replaces_everything :
  forall (sheet other : Gas.Sheet) (records : list JsonRecord),
    let after := remote_records (fst (Gas.syncRecords sheet records)) in
    after = map as_stored (filter (fun r => truthy (j_id r)) records)
    /\ after = remote_records (fst (Gas.syncRecords other records))
    /\ snd (Gas.syncRecords sheet records) = length records
    /\ (length after <= length records)%nat
    /\ (length after = length records
        <-> forall r, In r records -> truthy (j_id r) = true).
Proof.
  intros sheet other records after. subst after.
  unfold remote_records. rewrite !doGet_after_sync.
  fold as_stored.
  change (fun r : JsonRecord => Gas.record_of (Gas.row_of r)) with as_stored.
  rewrite length_map.
  repeat split; try reflexivity.
  - apply filter_length_le.
  - now apply filter_length_all.
  - now apply filter_length_all.
Qed.

(** ** The page and the endpoint together *)

Lemma requests_between_one (w w' : World) (request : Request) :
  sent w' = sent w ++ [request] -> requests_between w w' = [request].
Proof.
  unfold requests_between. intros ->. apply skipn_exact.
Qed.

Lemma requests_between_none (w w' : World) :
  sent w' = sent w -> requests_between w w' = [].
Proof.
  unfold requests_between. intros ->. apply skipn_all.
Qed.

Lemma addExpense_sent (w : World) (x : ExpenseData) (fresh : string)
  (net : Fetched) :
  bridge_on w ->
  sent (snd (addExpense x fresh net w))
  = sent w ++ [Post (GAS_WEB_APP_URL w) (ActAdd (toJSON (created x fresh)))].
Proof.
  unfold created. rewrite <- (or_empty_id (d_memo x)).
  destruct w as [recs cats flt url enabled dlg con snt].
  intros [Hon Hurl]. simpl in Hon, Hurl. subst enabled.
  apply truthy_str_true in Hurl. page_unfold. rewrite Hurl.
  destruct net; reflexivity.
Qed.

Lemma deleteExpense_sent (w : World) (rid : string) (net : Fetched) :
  bridge_on w ->
  sent (snd (deleteExpense rid net w))
  = sent w ++ [Post (GAS_WEB_APP_URL w) (ActDelete (VStr rid))].
Proof.
  destruct w as [recs cats flt url enabled dlg con snt].
  intros [Hon Hurl]. simpl in Hon, Hurl. subst enabled.
  apply truthy_str_true in Hurl. page_unfold. rewrite Hurl.
  destruct net; reflexivity.
Qed.

Lemma updateExpense_sent (w : World) (rid : string) (x : ExpenseData)
  (net : Fetched) (before : list Expense) (old : Expense)
  (after : list Expense) :
  bridge_on w ->
  records_of w = before ++ old :: after ->
  id old = rid ->
  (forall r, In r before -> id r <> rid) ->
  sent (snd (updateExpense rid x net w))
  = sent w
    ++ [Post (GAS_WEB_APP_URL w) (ActUpdate (toJSON (replaced old x)))].
Proof.
  intros [Hon Hurl] Hrecs Hid Hbefore.
  unfold replaced. rewrite <- (or_empty_id (d_memo x)).
  destruct w as [recs cats flt url enabled dlg con snt].
  simpl in Hon, Hurl. subst enabled. apply truthy_str_true in Hurl.
  page_unfold. rewrite Hrecs.
  rewrite (findIndex_split _ before old after).
  - rewrite nth_error_split. rewrite Hurl. destruct net; reflexivity.
  - intros a Ha. apply String.eqb_neq. now apply Hbefore.
  - now apply String.eqb_eq.
Qed.

Lemma drop_first_unique (rid : string) (l : list Expense) :
  NoDup (map id l) ->
  drop_first (has_id (VStr rid)) (map toJSON l)
  = map toJSON (filter (fun record => negb (id record =? rid)%string) l).
Proof.
  induction l as [| a l IH]; simpl; intros Hnd; [reflexivity |].
  inversion Hnd as [| ? ? Hnotin Hnd']; subst.
  unfold has_id at 1. simpl.
  destruct (String.eqb_spec (id a) rid) as [E | E]; simpl.
  - rewrite filter_all; [reflexivity |].
    intros b Hb. apply negb_true_iff, String.eqb_neq. intros Eb.
    apply Hnotin. rewrite E, <- Eb. now apply in_map.
  - f_equal. now apply IH.
Qed.

(** X28.  When the endpoint has what the page has, it still has after a
    local mutation whose request it serves, whatever it answers: after
    an update always; after an addition if the sheet has content and the
    identifier drawn is not empty; after a deletion if the stored
    identifiers are all different. *)
Theorem mirror_is_kept :
  forall (w : World) (sheet : Gas.Sheet) (x : ExpenseData)
         (fresh rid : string) (net : Fetched),
    bridge_on w ->
    mirrors sheet w ->
    let served w' := delivered sheet (requests_between w w') in
    mirrors (served (snd (updateExpense rid x net w)))
      (snd (updateExpense rid x net w))
    /\ ((1 <= Gas.getLastRow sheet)%nat -> fresh <> "" ->
        mirrors (served (snd (addExpense x fresh net w)))
          (snd (addExpense x fresh net w)))
    /\ (NoDup (map id (records_of w)) ->
        mirrors (served (snd (deleteExpense rid net w)))
          (snd (deleteExpense rid net w))).
Proof.
  intros w sheet x fresh rid net Hon Hmirror served. subst served.
  unfold mirrors in *. split; [| split].
  - destruct (first_with_id rid (records_of w))
      as [(before & old & after & Hrecs & Hid & Hb) | Habsent].
    + rewrite (requests_between_one _ _ _
                 (updateExpense_sent w rid x net before old after
                    Hon Hrecs Hid Hb)).
      destruct (updateExpense_at w rid x net before old after Hrecs Hid Hb)
        as [_ Hst].
      rewrite (records_of_local _ _ _ _ Hst).
      unfold delivered. cbn [fold_left]. unfold Gas.serve.
      destruct (update_request_cases sheet (toJSON (replaced old x)))
        as [Hview _].
      rewrite Hview, Hmirror, Hrecs, map_app. simpl map.
      unfold as_stored. rewrite toJSON_read_back.
      rewrite replace_first_split; [now rewrite map_app | | ].
      * intros j Hj. apply in_map_iff in Hj. destruct Hj as [r [<- Hr]].
        unfold has_id. simpl. apply String.eqb_neq. rewrite Hid.
        now apply Hb.
      * unfold has_id. simpl. apply String.eqb_eq. now rewrite Hid.
    + rewrite (updateExpense_missing w rid x net Habsent). simpl snd.
      now rewrite requests_between_none.
  - intros Hcontent Hfresh.
    rewrite (requests_between_one _ _ _ (addExpense_sent w x fresh net Hon)).
    destruct (addExpense_local w x fresh net) as [_ Hst].
    rewrite (records_of_local _ _ _ _ Hst).
    unfold delivered. cbn [fold_left]. unfold Gas.serve, Gas.doPost.
    cbn [fst].
    destruct (addRecord_cases sheet (toJSON (created x fresh)))
      as [Hview _].
    rewrite (Hview Hcontent), Hmirror, map_app. simpl.
    apply truthy_str_true in Hfresh. rewrite Hfresh.
    unfold as_stored. now rewrite toJSON_read_back.
  - intros Hnd.
    rewrite (requests_between_one _ _ _ (deleteExpense_sent w rid net Hon)).
    rewrite (records_of_local _ _ _ _ (deleteExpense_local w rid net)).
    unfold delivered. cbn [fold_left]. unfold Gas.serve.
    destruct (delete_request_cases sheet (VStr rid)) as [Hview _].
    rewrite Hview, Hmirror. now apply drop_first_unique.
Qed.

(** ** The script: its spreadsheet and its properties *)

Lemma lookup_store_same {A : Type} (key : string) (v : A)
  (l : list (string * A)) :
  Script.lookup key (Script.store key v l) = Some v.
Proof.
  induction l as [| [k v'] rest IH]; simpl.
  - now rewrite String.eqb_refl.
  - destruct (String.eqb_spec k key) as [-> | Hk]; simpl.
    + now rewrite String.eqb_refl.
    + apply String.eqb_neq in Hk. now rewrite Hk.
Qed.

Lemma lookup_store_other {A : Type} (key key' : string) (v : A)
  (l : list (string * A)) :
  key' <> key ->
  Script.lookup key' (Script.store key v l) = Script.lookup key' l.
Proof.
  intros Hne. induction l as [| [k v'] rest IH]; simpl.
  - destruct (String.eqb_spec key key'); [congruence | reflexivity].
  - destruct (String.eqb_spec k key) as [-> | Hk]; simpl.
    + destruct (String.eqb_spec key key'); [congruence | reflexivity].
    + destruct (String.eqb_spec k key'); [reflexivity | assumption].
Qed.

Lemma getSpreadsheet_cases (created : string) (st : Script.State) :
  (Script.getSpreadsheet created st
   = (created,
      Script.setProperty "SPREADSHEET_ID" (Script.Text created)
        (Script.mkState (Script.properties st)
           (Script.store created (Gas.setupSheet []) (Script.drive st)))))
  \/ (exists sid sheet,
         Script.getSpreadsheet created st = (sid, st)
         /\ sid <> ""
         /\ Script.getProperty "SPREADSHEET_ID" st = Some (Script.Text sid)
         /\ Script.lookup sid (Script.drive st) = Some sheet).
Proof.
  unfold Script.getSpreadsheet.
  destruct (Script.getProperty "SPREADSHEET_ID" st) as [[sid | l] |] eqn:P;
    try (now left).
  destruct (truthy_str sid) eqn:T; [| now left].
  destruct (Script.lookup sid (Script.drive st)) as [sheet |] eqn:L;
    [| now left].
  right. exists sid, sheet. repeat split; try assumption.
  now apply truthy_str_true.
Qed.

(** X29.  [getSpreadsheet] always ends with a spreadsheet that exists and
    that the property [SPREADSHEET_ID] names, so that a second call opens
    the same one and creates nothing; the spreadsheets it does not create
    are left alone.  On a first run, without the property, the new sheet
    holds the header row only; a record added then, with a truthy
    identifier, is what the next GET returns. *)
Theorem getSpreadsheet_settles :
  forall (created again : string) (record : JsonRecord) (st : Script.State),
    created <> "" ->
    let sid := fst (Script.getSpreadsheet created st) in
    let st1 := snd (Script.getSpreadsheet created st) in
    (exists sheet, Script.lookup sid (Script.drive st1) = Some sheet)
    /\ Script.getSpreadsheet again st1 = (sid, st1)
    /\ (forall other, other <> created ->
           Script.lookup other (Script.drive st1)
           = Script.lookup other (Script.drive st))
    /\ (Script.getProperty "SPREADSHEET_ID" st = None ->
        truthy (j_id record) = true ->
        Script.sheet_of sid st1 = [Gas.header]
        /\ resp_records
             (fst (Script.doGet again
                     (snd (Script.doPost created (ActAdd record) st))))
           = [as_stored record]).
Proof.
  intros created again record st Hcreated sid st1. subst sid st1.
  assert (Hagain : forall sid st',
             sid <> "" ->
             Script.getProperty "SPREADSHEET_ID" st'
             = Some (Script.Text sid) ->
             (exists sheet, Script.lookup sid (Script.drive st') = Some sheet) ->
             Script.getSpreadsheet again st' = (sid, st')).
  { intros sid st' Hsid Hprop [sheet Hsheet].
    unfold Script.getSpreadsheet. rewrite Hprop.
    apply truthy_str_true in Hsid. now rewrite Hsid, Hsheet. }
  destruct (getSpreadsheet_cases created st)
    as [Hnew | (sid & sheet & Hold & Hsid & Hprop & Hsheet)].
  - rewrite Hnew. simpl fst. simpl snd. split; [| split; [| split]].
    + exists (Gas.setupSheet []). simpl. apply lookup_store_same.
    + apply Hagain; [assumption | |].
      * unfold Script.getProperty. simpl. apply lookup_store_same.
      * exists (Gas.setupSheet []). simpl. apply lookup_store_same.
    + intros other Hother. simpl. now apply lookup_store_other.
    + intros _ Hid. split.
      * unfold Script.sheet_of. simpl. now rewrite lookup_store_same.
      * unfold Script.doPost. rewrite Hnew.
        unfold Script.sheet_of at 1. simpl Script.drive at 1.
        rewrite lookup_store_same.
        unfold Gas.doPost, Script.setProperty.
        cbn [snd Script.properties Script.drive].
        unfold Script.doGet. erewrite Hagain; [| exact Hcreated | |].
        -- unfold Script.sheet_of. cbn [Script.drive fst].
           rewrite lookup_store_same.
           destruct (addRecord_cases (Gas.setupSheet []) record)
             as [Hview _].
           fold (remote_records (Gas.addRecord (Gas.setupSheet []) record)).
           rewrite Hview by (vm_compute; lia).
           now rewrite Hid.
        -- unfold Script.getProperty. cbn [Script.properties].
           apply lookup_store_same.
        -- eexists. cbn [Script.drive]. apply lookup_store_same.
  - rewrite Hold. simpl fst. simpl snd. split; [| split; [| split]].
    + now exists sheet.
    + apply Hagain; [assumption | assumption | now exists sheet].
    + reflexivity.
    + intros Hnone. congruence.
Qed.

(** X30.  [saveCategories] writes under the key [categories], while
    [getCategories] reads the key [expenseTracker:categories]: whatever
    list is saved, [getCategories] returns what it returned before, the
    starter list on a script that never had the second key. *)
Theorem saveCategories_is_not_read_back :
  forall (categories : list string) (st : Script.State),
    Script.getCategories (Script.saveCategories categories st)
    = Script.getCategories st
    /\ Script.getProperty "categories" (Script.saveCategories categories st)
       = Some (Script.Names categories)
    /\ (Script.getProperty "expenseTracker:categories" st = None ->
        Script.getCategories (Script.saveCategories categories st)
        = ["食費"; "交通"; "光熱費"; "その他"]).
Proof.
  intros categories st.
  assert (Hkey : Script.getProperty "expenseTracker:categories"
                   (Script.saveCategories categories st)
                 = Script.getProperty "expenseTracker:categories" st).
  { unfold Script.getProperty, Script.saveCategories, Script.setProperty.
    simpl. apply lookup_store_other. discriminate. }
  unfold Script.getCategories, Script.getStorageData.
  rewrite Hkey. split; [reflexivity |]. split.
  - unfold Script.getProperty, Script.saveCategories, Script.setProperty.
    simpl. apply lookup_store_same.
  - intros Hnone. now rewrite Hnone.
Qed.

(** ** Worked instances of the further properties *)

Ltac distinct_names :=
  vm_compute; repeat (constructor; [simpl; intuition discriminate |]);
  constructor.

Ltac bridge_is_on := split; [reflexivity | vm_compute; discriminate].

(** On the page of the week the bridge is switched off: nothing leaves. *)
Lemma bridge_off_is_silent_witness :
  addRecordToSpreadsheet lunch NetworkError week = (false, week)
  /\ fetchRecordsFromSpreadsheet NetworkError week = (None, week).
Proof.
  destruct (bridge_off_is_silent week NetworkError lunch "m1a" [lunch])
    as (Hfetch & Hadd & _).
  - left. reflexivity.
  - split; assumption.
Defined.

(** On the page of the trio the bridge is on: one request per call. *)
Lemma bridge_on_posts_once_witness :
  sent (snd (deleteRecordFromSpreadsheet "m1a" NetworkError trio))
  = [Post "https://script.example/exec" (ActDelete (VStr "m1a"))]
  /\ fst (deleteRecordFromSpreadsheet "m1a" NetworkError trio) = false.
Proof.
  destruct (bridge_on_posts_once trio NetworkError lunch "m1a" [lunch])
    as (_ & _ & (Hret & Hsent & _) & _).
  - bridge_is_on.
  - split; [exact Hsent | exact Hret].
Defined.

Lemma mutations_are_mirrored_once_witness :
  sent (snd (deleteExpense "m1a" NetworkError week)) = []
  /\ sent (snd (deleteExpense "m1a" NetworkError trio))
     = [Post "https://script.example/exec" (ActDelete (VStr "m1a"))].
Proof.
  destruct (mutations_are_mirrored_once week snack "m1f" "m1a" NetworkError)
    as [Hoff _].
  destruct (mutations_are_mirrored_once trio snack "m1f" "m1a" NetworkError)
    as [_ Hon].
  split.
  - apply Hoff. left. reflexivity.
  - apply Hon. bridge_is_on.
Defined.

Lemma identifiers_of_the_store_witness :
  NoDup (map id (records_of (snd (deleteExpense "m1a" NetworkError trio))))
  /\ NoDup (map id (records_of (snd (addExpense snack "m1f" NetworkError
                                       trio)))).
Proof.
  destruct (identifiers_of_the_store trio snack "m1f" "m1a" NetworkError)
    as (_ & Hdel & Hadd).
  assert (Hnd : NoDup (map id (records_of trio))) by distinct_names.
  split.
  - now apply Hdel.
  - apply (Hadd Hnd). vm_compute. intuition discriminate.
Defined.

Lemma add_then_delete_witness :
  records_of
    (snd (deleteExpense "m1f" NotJson
            (snd (addExpense snack "m1f" NetworkError trio))))
  = [lunch; train; supper].
Proof.
  apply (add_then_delete trio snack "m1f" NetworkError NotJson).
  vm_compute. intuition discriminate.
Defined.

Lemma openEditModal_after_mutation_witness :
  fst (openEditModal "m1f" (snd (addExpense snack "m1f" NetworkError trio)))
  = Some (created snack "m1f")
  /\ fst (openEditModal "m1b"
            (snd (updateExpense "m1b" edited NetworkError trio)))
     = Some (replaced train edited).
Proof.
  destruct (openEditModal_after_mutation trio snack "m1f" "m1b"
              NetworkError) as (Hadd & _).
  destruct (openEditModal_after_mutation trio edited "m1f" "m1b"
              NetworkError) as (_ & Hupd & _).
  split.
  - apply Hadd. vm_compute. intuition discriminate.
  - apply Hupd. reflexivity.
Defined.

Lemma deleteCategory_in_use_witness :
  fst (deleteCategory "食費" false trio) = false
  /\ local_state (snd (deleteCategory "食費" false trio)) = local_state trio.
Proof.
  destruct (deleteCategory_in_use "食費" false trio) as (_ & Hret & Hno & _).
  - exists lunch. split; [now left | reflexivity].
  - split; [exact Hret | now apply Hno].
Defined.

Lemma category_list_stays_clean_witness :
  NoDup (categories_of (snd (addCategory " 書籍 " trio)))
  /\ NoDup (categories_of (snd (deleteCategory "交通" true trio))).
Proof.
  destruct (category_list_stays_clean " 書籍 " true trio)
    as ((Hadd & _) & _).
  - distinct_names.
  - one_of_these.
  - destruct (category_list_stays_clean "交通" true trio)
      as (_ & Hdel & _).
    + distinct_names.
    + one_of_these.
    + split; assumption.
Defined.

Lemma add_then_delete_category_witness :
  categories_of
    (snd (deleteCategory (trim " 書籍 ") false (snd (addCategory " 書籍 " trio))))
  = ["食費"; "交通"; "光熱費"; "その他"].
Proof.
  apply (add_then_delete_category " 書籍 " false trio).
  - reflexivity.
  - left. reflexivity.
Defined.

Lemma submitExpense_validates_witness :
  local_state (snd (submitExpense no_amount "m1f" NetworkError trio))
  = local_state trio
  /\ snd (submitExpense snack "m1f" NetworkError trio)
     = snd (addExpense snack "m1f" NetworkError trio).
Proof.
  destruct (submitExpense_validates no_amount "m1f" NetworkError trio)
    as (Hempty & _).
  destruct (submitExpense_validates snack "m1f" NetworkError trio)
    as (_ & Hfull & _).
  split.
  - apply Hempty. right. right. right. reflexivity.
  - apply Hfull; vm_compute; discriminate.
Defined.

Lemma syncToSpreadsheet_reports_witness :
  sent (snd (syncToSpreadsheet NetworkError trio))
  = [Post "https://script.example/exec"
       (ActSync [toJSON lunch; toJSON train; toJSON supper])]
  /\ sent (snd (syncToSpreadsheet NetworkError week)) = [].
Proof.
  destruct (syncToSpreadsheet_reports NetworkError trio) as (_ & _ & Hon & _).
  destruct (syncToSpreadsheet_reports NetworkError week)
    as (_ & _ & _ & Hoff).
  split.
  - apply Hon. bridge_is_on.
  - apply Hoff. left. reflexivity.
Defined.

Lemma listing_without_filter_witness :
  Permutation (fst (getFilteredRecords letters_first trio))
    [lunch; train; supper].
Proof.
  destruct (listing_without_filter letters_first trio) as (H & _).
  apply H. reflexivity.
Defined.

Lemma listing_of_an_empty_range_witness :
  fst (getFilteredRecords letters_first (page [lunch; train] inverted false))
  = [].
Proof.
  apply (listing_of_an_empty_range letters_first
           (page [lunch; train] inverted false));
    vm_compute; try discriminate; reflexivity.
Defined.

Lemma listing_is_canonical_witness :
  fst (getFilteredRecords by_code_units trio)
  = fst (getFilteredRecords by_code_units
           (page [supper; lunch; train] default_filters false)).
Proof.
  apply (listing_is_canonical by_code_units trio
           (page [supper; lunch; train] default_filters false)).
  - apply by_code_units_consistent.
  - apply by_code_units_tells_apart.
  - distinct_names.
  - apply Permutation_sym.
    apply (Permutation_cons_append [lunch; train] supper).
  - reflexivity.
Defined.

Lemma payment_summary_spec_witness :
  prop_get (calculatePaymentMethodSummary [lunch; train; supper]) "現金"
  = Own (Number (Num 180)).
Proof.
  assert (Hsafe : safe_amounts [lunch; train; supper]).
  { split; [repeat constructor; vm_compute; discriminate |].
    vm_compute. reflexivity. }
  assert (Hplain : own_names paymentMethod [lunch; train; supper])
    by (repeat constructor).
  destruct (payment_summary_spec [lunch; train; supper] Hsafe Hplain)
    as (_ & _ & Hsum & _).
  apply (Hsum "現金"). now left.
Defined.

Lemma summaries_add_up_to_the_total_witness :
  calculateTotal [lunch; supper; train]
  = Num (shown_total
           (summary_rows (calculateCategorySummary [lunch; supper; train]))).
Proof.
  assert (Hsafe : safe_amounts [lunch; supper; train]).
  { split; [repeat constructor; vm_compute; discriminate |].
    vm_compute. reflexivity. }
  apply (proj1 (summaries_add_up_to_the_total [lunch; supper; train] Hsafe)).
  repeat constructor.
Defined.

Lemma summary_ties_keep_order_witness :
  filter (shows 100)
    (summary_rows (calculateCategorySummary [lunch; train; supper]))
  = filter (shows 100) (calculateCategorySummary [lunch; train; supper]).
Proof.
  assert (Hsafe : safe_amounts [lunch; train; supper]).
  { split; [repeat constructor; vm_compute; discriminate |].
    vm_compute. reflexivity. }
  assert (Hplain : own_names category [lunch; train; supper])
    by (repeat constructor).
  destruct (summary_ties_keep_order [lunch; train; supper] Hsafe Hplain)
    as (_ & _ & H).
  apply H. intros c Hc. simpl in Hc.
  repeat (destruct Hc as [Hc | Hc]; [subst c; reflexivity |]).
  contradiction.
Defined.

Lemma addRecord_appends_witness :
  remote_records (Gas.addRecord ledger (toJSON supper))
  = [toJSON lunch; toJSON train; toJSON supper]
  /\ remote_records (Gas.addRecord [] (toJSON lunch)) = [].
Proof.
  destruct (addRecord_appends ledger (toJSON supper) (toJSON gift))
    as [Hsome _].
  destruct (addRecord_appends [] (toJSON lunch) (toJSON gift))
    as [_ Hnone].
  split.
  - rewrite Hsome by (vm_compute; lia). reflexivity.
  - apply Hnone; reflexivity.
Defined.

Lemma doPost_delete_removes_first_witness :
  remote_records (fst (Gas.doPost ledger (ActDelete (VStr "zz"))))
  = remote_records ledger
  /\ success (snd (Gas.doPost ledger (ActDelete (VStr "m1a")))) = true.
Proof.
  destruct (doPost_delete_removes_first ledger (VStr "zz"))
    as (_ & _ & Hmissing & _).
  destruct (doPost_delete_removes_first ledger (VStr "m1a"))
    as (_ & _ & _ & Hflag).
  split.
  - apply Hmissing. one_of_these.
  - rewrite Hflag; reflexivity.
Defined.

Lemma doPost_update_replaces_first_witness :
  remote_records (fst (Gas.doPost ledger (ActUpdate (toJSON nameless))))
  = remote_records ledger
  /\ success (snd (Gas.doPost ledger
                     (ActUpdate (toJSON (replaced train edited))))) = true.
Proof.
  destruct (doPost_update_replaces_first ledger (toJSON nameless))
    as (_ & _ & Hmissing & _).
  destruct (doPost_update_replaces_first ledger
              (toJSON (replaced train edited))) as (_ & _ & _ & Hflag).
  split.
  - apply Hmissing. one_of_these.
  - rewrite Hflag; reflexivity.
Defined.

Lemma mirror_is_kept_witness :
  mirrors
    (delivered ledger
       (requests_between duo (snd (deleteExpense "m1a" NetworkError duo))))
    (snd (deleteExpense "m1a" NetworkError duo))
  /\ mirrors
       (delivered ledger
          (requests_between duo
             (snd (addExpense snack "m1f" NetworkError duo))))
       (snd (addExpense snack "m1f" NetworkError duo)).
Proof.
  destruct (mirror_is_kept duo ledger snack "m1f" "m1a" NetworkError)
    as (_ & Hadd & Hdel).
  - bridge_is_on.
  - reflexivity.
  - split.
    + apply Hdel. distinct_names.
    + apply Hadd; [vm_compute; lia | discriminate].
Defined.

Lemma getSpreadsheet_settles_witness :
  Script.getSpreadsheet "s2"
    (snd (Script.getSpreadsheet "s1" first_run))
  = Script.getSpreadsheet "s1" first_run
  /\ resp_records
       (fst (Script.doGet "s2"
               (snd (Script.doPost "s1" (ActAdd (toJSON lunch))
                       first_run))))
     = [toJSON lunch].
Proof.
  destruct (getSpreadsheet_settles "s1" "s2" (toJSON lunch) first_run)
    as (_ & Hagain & _ & Hfirst).
  - discriminate.
  - split; [exact Hagain |].
    apply Hfirst; reflexivity.
Defined.

Lemma saveCategories_is_not_read_back_witness :
  Script.getCategories (Script.saveCategories ["書籍"] first_run)
  = ["食費"; "交通"; "光熱費"; "その他"].
Proof.
  destruct (saveCategories_is_not_read_back ["書籍"] first_run)
    as (_ & _ & H).
  apply H. reflexivity.
Defined.
